(** * QA-project-app: the script analyzer, the Playwright generator,
      the agent workflow and the run manager

    A shallow embedding of
      - [src/agent_service.py]: [EnhancedCodeAnalyzer],
        [DynamicPlaywrightGenerator], the eight agents and [process_workflow];
      - [src/backend/app/notebook24_adapter.py]: [Notebook24Adapter.analyze_code];
      - [src/backend/app/runner.py] and [models.py]: [RunManager] and [Run].

    Python [str] values are modelled as [string]; a character is one of the
    256 code points U+0000..U+00FF (Latin-1), so that the non-ASCII letters
    that Python's Unicode-aware [\w] accepts are present in the model. *)

From Stdlib Require Import Ascii String Arith Lia.
From stdpp Require Import base option list strings gmap sorting.

Set Default Proof Using "Type".
Local Open Scope nat_scope.

(* ===================================================================== *)
(** ** Python built-ins on [str] *)
(* ===================================================================== *)

Module Py.

Definition ord (c : ascii) : nat := nat_of_ascii c.

Definition LF : ascii := "010"%char.
Definition SQUOTE : ascii := "039"%char.
Definition DQUOTE : ascii := "034"%char.

Definition between (lo hi n : nat) : bool := (lo <=? n) && (n <=? hi).

(** [str.isspace] on U+0000..U+00FF; it is also the set of [\s] and the
    set removed by [str.strip()] without argument. *)
Definition isspace (c : ascii) : bool :=
  let n := ord c in
  between 9 13 n || between 28 32 n || (n =? 133) || (n =? 160).

Definition ascii_alnum (c : ascii) : bool :=
  let n := ord c in
  between 48 57 n || between 65 90 n || between 97 122 n.

(** [str.isalnum] on U+0000..U+00FF: besides the ASCII letters and digits,
    the Latin-1 letters and the numeric characters (superscripts,
    vulgar fractions, ordinal indicators, micro sign). *)
Definition isalnum (c : ascii) : bool :=
  let n := ord c in
  ascii_alnum c
  || (n =? 170) || (n =? 178) || (n =? 179) || (n =? 181) || (n =? 185)
  || (n =? 186) || between 188 190 n
  || between 192 214 n || between 216 246 n || between 248 255 n.

Definition is_ascii (c : ascii) : bool := ord c <? 128.

(** [str.lower] on one Latin-1 character. *)
Definition lower_char (c : ascii) : ascii :=
  let n := ord c in
  if between 65 90 n || between 192 214 n || between 216 222 n
  then ascii_of_nat (n + 32) else c.

Fixpoint lower (s : string) : string :=
  match s with
  | EmptyString => EmptyString
  | String c s' => String (lower_char c) (lower s')
  end.

Fixpoint len (s : string) : nat :=
  match s with
  | EmptyString => 0
  | String _ s' => S (len s')
  end.

(** Truthiness of a [str]. *)
Definition truthy (s : string) : bool :=
  match s with EmptyString => false | String _ _ => true end.

(** [s.startswith(p)] *)
Fixpoint startswith (s p : string) {struct p} : bool :=
  match p, s with
  | EmptyString, _ => true
  | String a p', String b s' => if Ascii.eqb a b then startswith s' p' else false
  | String _ _, EmptyString => false
  end.

(** [sub in s] *)
Fixpoint contains (sub s : string) : bool :=
  startswith s sub
  || match s with
     | EmptyString => false
     | String _ s' => contains sub s'
     end.

Fixpoint lstrip (p : ascii -> bool) (s : string) : string :=
  match s with
  | EmptyString => EmptyString
  | String c s' => if p c then lstrip p s' else s
  end.

Fixpoint rstrip (p : ascii -> bool) (s : string) : string :=
  match s with
  | EmptyString => EmptyString
  | String c s' =>
      match rstrip p s' with
      | EmptyString => if p c then EmptyString else String c EmptyString
      | r => String c r
      end
  end.

(** [s.strip(chars)] with [chars] given as a predicate. *)
Definition strip_chars (p : ascii -> bool) (s : string) : string :=
  rstrip p (lstrip p s).

(** [s.strip()] *)
Definition strip (s : string) : string := strip_chars isspace s.

Definition is_quote (c : ascii) : bool :=
  Ascii.eqb c SQUOTE || Ascii.eqb c DQUOTE.

(** [s.strip(q)] where [q] holds the two quote characters. *)
Definition strip_quotes (s : string) : string := strip_chars is_quote s.

(** [s.split(sep)] for a one-character separator. *)
Fixpoint split (sep : ascii) (s : string) : list string :=
  match s with
  | EmptyString => [EmptyString]
  | String c s' =>
      if Ascii.eqb c sep then EmptyString :: split sep s'
      else match split sep s' with
           | h :: t => String c h :: t
           | [] => [String c EmptyString]
           end
  end.

(** [s.replace(old, new)] for a non-empty [old]: occurrences are replaced
    from left to right and do not overlap.  [skip] counts the characters
    of the occurrence just replaced that are still to be passed over. *)
Fixpoint replace_from (old new : string) (skip : nat) (s : string) : string :=
  match s with
  | EmptyString => EmptyString
  | String c s' =>
      match skip with
      | S k => replace_from old new k s'
      | O =>
          if startswith s old
          then new +:+ replace_from old new (len old - 1) s'
          else String c (replace_from old new 0 s')
      end
  end.

Definition replace (old new s : string) : string := replace_from old new 0 s.

(** [s.rsplit(sep, 1)] for a one-character separator: the text before and
    after the last separator, when there is one. *)
Fixpoint rsplit_last (sep : ascii) (s : string) : option (string * string) :=
  match s with
  | EmptyString => None
  | String c s' =>
      match rsplit_last sep s' with
      | Some (a, b) => Some (String c a, b)
      | None => if Ascii.eqb c sep then Some (EmptyString, s') else None
      end
  end.

Definition rsplit1 (sep : ascii) (s : string) : list string :=
  match rsplit_last sep s with
  | Some (a, b) => [a; b]
  | None => [s]
  end.

(** [s.rfind(c)]: the index of the last [c], if any. *)
Fixpoint rfind (c : ascii) (s : string) : option nat :=
  match s with
  | EmptyString => None
  | String a s' =>
      match rfind c s' with
      | Some i => Some (S i)
      | None => if Ascii.eqb a c then Some 0 else None
      end
  end.

Fixpoint take (n : nat) (s : string) : string :=
  match n, s with
  | S k, String c s' => String c (take k s')
  | _, _ => EmptyString
  end.

Fixpoint drop (n : nat) (s : string) : string :=
  match n, s with
  | S k, String _ s' => drop k s'
  | _, _ => s
  end.

Fixpoint get (n : nat) (s : string) : option ascii :=
  match s, n with
  | EmptyString, _ => None
  | String c _, O => Some c
  | String _ s', S k => get k s'
  end.

(** [os.path.splitext(p)] (posixpath): the extension starts at the last
    dot of the last path component, unless that component has only dots
    before it. *)
Definition splitext (p : string) : string * string :=
  match rfind "."%char p with
  | None => (p, EmptyString)
  | Some dotIndex =>
      let filenameIndex :=
        match rfind "/"%char p with Some i => S i | None => 0 end in
      if (filenameIndex <=? dotIndex)
         && existsb (fun i => negb (bool_decide (get i p = Some "."%char)))
                    (seq filenameIndex (dotIndex - filenameIndex))
      then (take dotIndex p, drop dotIndex p)
      else (p, EmptyString)
  end.

(** [sep.join(parts)] *)
Fixpoint join (sep : string) (parts : list string) : string :=
  match parts with
  | [] => EmptyString
  | [x] => x
  | x :: rest => x +:+ sep +:+ join sep rest
  end.

(** [enumerate(l, start)] *)
Fixpoint enumerate {A} (start : nat) (l : list A) : list (nat * A) :=
  match l with
  | [] => []
  | x :: l' => (start, x) :: enumerate (S start) l'
  end.

(** All characters of a string satisfy [p]. *)
Fixpoint all_chars (p : ascii -> bool) (s : string) : bool :=
  match s with
  | EmptyString => true
  | String c s' => p c && all_chars p s'
  end.

End Py.

(* ===================================================================== *)
(** ** The fragment of Python's [re] used by the analyzer *)
(* ===================================================================== *)

(** Every pattern of the analyzer is a sequence of literals, single
    character classes, greedy repetitions of one character class, and
    capturing groups that hold either such a repetition or an alternation of
    literals.  The matcher below is the backtracking matcher of [re]
    restricted to these forms: repetitions are greedy and give characters
    back one at a time, alternatives are tried from left to right. *)
Module Re.

Inductive cclass :=
| Dot                          (* any character but the newline *)
| Space                        (* a whitespace character *)
| OneOf (l : list ascii)       (* one of the listed characters *)
| NoneOf (l : list ascii).     (* any character not listed *)

Definition mem (c : ascii) (l : list ascii) : bool :=
  existsb (Ascii.eqb c) l.

Definition in_class (k : cclass) (c : ascii) : bool :=
  match k with
  | Dot => negb (Ascii.eqb c Py.LF)
  | Space => Py.isspace c
  | OneOf l => mem c l
  | NoneOf l => negb (mem c l)
  end.

Inductive item :=
| Lit (s : string)             (* the characters of s, in order *)
| One (k : cclass)             (* one character of k *)
| Opt (k : cclass)             (* k, optional *)
| Star (k : cclass)            (* k, zero or more times *)
| Plus (k : cclass)            (* k, one or more times *)
| GroupStar (k : cclass)       (* a group holding k zero or more times *)
| GroupPlus (k : cclass)       (* a group holding k one or more times *)
| GroupAlt (alts : list string). (* a group holding one of the literals *)

Definition pattern := list item.

(** A successful match: the groups, left to right, and the unread text. *)
Definition outcome : Type := list string * string.
Definition cont := string -> option outcome.

Definition capture (g : string) (r : option outcome) : option outcome :=
  match r with
  | Some (groups, rest) => Some (g :: groups, rest)
  | None => None
  end.

Fixpoint lit (l : string) (k : cont) (s : string) : option outcome :=
  match l with
  | EmptyString => k s
  | String a l' =>
      match s with
      | String b s' => if Ascii.eqb a b then lit l' k s' else None
      | EmptyString => None
      end
  end.

Definition one (cl : cclass) (k : cont) (s : string) : option outcome :=
  match s with
  | String c s' => if in_class cl c then k s' else None
  | EmptyString => None
  end.

Definition opt (cl : cclass) (k : cont) (s : string) : option outcome :=
  match one cl k s with
  | Some r => Some r
  | None => k s
  end.

Fixpoint star (cl : cclass) (k : cont) (s : string) : option outcome :=
  match s with
  | String c s' =>
      if in_class cl c
      then match star cl k s' with
           | Some r => Some r
           | None => k s
           end
      else k s
  | EmptyString => k s
  end.

(** Greedy repetition inside a group; [acc] is the text of the group
    read so far. *)
Fixpoint group_star (cl : cclass) (k : cont) (acc : string) (s : string)
  : option outcome :=
  match s with
  | String c s' =>
      if in_class cl c
      then match group_star cl k (acc +:+ String c EmptyString) s' with
           | Some r => Some r
           | None => capture acc (k s)
           end
      else capture acc (k s)
  | EmptyString => capture acc (k s)
  end.

Definition group_plus (cl : cclass) (k : cont) (s : string) : option outcome :=
  match s with
  | String c s' =>
      if in_class cl c then group_star cl k (String c EmptyString) s' else None
  | EmptyString => None
  end.

Fixpoint group_alt (alts : list string) (k : cont) (s : string)
  : option outcome :=
  match alts with
  | [] => None
  | a :: alts' =>
      match lit a (fun rest => capture a (k rest)) s with
      | Some r => Some r
      | None => group_alt alts' k s
      end
  end.

(** [matcher p s]: match [p] at the start of [s]. *)
Fixpoint matcher (p : pattern) : cont :=
  match p with
  | [] => fun s => Some ([], s)
  | it :: p' =>
      let k := matcher p' in
      match it with
      | Lit l => lit l k
      | One cl => one cl k
      | Opt cl => opt cl k
      | Star cl => star cl k
      | Plus cl => one cl (star cl k)
      | GroupStar cl => group_star cl k EmptyString
      | GroupPlus cl => group_plus cl k
      | GroupAlt alts => group_alt alts k
      end
  end.

(** A match object: its groups and the matched text. *)
Record Match := { groups : list string; whole : string }.

Definition match_at (p : pattern) (s : string) : option Match :=
  match matcher p s with
  | Some (gs, rest) =>
      Some {| groups := gs; whole := Py.take (Py.len s - Py.len rest) s |}
  | None => None
  end.

(** [m.group(i)] for [i >= 1]. *)
Definition group (i : nat) (m : Match) : string :=
  nth (i - 1) (groups m) EmptyString.

(** [re.search(p, s)]: the leftmost match. *)
Fixpoint search (p : pattern) (s : string) : option Match :=
  match match_at p s with
  | Some m => Some m
  | None =>
      match s with
      | String _ s' => search p s'
      | EmptyString => None
      end
  end.

(** What [re.findall] returns for one match: the matched text when the
    pattern has no group, the group when it has one, the tuple of the
    groups otherwise. *)
Inductive found :=
| FStr (s : string)
| FTuple (l : list string).

Definition found_of (m : Match) : found :=
  match groups m with
  | [] => FStr (whole m)
  | [g] => FStr g
  | gs => FTuple gs
  end.

(** [re.findall(p, s)]: the matches from left to right, without overlap.
    [skip] counts the characters of the last match still to be passed
    over.  (No pattern of the analyzer matches the empty string.) *)
Fixpoint findall_from (p : pattern) (skip : nat) (s : string) : list found :=
  match skip with
  | S k =>
      match s with
      | String _ s' => findall_from p k s'
      | EmptyString => []
      end
  | O =>
      match match_at p s with
      | Some m =>
          found_of m ::
            match s with
            | String _ s' => findall_from p (Py.len (whole m) - 1) s'
            | EmptyString => []
            end
      | None =>
          match s with
          | String _ s' => findall_from p 0 s'
          | EmptyString => []
          end
      end
  end.

Definition findall (p : pattern) (s : string) : list found :=
  findall_from p 0 s.

(** [re.sub] of a one-character class by a fixed text. *)
Fixpoint sub_class (cl : ascii -> bool) (repl : string) (s : string) : string :=
  match s with
  | EmptyString => EmptyString
  | String c s' =>
      if cl c then repl +:+ sub_class cl repl s'
      else String c (sub_class cl repl s')
  end.

Definition quote : cclass := OneOf [Py.SQUOTE; Py.DQUOTE].
Definition not_quote : cclass := NoneOf [Py.SQUOTE; Py.DQUOTE].

End Re.

(* ===================================================================== *)
(** ** Steps and the analysis result *)
(* ===================================================================== *)

(** A parsed step is a Python dict; a key that a dict does not hold is
    [None], and [get] is [dict.get] with its default. *)
Record Step := {
  type : option string;
  action : option string;
  selector : option string;
  value : option string;
  url : option string;
  assertion_type : option string;
  expected_value : option string;
  css_property : option string;
  line_number : nat;
  original_code : string
}.

Definition get (field : option string) (default : string) : string :=
  match field with
  | Some v => v
  | None => default
  end.

Record QualityMetrics := {
  urls_found : nat;
  steps_parsed : nat;
  frameworks_count : nat;
  has_real_urls : bool;
  assertion_types : list string
}.

Record Analysis := {
  filename : string;
  normalized_filename : string;
  language_detected : string;
  frameworks_detected : list string;
  real_urls : list string;
  primary_url : option string;
  parsed_steps : list Step;
  code_length : nat;
  lines_count : nat;
  complexity_score : nat;
  analysis_timestamp : string;
  quality_metrics : QualityMetrics
}.

(** What a call reads from outside its arguments: the system clock, read by
    [datetime.now()], and the iteration order of a [set] of strings, which
    the interpreter fixes when it starts. *)
Record World := {
  clock : nat -> string;     (* the successive readings of the clock *)
  reads : nat;               (* how many readings were taken so far *)
  set_order : list string -> list string
}.

Definition datetime_now (w : World) : string * World :=
  (clock w (reads w),
   {| clock := clock w; reads := S (reads w); set_order := set_order w |}).

(* ===================================================================== *)
(** ** [EnhancedCodeAnalyzer] (agent_service.py) *)
(* ===================================================================== *)

Module EnhancedCodeAnalyzer.
Import Re.

Record FrameworkPattern := {
  keywords : list string;
  imports : list string;
  weight : nat
}.

Definition framework_patterns : list (string * FrameworkPattern) :=
  [ ("cypress",
     {| keywords := ["cy."; "cypress"; "cy.visit"; "cy.get"; "cy.click";
                     "cy.type"; "cy.should"];
        imports := ["cypress"];
        weight := 3 |});
    ("playwright",
     {| keywords := ["page."; "test("; "expect("; "page.goto"; "page.locator";
                     "page.click"; "page.fill"];
        imports := ["@playwright/test"; "playwright"];
        weight := 3 |});
    ("selenium",
     {| keywords := ["driver"; "WebDriver"; "findElement"; "By."; "selenium"];
        imports := ["selenium-webdriver"; "webdriver"];
        weight := 2 |});
    ("jest",
     {| keywords := ["describe("; "test("; "it("; "expect("; "beforeEach";
                     "afterEach"];
        imports := ["jest"; "@jest/globals"];
        weight := 2 |}) ].

(** The opening of a call: the name, an open parenthesis and a quote,
    with optional blanks. *)
Definition call (name : string) : pattern :=
  [Lit name; Star Space; Lit "("; Star Space; One quote].

Definition url_extraction_patterns : list pattern :=
  [ call "cy.visit" ++ [GroupPlus not_quote; One quote];
    [Lit "cy.url()"; Star Space; Lit ".should"; Star Space; Lit "(";
     Star Space; One quote; Lit "eq"; One quote; Lit ","; Star Space;
     One quote; GroupPlus not_quote; One quote];
    call "page.goto" ++ [GroupPlus not_quote; One quote];
    [Lit "await"; Plus Space] ++ call "page.goto"
      ++ [GroupPlus not_quote; One quote];
    call "driver.get" ++ [GroupPlus not_quote; One quote];
    call "get" ++ [GroupPlus not_quote; One quote];
    [One quote; Lit "http"; Opt (OneOf ["s"%char]); Lit "://";
     Plus not_quote; One quote] ].

(** [url and url.startswith(('http://', 'https://'))] *)
Definition is_http (u : string) : bool :=
  Py.truthy u && (Py.startswith u "http://" || Py.startswith u "https://").

Definition append_if_http (urls : list string) (u : string) : list string :=
  if is_http u then urls ++ [Py.strip_quotes u] else urls.

(** The body of [for match in matches]. *)
Definition collect_match (urls : list string) (m : found) : list string :=
  match m with
  | FTuple l => fold_left append_if_http l urls
  | FStr s => append_if_http urls s
  end.

(** The list [urls] after the loop over the patterns. *)
Definition collect_urls (code : string) : list string :=
  fold_left
    (fun urls p => fold_left collect_match (findall p code) urls)
    url_extraction_patterns [].

(** The loop under [# Remove duplicates]. *)
Definition remove_duplicates (urls : list string) : list string :=
  fold_left
    (fun unique_urls u =>
       if bool_decide (u ∈ unique_urls) then unique_urls
       else unique_urls ++ [u])
    urls [].

Definition extract_real_urls (code : string) : list string :=
  remove_duplicates (collect_urls code).

(* ------------------------------------------------------------------- *)

Definition chain_pattern : pattern :=
  call "cy.get"
  ++ [GroupPlus not_quote; One quote; Star Space; Lit ")"; Star Space;
      Lit ".type"; Star Space; Lit "("; Star Space; One quote;
      GroupStar not_quote; One quote; Star Dot;
      Lit ".should"; Star Space; Lit "("; Star Space; One quote;
      Lit "have.value"; One quote; Star Space; Lit ","; Star Space;
      One quote; GroupStar not_quote; One quote].

Definition url_assert_pattern : pattern :=
  [Lit "cy.url()"; Star Space; Lit ".should"; Star Space; Lit "(";
   Star Space; One quote; Lit "eq"; One quote; Star Space; Lit ",";
   Star Space; One quote; GroupPlus not_quote; One quote].

Definition nav_pattern : pattern :=
  [GroupAlt ["cy.visit"; "page.goto"; "driver.get"]; Star Space; Lit "(";
   Star Space; One quote; GroupPlus not_quote; One quote].

Definition click_pattern : pattern :=
  call "cy.get"
  ++ [GroupPlus not_quote; One quote; Star Dot; Lit ".click"; Star Space;
      Lit "("].

Definition type_pattern : pattern :=
  call "cy.get"
  ++ [GroupPlus not_quote; One quote; Star Dot; Lit ".type"; Star Space;
      Lit "("; Star Space; One quote; GroupStar not_quote; One quote].

Definition input_step (sel v : string) (line_num : nat) (line : string) : Step :=
  {| type := Some "input"; action := Some "type"; selector := Some sel;
     value := Some v; url := None; assertion_type := None;
     expected_value := None; css_property := None;
     line_number := line_num; original_code := line |}.

Definition assert_value_step (sel expected : string) (line_num : nat)
    (line : string) : Step :=
  {| type := Some "assert_value"; action := Some "should";
     selector := Some sel; value := None; url := None;
     assertion_type := Some "have.value"; expected_value := Some expected;
     css_property := None; line_number := line_num; original_code := line |}.

Definition assert_url_step (expected : string) (line_num : nat)
    (line : string) : Step :=
  {| type := Some "assert_url"; action := Some "should";
     selector := Some "url"; value := None; url := None;
     assertion_type := Some "eq"; expected_value := Some expected;
     css_property := None; line_number := line_num; original_code := line |}.

Definition navigation_step (act u : string) (line_num : nat)
    (line : string) : Step :=
  {| type := Some "navigation"; action := Some act; selector := None;
     value := None; url := Some u; assertion_type := None;
     expected_value := None; css_property := None;
     line_number := line_num; original_code := line |}.

Definition click_step (sel : string) (line_num : nat) (line : string) : Step :=
  {| type := Some "click"; action := Some "click"; selector := Some sel;
     value := None; url := None; assertion_type := None;
     expected_value := None; css_property := None;
     line_number := line_num; original_code := line |}.

(** [not line or line.startswith('//') or line.startswith('*')] *)
Definition skipped (line : string) : bool :=
  negb (Py.truthy line) || Py.startswith line "//" || Py.startswith line "*".

(** One turn of the loop of [parse_test_steps]: [parsed_steps] after the
    turn for the line [raw] numbered [line_num]. *)
Definition loop_body (parsed_steps : list Step) (line_num : nat)
    (raw : string) : list Step :=
  let line := Py.strip raw in
  if skipped line then parsed_steps
  else
    match search chain_pattern line with
    | Some chain_match =>
        let sel := group 1 chain_match in
        let type_value := group 2 chain_match in
        let assert_value := group 3 chain_match in
        (parsed_steps ++ [input_step sel type_value line_num line])
          ++ [assert_value_step sel assert_value line_num line]
    | None =>
    match search url_assert_pattern line with
    | Some url_match =>
        parsed_steps ++ [assert_url_step (group 1 url_match) line_num line]
    | None =>
    match search nav_pattern line with
    | Some nav_match =>
        parsed_steps
          ++ [navigation_step (group 1 nav_match) (group 2 nav_match)
                line_num line]
    | None =>
    match search click_pattern line with
    | Some click_match =>
        parsed_steps ++ [click_step (group 1 click_match) line_num line]
    | None =>
    match search type_pattern line with
    | Some type_match =>
        if negb (Py.contains ".should(" line)
        then parsed_steps
               ++ [input_step (group 1 type_match) (group 2 type_match)
                     line_num line]
        else parsed_steps
    | None => parsed_steps
    end end end end end.

Definition parse_test_steps (code : string) : list Step :=
  fold_left
    (fun parsed_steps '(line_num, line) => loop_body parsed_steps line_num line)
    (Py.enumerate 1 (Py.split Py.LF code)) [].

(* ------------------------------------------------------------------- *)

Definition language_map : list (string * string) :=
  [ (".js", "javascript"); (".jsx", "javascript"); (".ts", "typescript");
    (".tsx", "typescript"); (".vue", "vue"); (".py", "python");
    (".rb", "ruby"); (".dart", "dart"); (".kt", "kotlin");
    (".swift", "swift"); (".java", "java"); (".cs", "csharp") ].

(** [d.get(k, default)] on a dict given by its items. *)
Fixpoint dict_get (d : list (string * string)) (k default : string) : string :=
  match d with
  | [] => default
  | (k', v) :: d' => if bool_decide (k' = k) then v else dict_get d' k default
  end.

(** The score of one framework: its weight for every keyword found in the
    code, twice its weight for every import found. *)
Definition framework_score (patterns : FrameworkPattern) (code : string) : nat :=
  let score :=
    fold_left
      (fun score keyword =>
         if Py.contains keyword code then score + weight patterns else score)
      (keywords patterns) 0 in
  fold_left
    (fun score import_pattern =>
       if Py.contains import_pattern code then score + weight patterns * 2
       else score)
    (imports patterns) score.

(** [list.sort(key=lambda x: x[1], reverse=True)]: a stable sort, so that
    entries of equal score keep their order. *)
Fixpoint insert_by_score (x : string * nat) (l : list (string * nat))
  : list (string * nat) :=
  match l with
  | [] => [x]
  | y :: l' => if snd x <? snd y then y :: insert_by_score x l' else x :: l
  end.

Definition sort_by_score (l : list (string * nat)) : list (string * nat) :=
  fold_right insert_by_score [] l.

Definition detect_language_and_framework (filename code : string)
  : string * list string :=
  let ext := Py.lower (snd (Py.splitext filename)) in
  let language := dict_get language_map ext "javascript" in
  let frameworks :=
    fold_left
      (fun frameworks '(framework, patterns) =>
         let score := framework_score patterns code in
         if 0 <? score then frameworks ++ [(framework, score)] else frameworks)
      framework_patterns [] in
  (language, map fst (sort_by_score frameworks)).

(** [\w]: what [str.isalnum] accepts, and the underscore. *)
Definition is_word (c : ascii) : bool :=
  Py.isalnum c || Ascii.eqb c "_"%char.

(** The class of the [re.sub] of [normalize_filename]: every character
    that is neither a word character, nor a dash, nor an underscore. *)
Definition unsafe_char (c : ascii) : bool :=
  negb (is_word c || Ascii.eqb c "-"%char || Ascii.eqb c "_"%char).

Definition normalize_filename (filename : string) : string :=
  let normalized :=
    Py.replace ".cy." "_cy_"
      (Py.replace ".spec." "_spec_"
         (Py.replace ".test." "_test_" filename)) in
  let parts := Py.rsplit1 "."%char normalized in
  let normalized :=
    if 1 <? length parts
    then nth 0 parts EmptyString +:+ "_" +:+ nth 1 parts EmptyString
    else normalized in
  sub_class unsafe_char "_" normalized.

(** The body of the loop of [calculate_complexity_score]. *)
Definition add_step_score (score : nat) (step : Step) : nat :=
  let step_type := get (type step) EmptyString in
  if bool_decide (step_type = "navigation") then score + 1
  else if bool_decide (step_type = "click") then score + 2
  else if bool_decide (step_type = "input") then score + 3
  else if Py.startswith step_type "assert_" then score + 2
  else score.

Definition calculate_complexity_score (parsed_steps : list Step) : nat :=
  fold_left add_step_score parsed_steps 0.

Definition analyze_code (code filename : string) (w : World)
  : Analysis * World :=
  let real_urls := extract_real_urls code in
  let parsed_steps := parse_test_steps code in
  let '(language, frameworks) := detect_language_and_framework filename code in
  let normalized_filename := normalize_filename filename in
  let '(now, w') := datetime_now w in
  ({| filename := filename;
      normalized_filename := normalized_filename;
      language_detected := language;
      frameworks_detected := frameworks;
      real_urls := real_urls;
      primary_url := head real_urls;
      parsed_steps := parsed_steps;
      code_length := Py.len code;
      lines_count := length (Py.split Py.LF code);
      complexity_score := calculate_complexity_score parsed_steps;
      analysis_timestamp := now;
      quality_metrics :=
        {| urls_found := length real_urls;
           steps_parsed := length parsed_steps;
           frameworks_count := length frameworks;
           has_real_urls := 0 <? length real_urls;
           assertion_types :=
             set_order w
               (omap type
                  (filter
                     (fun step =>
                        Py.startswith (get (type step) EmptyString) "assert_")
                     parsed_steps)) |} |},
   w').

End EnhancedCodeAnalyzer.

(* ===================================================================== *)
(** ** [DynamicPlaywrightGenerator] (agent_service.py) *)
(* ===================================================================== *)

Module DynamicPlaywrightGenerator.

Definition NL : string := String Py.LF EmptyString.

Definition _preserve_clean_selector (sel : string) : string :=
  Py.strip_quotes sel.

Definition goto_lines (u : string) : string :=
  "  await page.goto('" +:+ u +:+ "');" +:+ NL
  +:+ "  await page.waitForLoadState('networkidle');".

Definition navigation_placeholder : string :=
  "  //Navigation step - URL not found".

Definition _generate_navigation_step (step : Step) : string :=
  let u := get (url step) EmptyString in
  if Py.truthy u then goto_lines u else navigation_placeholder.

Definition _generate_click_step (step : Step) : string :=
  let sel := get (selector step) EmptyString in
  let cleaned_selector := _preserve_clean_selector sel in
  if Py.truthy sel
  then "  await page.locator('" +:+ cleaned_selector +:+ "').click();"
  else "  //Click step - selector not found".

Definition _generate_input_step (step : Step) : string :=
  let sel := get (selector step) EmptyString in
  let v := get (value step) EmptyString in
  let cleaned_selector := _preserve_clean_selector sel in
  if Py.truthy sel && Py.truthy v
  then "  await page.locator('" +:+ cleaned_selector +:+ "').fill('" +:+ v
       +:+ "');"
  else if Py.truthy sel
  then "  await page.locator('" +:+ cleaned_selector +:+ "').fill('');"
  else "  //Input step - selector not found".

Definition _generate_url_assertion_step (step : Step) : string :=
  let expected_url := get (expected_value step) EmptyString in
  if Py.truthy expected_url
  then "  expect(page.url()).toBe('" +:+ expected_url +:+ "');"
  else "  //URL assertion - expected URL not found".

Definition visible_line (cleaned_selector : string) : string :=
  "  await expect(page.locator('" +:+ cleaned_selector +:+ "')).toBeVisible();".

Definition _generate_value_assertion_step (step : Step) : string :=
  let sel := get (selector step) EmptyString in
  let expected := get (expected_value step) EmptyString in
  let cleaned_selector := _preserve_clean_selector sel in
  if Py.truthy sel && Py.truthy expected
  then "  await expect(page.locator('" +:+ cleaned_selector
       +:+ "')).toHaveValue('" +:+ expected +:+ "');"
  else if Py.truthy sel then visible_line cleaned_selector
  else "  //Value assertion - selector not found".

Definition _generate_css_assertion_step (step : Step) : string :=
  let sel := get (selector step) EmptyString in
  let prop := get (css_property step) EmptyString in
  let expected := get (expected_value step) EmptyString in
  let cleaned_selector := _preserve_clean_selector sel in
  if Py.truthy sel && Py.truthy prop && Py.truthy expected
  then "  await expect(page.locator('" +:+ cleaned_selector
       +:+ "')).toHaveCSS('" +:+ prop +:+ "','" +:+ expected +:+ "');"
  else if Py.truthy sel then visible_line cleaned_selector
  else "  //CSS assertion - missing properties".

Definition _generate_generic_assertion_step (step : Step) : string :=
  let sel := get (selector step) EmptyString in
  let kind := get (assertion_type step) EmptyString in
  let expected := get (expected_value step) EmptyString in
  let cleaned_selector := _preserve_clean_selector sel in
  if bool_decide (kind ∈ ["be.visible"; "be.visible()"; "exist"; "be.exist"])
  then visible_line cleaned_selector
  else if bool_decide (kind ∈ ["have.text"; "contain.text"; "contain"])
          && Py.truthy expected
  then "  await expect(page.locator('" +:+ cleaned_selector
       +:+ "')).toContainText('" +:+ expected +:+ "');"
  else visible_line cleaned_selector.

Definition _generate_wait_step (step : Step) : string :=
  "  await page.waitForLoadState('networkidle');".

(** The dispatch table built by [__init__], in declaration order. *)
Definition playwright_mappings : list (string * (Step -> string)) :=
  [ ("navigation", _generate_navigation_step);
    ("click", _generate_click_step);
    ("input", _generate_input_step);
    ("assert_url", _generate_url_assertion_step);
    ("assert_value", _generate_value_assertion_step);
    ("assert_css", _generate_css_assertion_step);
    ("assertion", _generate_generic_assertion_step);
    ("wait", _generate_wait_step) ].

Fixpoint lookup_rule (table : list (string * (Step -> string)))
    (step_type : string) : option (Step -> string) :=
  match table with
  | [] => None
  | (k, rule) :: table' =>
      if bool_decide (k = step_type) then Some rule
      else lookup_rule table' step_type
  end.

(** The body of [for step in parsed_steps]. *)
Definition append_step (test_code : string) (step : Step) : string :=
  let step_type := get (type step) "unknown" in
  match lookup_rule playwright_mappings step_type with
  | Some rule => test_code +:+ ("    " +:+ rule step +:+ NL)
  | None => test_code
  end.

Definition suite_header (normalized : string) : string :=
  "const { test, expect } = require('@playwright/test');" +:+ NL +:+ NL
  +:+ "test.describe('" +:+ normalized +:+ " - Generated Tests', () => {".

Definition before_each (primary : string) : string :=
  NL +:+ "  test.beforeEach(async ({ page }) => {" +:+ NL
  +:+ "    await page.goto('" +:+ primary +:+ "');" +:+ NL
  +:+ "    await page.waitForLoadState('networkidle');" +:+ NL
  +:+ "  });".

Definition test_header : string :=
  NL +:+ "  test('Application functionality test', async ({ page }) => {"
  +:+ NL.

Definition suite_footer : string :=
  "  });" +:+ NL +:+ "});" +:+ NL.

Definition generate_playwright_test (analysis : Analysis) : string :=
  let test_code := suite_header (normalized_filename analysis) in
  let test_code :=
    match primary_url analysis with
    | Some primary =>
        if Py.truthy primary then test_code +:+ before_each primary
        else test_code
    | None => test_code
    end in
  let test_code := test_code +:+ test_header in
  let test_code := fold_left append_step (parsed_steps analysis) test_code in
  test_code +:+ suite_footer.

End DynamicPlaywrightGenerator.

(* ===================================================================== *)
(** ** The agents and [process_workflow] (agent_service.py) *)
(* ===================================================================== *)

Module AgentService.

(** The rows of the list [agents] of [process_workflow], with the texts
    that the agent of each row uses. *)
Record AgentRow := {
  agent_name : string;
  running_message : string;
  errors_prefix : string;   (* the text appended to [state.errors] *)
  failure_prefix : string   (* the text of the error message broadcast *)
}.

Definition agents : list AgentRow :=
  [ {| agent_name := "code_analysis";
       running_message := "Analyzing code structure and patterns...";
       errors_prefix := "Enhanced code analysis failed: ";
       failure_prefix := "Analysis failed: " |};
    {| agent_name := "user_story";
       running_message := "Generating user story from code analysis...";
       errors_prefix := "User story generation failed: ";
       failure_prefix := "User story generation failed: " |};
    {| agent_name := "gherkin";
       running_message := "Generating Gherkin BDD scenarios...";
       errors_prefix := "Gherkin generation failed: ";
       failure_prefix := "Gherkin generation failed: " |};
    {| agent_name := "test_plan";
       running_message := "Creating comprehensive test plan...";
       errors_prefix := "Test plan generation failed: ";
       failure_prefix := "Test plan generation failed: " |};
    {| agent_name := "playwright";
       running_message := "Generating Playwright test code...";
       errors_prefix := "Playwright generation failed: ";
       failure_prefix := "Playwright generation failed: " |};
    {| agent_name := "execution";
       running_message := "Executing tests and collecting results...";
       errors_prefix := "Test execution failed: ";
       failure_prefix := "Test execution failed: " |};
    {| agent_name := "coverage";
       running_message := "Analyzing code coverage and generating reports...";
       errors_prefix := "Coverage analysis failed: ";
       failure_prefix := "Coverage analysis failed: " |};
    {| agent_name := "final_report";
       running_message := "Generating final report and artifacts...";
       errors_prefix := "Final report generation failed: ";
       failure_prefix := "Final report generation failed: " |} ].

Section Workflow.

(** [Payload] stands for the keys of [TestAutomationState] that the
    [try] blocks of the agents assign (the analysis, the generated
    texts, the reports, [current_step], [artifacts]); no [try] block
    assigns [run_id] or [errors].  [Data] is the summary sent with a
    success message. *)
Context {Payload Data : Type}.

Record TestAutomationState := {
  run_id : string;
  errors : list string;
  payload : Payload
}.

(** How the [try] block of an agent ends: it returns after the success
    message was built, or it raises [Exception(msg)]. *)
Inductive ending :=
| Succeeds (message : string) (data : Data)
| Raises (msg : string).

(** The [try] block of the agent of a row: the keys it leaves assigned
    in the state, and how it ends.  The blocks read the clock, draw
    random numbers and write files, so they are a parameter here. *)
Variable try_block : string -> TestAutomationState -> Payload * ending.

Variable artifacts_generated : Payload -> nat.

(** What is handed to [manager.broadcast_to_run], in JSON. *)
Inductive Message :=
| workflow_progress (current_agent : string) (index total : nat)
| agent_update (agent status message : string) (data : option Data)
| workflow_complete (run : string) (final_status : string)
    (final_errors : list string) (artifacts_count : nat)
| workflow_error (run : string) (error : string).

(** A call of a stage function returns the state, or lets an exception
    escape; the state is a dict mutated in place, so what was assigned
    before the exception stays assigned. *)
Inductive call_result :=
| Returned (state : TestAutomationState) (sent : list Message)
| Escaped (state : TestAutomationState) (sent : list Message) (msg : string).

Definition stage := TestAutomationState -> list Message -> call_result.

(** The agent functions [code_analysis_agent] ... [final_report_agent]:
    the running message, then the [try] block, whose [except] branch
    appends to [errors] and sends the error message. *)
Definition agent (row : AgentRow) : stage :=
  fun state sent =>
    let sent :=
      sent ++ [agent_update (agent_name row) "running"
                 (running_message row) None] in
    match try_block (agent_name row) state with
    | (p, Succeeds message data) =>
        Returned
          {| run_id := run_id state; errors := errors state; payload := p |}
          (sent ++ [agent_update (agent_name row) "success" message
                      (Some data)])
    | (p, Raises e) =>
        Returned
          {| run_id := run_id state;
             errors := errors state ++ [errors_prefix row +:+ e];
             payload := p |}
          (sent ++ [agent_update (agent_name row) "error"
                      (failure_prefix row +:+ e) None])
    end.

(** The [for] loop of [process_workflow] over the rows that remain;
    [index] is the position of the first of them in the list. *)
Fixpoint run_stages (total index : nat) (todo : list (string * stage))
    (state : TestAutomationState) (sent : list Message) : call_result :=
  match todo with
  | [] => Returned state sent
  | (name, agent_func) :: todo' =>
      let sent := sent ++ [workflow_progress name index total] in
      match agent_func state sent with
      | Returned state' sent' =>
          run_stages total (S index) todo' state' sent'
      | Escaped state' sent' e => Escaped state' sent' e
      end
  end.

Definition process_workflow_with (stages : list (string * stage))
    (run : string) (active_runs : gmap string TestAutomationState)
    (sent : list Message)
  : gmap string TestAutomationState * list Message :=
  match active_runs !! run with
  | None => (active_runs, sent)
  | Some state =>
      match run_stages (length stages) 0 stages state sent with
      | Returned final sent' =>
          (<[run := final]> active_runs,
           sent' ++ [workflow_complete run "completed" (errors final)
                       (artifacts_generated (payload final))])
      | Escaped final sent' e =>
          (<[run := final]> active_runs, sent' ++ [workflow_error run e])
      end
  end.

Definition stage_functions : list (string * stage) :=
  map (fun row => (agent_name row, agent row)) agents.

Definition process_workflow :=
  process_workflow_with stage_functions.

End Workflow.

End AgentService.

(* ===================================================================== *)
(** ** [Notebook24Adapter.analyze_code] (notebook24_adapter.py) *)
(* ===================================================================== *)

Module Notebook24Adapter.

Definition agents : list (string * string) :=
  [ ("code_analysis", "Code Analysis");
    ("user_story", "User Story Generation");
    ("gherkin", "Gherkin Scenarios");
    ("test_plan", "Test Plan Creation");
    ("playwright", "Playwright Test Generation");
    ("execution", "Test Execution");
    ("coverage", "Coverage Analysis");
    ("final_report", "Final Report") ].

Section AnalyzeCode.

(** [Dict] and [Coverage] are the values that the execution and the
    coverage stage return; [FileStatus] is the entry of the file list. *)
Context {Dict Coverage FileStatus : Type}.

Inductive result :=
| RStr (s : string)
| RDict (d : Dict)
| RCoverage (c : Coverage).

(** A stage function applied to the arguments of the call: it returns
    a result or raises [Exception(msg)]. *)
Inductive stage_call :=
| Returns (r : result)
| Raises (msg : string).

(** The stage function of each key, applied to [source_path],
    [selected_paths] and [custom_tests]. *)
Variable analysis_func : string -> stage_call.
Variable final_coverage : Coverage.
Variable file_statuses : list FileStatus.

Record AgentEntry := {
  key : string;
  label : string;
  state : string;
  message : string
}.

(** A dict yielded by the generator. *)
Record Update := {
  upd_agents : list AgentEntry;
  upd_artifacts : list (string * result);
  upd_errors : list string;
  upd_status : option string;
  upd_coverage : option Coverage;
  upd_files : list FileStatus
}.

Definition agent_update (e : AgentEntry) (arts : list (string * result))
    (errs : list string) : Update :=
  {| upd_agents := [e]; upd_artifacts := arts; upd_errors := errs;
     upd_status := None; upd_coverage := None; upd_files := [] |}.

(** [isinstance(result, (str, dict))] *)
Definition is_str_or_dict (r : result) : bool :=
  match r with
  | RStr _ | RDict _ => true
  | RCoverage _ => false
  end.

(** One turn of the loop over the agents: what it yields and what it
    adds to [analysis_results]. *)
Definition stage_turn (agent_key agent_label : string)
  : list Update * list (string * result) :=
  let running :=
    agent_update
      {| key := agent_key; label := agent_label; state := "running";
         message := "Running " +:+ Py.lower agent_label +:+ "..." |}
      [] [] in
  match analysis_func agent_key with
  | Returns r =>
      ([running;
        agent_update
          {| key := agent_key; label := agent_label; state := "success";
             message := agent_label +:+ " completed successfully" |}
          (if is_str_or_dict r then [(agent_key, r)] else []) []],
       [(agent_key, r)])
  | Raises e =>
      ([running;
        agent_update
          {| key := agent_key; label := agent_label; state := "error";
             message := "Error in " +:+ Py.lower agent_label +:+ ": " +:+ e |}
          [] [agent_label +:+ ": " +:+ e]],
       [])
  end.

Fixpoint stage_loop (todo : list (string * string))
    (yielded : list Update) (analysis_results : list (string * result))
  : list Update * list (string * result) :=
  match todo with
  | [] => (yielded, analysis_results)
  | (agent_key, agent_label) :: todo' =>
      let '(ys, rs) := stage_turn agent_key agent_label in
      stage_loop todo' (yielded ++ ys) (analysis_results ++ rs)
  end.

(** Everything the generator yields, in order. *)
Definition analyze_code : list Update :=
  let '(yielded, analysis_results) := stage_loop agents [] [] in
  yielded
    ++ [ {| upd_agents := []; upd_artifacts := analysis_results;
            upd_errors := []; upd_status := Some "completed";
            upd_coverage := Some final_coverage;
            upd_files := file_statuses |} ].

End AnalyzeCode.

End Notebook24Adapter.

(* ===================================================================== *)
(** ** [Run] (models.py) and [RunManager] (runner.py) *)
(* ===================================================================== *)

Module RunManager.

Record AgentState := {
  key : string;
  label : string;
  state : string;
  message : option string
}.

Record FileStatus := { path : string; file_status : string }.

Definition AGENTS : list (string * string) :=
  [ ("code_analysis", "Code Analysis");
    ("user_story", "User Story Generation");
    ("gherkin", "Gherkin Scenarios");
    ("test_plan", "Test Plan Creation");
    ("playwright", "Playwright Test Generation");
    ("execution", "Test Execution");
    ("coverage", "Coverage Analysis");
    ("final_report", "Final Report") ].

(** An [asyncio.Task] of [run_tasks]. *)
Record Task := { cancelled : bool }.

Section Manager.

(** [CoverageDict] is a dict found under the key [coverage] of an event
    and [Coverage] the pydantic model; [Coverage_of d] is
    [Coverage( **d )], which raises a validation error ([None]) when the
    dict does not fit the model.  [Other] is any value that is not a
    dict. *)
Context {CoverageDict Coverage Other : Type}.
Variable Coverage_of : CoverageDict -> option Coverage.

Record Run := {
  runId : string;
  status : string;
  agents : list AgentState;
  coverage : option Coverage;
  files : list FileStatus;
  artifacts : gmap string string;
  errors : list string
}.

Inductive coverage_value :=
| CovDict (d : CoverageDict)
| CovOther (v : Other).

(** An event of [run_agents]: the keys that [_process_agent_event]
    reads; [None] is a key that the event does not hold. *)
Record Event := {
  ev_agent : option string;
  ev_state : option string;
  ev_message : option string;
  ev_coverage : option coverage_value;
  ev_artifact : option string
}.

(** What is put on the queue of a run. *)
Inductive QueueItem :=
| status_update (status message : string)
| agent_event (data : Event)
| run_complete (run : string)
| run_error (error : string)
| stream_end.

Record Manager := {
  active_runs : gmap string Run;
  completed_runs : gmap string Run;
  run_tasks : gmap string Task;
  event_queues : gmap string (list QueueItem)
}.

(** [RunManager.__init__] *)
Definition init : Manager :=
  {| active_runs := ∅; completed_runs := ∅; run_tasks := ∅;
     event_queues := ∅ |}.

Definition _initialize_agents : list AgentState :=
  map (fun agent =>
         {| key := fst agent; label := snd agent; state := "idle";
            message := None |})
      AGENTS.

(** [start_run], up to the start of the background thread: the manager
    as the caller finds it when the call returns, and the run id
    returned.  The thread then runs [_execute_run_sync], modelled by
    the functions below. *)
Definition start_run (run_id : string) (paths : list string)
    (use_notebook : nat) (m : Manager) : Manager * string :=
  let run :=
    {| runId := run_id; status := "queued"; agents := _initialize_agents;
       coverage := None; files := []; artifacts := ∅; errors := [] |} in
  ({| active_runs := <[run_id := run]> (active_runs m);
      completed_runs := completed_runs m;
      run_tasks := run_tasks m;
      event_queues := <[run_id := []]> (event_queues m) |},
   run_id).

Definition set_run (run_id : string) (run : Run) (m : Manager) : Manager :=
  {| active_runs := <[run_id := run]> (active_runs m);
     completed_runs := completed_runs m;
     run_tasks := run_tasks m;
     event_queues := event_queues m |}.

(** [_add_event_to_queue] *)
Definition _add_event_to_queue (run_id : string) (item : QueueItem)
    (m : Manager) : Manager :=
  match event_queues m !! run_id with
  | Some q =>
      {| active_runs := active_runs m;
         completed_runs := completed_runs m;
         run_tasks := run_tasks m;
         event_queues := <[run_id := q ++ [item]]> (event_queues m) |}
  | None => m
  end.

(** The loop [for agent in run.agents] of [_process_agent_event]: the
    first agent with the key takes the state and the message. *)
Fixpoint update_agent (l : list AgentState) (agent_key agent_state : string)
    (agent_message : string) : list AgentState :=
  match l with
  | [] => []
  | agent :: l' =>
      if bool_decide (key agent = agent_key)
      then {| key := key agent; label := label agent;
              state := agent_state; message := Some agent_message |} :: l'
      else agent :: update_agent l' agent_key agent_state agent_message
  end.

Definition with_agents (run : Run) (l : list AgentState) : Run :=
  {| runId := runId run; status := status run; agents := l;
     coverage := coverage run; files := files run;
     artifacts := artifacts run; errors := errors run |}.

Definition with_coverage (run : Run) (c : Coverage) : Run :=
  {| runId := runId run; status := status run; agents := agents run;
     coverage := Some c; files := files run;
     artifacts := artifacts run; errors := errors run |}.

Definition with_artifact (run : Run) (k a : string) : Run :=
  {| runId := runId run; status := status run; agents := agents run;
     coverage := coverage run; files := files run;
     artifacts := <[k := a]> (artifacts run); errors := errors run |}.

Definition with_status (run : Run) (s : string) (errs : list string) : Run :=
  {| runId := runId run; status := s; agents := agents run;
     coverage := coverage run; files := files run;
     artifacts := artifacts run; errors := errs |}.

(** [_process_agent_event] on the run object: the run it leaves, and
    whether a validation error was raised on the way (the run is
    mutated in place, so what was assigned before the error stays). *)
Definition process_event_on (run : Run) (event : Event) : Run * bool :=
  let run :=
    match ev_agent event, ev_state event with
    | Some agent_key, Some agent_state =>
        with_agents run
          (update_agent (agents run) agent_key agent_state
             (get (ev_message event) EmptyString))
    | _, _ => run
    end in
  let after_coverage :=
    match ev_coverage event with
    | Some (CovDict d) =>
        match Coverage_of d with
        | Some c => (with_coverage run c, false)
        | None => (run, true)
        end
    | _ => (run, false)
    end in
  match after_coverage with
  | (run, true) => (run, true)
  | (run, false) =>
      match ev_artifact event with
      | Some a => (with_artifact run (get (ev_agent event) "unknown") a, false)
      | None => (run, false)
      end
  end.

Definition _process_agent_event (run_id : string) (event : Event)
    (m : Manager) : Manager * bool :=
  match active_runs m !! run_id with
  | None => (m, false)
  | Some run =>
      let '(run', raised) := process_event_on run event in
      (set_run run_id run' m, raised)
  end.

(** [_handle_run_failure_sync] *)
Definition _handle_run_failure_sync (run_id error_message : string)
    (m : Manager) : Manager :=
  match active_runs m !! run_id with
  | Some run =>
      _add_event_to_queue run_id (run_error error_message)
        (set_run run_id
           (with_status run "failed"
              (errors run ++ ["Run failed: " +:+ error_message]))
           m)
  | None => m
  end.

(** The first block of [_execute_run_sync]. *)
Definition mark_running (run_id : string) (m : Manager) : Manager :=
  match active_runs m !! run_id with
  | Some run =>
      _add_event_to_queue run_id
        (status_update "running" "Starting QA analysis...")
        (set_run run_id (with_status run "running" (errors run)) m)
  | None => m
  end.

(** The block after the loop over the events. *)
Definition mark_completed (run_id : string) (m : Manager) : Manager :=
  match active_runs m !! run_id with
  | Some run =>
      _add_event_to_queue run_id (run_complete run_id)
        (set_run run_id (with_status run "completed" (errors run)) m)
  | None => m
  end.

(** The [finally] block. *)
Definition retire (run_id : string) (m : Manager) : Manager :=
  let m :=
    match active_runs m !! run_id with
    | Some run =>
        {| active_runs := delete run_id (active_runs m);
           completed_runs := <[run_id := run]> (completed_runs m);
           run_tasks := run_tasks m;
           event_queues := event_queues m |}
    | None => m
    end in
  _add_event_to_queue run_id stream_end m.

(** [cancel_run] *)
Definition cancel_run (run_id : string) (m : Manager) : Manager * bool :=
  match run_tasks m !! run_id with
  | Some task =>
      let m :=
        {| active_runs := active_runs m;
           completed_runs := completed_runs m;
           run_tasks := <[run_id := {| cancelled := true |}]> (run_tasks m);
           event_queues := event_queues m |} in
      match active_runs m !! run_id with
      | Some run =>
          (set_run run_id
             (with_status run "failed"
                (errors run ++ ["Run cancelled by user"]))
             m,
           true)
      | None => (m, true)
      end
  | None => (m, false)
  end.

(** [get_run_status] *)
Definition get_run_status (run_id : string) (m : Manager) : option string :=
  match active_runs m !! run_id with
  | Some run => Some (status run)
  | None =>
      match completed_runs m !! run_id with
      | Some run => Some (status run)
      | None => None
      end
  end.

(** What the manager can do to its registries: the calls of the API and
    the steps of the background thread of a run. *)
Inductive step : Manager -> Manager -> Prop :=
| step_start run_id paths nb m :
    step m (fst (start_run run_id paths nb m))
| step_running run_id m : step m (mark_running run_id m)
| step_event run_id event m :
    step m (fst (_process_agent_event run_id event m))
| step_queue run_id item m : step m (_add_event_to_queue run_id item m)
| step_completed run_id m : step m (mark_completed run_id m)
| step_failure run_id e m : step m (_handle_run_failure_sync run_id e m)
| step_retire run_id m : step m (retire run_id m)
| step_cancel run_id m : step m (fst (cancel_run run_id m)).

Inductive reachable : Manager -> Prop :=
| reach_init : reachable init
| reach_step m m' : reachable m -> step m m' -> reachable m'.

End Manager.

End RunManager.

(* ===================================================================== *)
(** ** [EnhancedGherkinGenerator] (agent_service.py) *)
(* ===================================================================== *)

Module EnhancedGherkinGenerator.

Definition NL : string := String Py.LF EmptyString.
Definition DQ : string := String Py.DQUOTE EmptyString.

Definition feature_header (name : string) : string :=
  "Feature: " +:+ name +:+ " Functionality" +:+ NL
  +:+ "As a user of the application" +:+ NL
  +:+ "I want to interact with the " +:+ Py.lower name +:+ NL
  +:+ "So that I can achieve my testing goals" +:+ NL.

Definition background (primary : string) : string :=
  NL +:+ "Background:" +:+ NL
  +:+ "  Given I open the application at " +:+ DQ +:+ primary +:+ DQ +:+ NL
  +:+ "  And the page loads successfully" +:+ NL.

Definition scenario_header : string :=
  NL +:+ "Scenario: Application functionality test" +:+ NL.

(** The body of [for step in parsed_steps]. *)
Definition append_step (feature_content : string) (step : Step) : string :=
  let step_type := get (type step) EmptyString in
  if bool_decide (step_type = "navigation")
  then feature_content
       +:+ ("  When I navigate to " +:+ DQ +:+ get (url step) EmptyString
            +:+ DQ +:+ NL)
  else if bool_decide (step_type = "click")
  then feature_content
       +:+ ("  When I click on the element " +:+ DQ
            +:+ get (selector step) EmptyString +:+ DQ +:+ NL)
  else if bool_decide (step_type = "input")
  then feature_content
       +:+ ("  When I enter " +:+ DQ +:+ get (value step) EmptyString +:+ DQ
            +:+ " in " +:+ DQ +:+ get (selector step) EmptyString +:+ DQ
            +:+ NL)
  else if Py.startswith step_type "assert_"
  then feature_content
       +:+ ("  Then the element " +:+ DQ +:+ get (selector step) EmptyString
            +:+ DQ +:+ " should be validated" +:+ NL)
  else feature_content.

Definition generate_gherkin_feature (analysis : Analysis) : string :=
  let feature_content := feature_header (filename analysis) in
  let feature_content :=
    match primary_url analysis with
    | Some primary =>
        if Py.truthy primary then feature_content +:+ background primary
        else feature_content
    | None => feature_content
    end in
  let feature_content := feature_content +:+ scenario_header in
  fold_left append_step (parsed_steps analysis) feature_content.

End EnhancedGherkinGenerator.

(* ===================================================================== *)
(** ** [ConnectionManager] (agent_service.py) *)
(* ===================================================================== *)

Module ConnectionManager.

(** A [WebSocket] object, known by its identity. *)
Definition WebSocket := nat.

Record Manager := {
  active_connections : list WebSocket;
  run_connections : gmap string (list WebSocket)
}.

Definition init : Manager :=
  {| active_connections := []; run_connections := ∅ |}.

(** [l.remove(x)] for an [x] that is in [l]: the first occurrence goes. *)
Fixpoint remove_first (x : WebSocket) (l : list WebSocket) : list WebSocket :=
  match l with
  | [] => []
  | y :: l' => if bool_decide (y = x) then l' else y :: remove_first x l'
  end.

(** Truthiness of the argument [run_id: str = None]. *)
Definition given (run_id : option string) : option string :=
  match run_id with
  | Some r => if Py.truthy r then Some r else None
  | None => None
  end.

Definition connect (websocket : WebSocket) (run_id : option string)
    (m : Manager) : Manager :=
  let active := active_connections m ++ [websocket] in
  match given run_id with
  | Some r =>
      let current :=
        match run_connections m !! r with
        | Some l => l
        | None => []
        end in
      {| active_connections := active;
         run_connections := <[r := current ++ [websocket]]> (run_connections m) |}
  | None =>
      {| active_connections := active; run_connections := run_connections m |}
  end.

Definition disconnect (websocket : WebSocket) (run_id : option string)
    (m : Manager) : Manager :=
  let active :=
    if bool_decide (websocket ∈ active_connections m)
    then remove_first websocket (active_connections m)
    else active_connections m in
  match given run_id with
  | Some r =>
      match run_connections m !! r with
      | Some l =>
          {| active_connections := active;
             run_connections :=
               if bool_decide (websocket ∈ l)
               then <[r := remove_first websocket l]> (run_connections m)
               else run_connections m |}
      | None =>
          {| active_connections := active;
             run_connections := run_connections m |}
      end
  | None =>
      {| active_connections := active; run_connections := run_connections m |}
  end.

Section Broadcast.

(** Whether [send_text] raises on a socket (a socket that was closed). *)
Variable send_fails : WebSocket -> bool.

(** The first loop of [broadcast_to_run]: the sockets that took the
    message, and the list [disconnected]. *)
Fixpoint send_all (connections : list WebSocket)
  : list WebSocket * list WebSocket :=
  match connections with
  | [] => ([], [])
  | connection :: rest =>
      let '(sent, disconnected) := send_all rest in
      if send_fails connection then (sent, connection :: disconnected)
      else (connection :: sent, disconnected)
  end.

(** [broadcast_to_run], run without another coroutine changing the
    registry in between: the sockets that took the message, in order, and
    the manager after the clean up. *)
Definition broadcast_to_run (run_id : string) (m : Manager)
  : list WebSocket * Manager :=
  match run_connections m !! run_id with
  | Some connections =>
      let '(sent, disconnected) := send_all connections in
      (sent,
       fold_left (fun m conn => disconnect conn (Some run_id) m)
                 disconnected m)
  | None => ([], m)
  end.

End Broadcast.

End ConnectionManager.

(* ===================================================================== *)
(** ** The numbers of [execution_agent] and [coverage_agent]
       (agent_service.py) *)
(* ===================================================================== *)

Module SimulatedResults.

Local Open Scope Z_scope.

(** [len(parsed_steps) or 3] *)
Definition tests_run (steps : nat) : Z :=
  if Nat.eqb steps 0 then 3 else Z.of_nat steps.

(** [max(1, tests_run - random.randint(0, 1))], [draw] being the number
    drawn. *)
Definition tests_passed (steps : nat) (draw : Z) : Z :=
  Z.max 1 (tests_run steps - draw).

Definition tests_failed (steps : nat) (draw : Z) : Z :=
  tests_run steps - tests_passed steps draw.

Definition execution_status (steps : nat) (draw : Z) : string :=
  if tests_failed steps draw =? 0 then "passed" else "warning".

(** [max(60, min(95, 70 + (complexity * 2)))] *)
Definition base_coverage (complexity : Z) : Z :=
  Z.max 60 (Z.min 95 (70 + complexity * 2)).

End SimulatedResults.

(* ===================================================================== *)
(** ** [Notebook24Adapter.run_agents] and [_generate_file_statuses] *)
(* ===================================================================== *)

Module RunAgents.
Import RunManager.

(** The loop of [_generate_file_statuses] from the index [i] on. *)
Fixpoint file_statuses_from (i : nat) (selected_paths : list string)
  : list FileStatus :=
  match selected_paths with
  | [] => []
  | p :: rest =>
      {| path := p;
         file_status :=
           if Nat.eqb (i mod 10) 0 then "error"
           else if Nat.eqb (i mod 5) 0 then "warn"
           else "passed" |}
        :: file_statuses_from (S i) rest
  end.

Definition _generate_file_statuses (selected_paths : list string)
  : list FileStatus :=
  file_statuses_from 0 selected_paths.

Section Generator.

Context {CoverageDict Other : Type}.

(** What [_execute_notebook_24] does: it returns the path of the executed
    notebook or raises. *)
Inductive notebook_outcome :=
| Executed (executed_path : string)
| NotebookRaises (msg : string).

Variable notebook : notebook_outcome.

(** [_generate_mock_artifact agent_key agent_label paths]; the text holds
    the time of the call. *)
Variable mock_artifact : string -> string -> string.

(** The dict [fake_coverage]. *)
Variable fake_coverage : CoverageDict.

Definition event (agent_key agent_state msg : string)
    (cov : option (@coverage_value CoverageDict Other))
    (art : option string) : @Event CoverageDict Other :=
  {| ev_agent := Some agent_key; ev_state := Some agent_state;
     ev_message := Some msg; ev_coverage := cov; ev_artifact := art |}.

Definition notebook_events : list (@Event CoverageDict Other) :=
  event "notebook" "running" "Executing notebook_24.ipynb..." None None
  :: match notebook with
     | Executed executed_path =>
         [event "notebook" "success" "Notebook 24 executed" None
            (Some ("Executed notebook saved to " +:+ executed_path))]
     | NotebookRaises e =>
         [event "notebook" "warn"
            ("Notebook 24 execution skipped: " +:+ e) None None]
     end.

Definition agent_events (agent_info : string * string)
  : list (@Event CoverageDict Other) :=
  let agent_key := fst agent_info in
  let agent_label := snd agent_info in
  [ event agent_key "running" ("Running " +:+ agent_label +:+ "...")
      None None;
    event agent_key "success" (agent_label +:+ " completed successfully")
      None (Some (mock_artifact agent_key agent_label)) ].

Definition final_event : @Event CoverageDict Other :=
  event "final" "completed" "All agents completed successfully"
    (Some (CovDict fake_coverage)) None.

(** The events that [run_agents] yields when the files it writes can be
    written, in order. *)
Definition run_agents (use_notebook : nat) : list (@Event CoverageDict Other) :=
  (if Nat.eqb use_notebook 24 then notebook_events else [])
  ++ flat_map agent_events AGENTS
  ++ [final_event].

End Generator.

End RunAgents.

(* ===================================================================== *)
(** ** [RunManager._execute_run_sync], [event_stream], [is_run_active] *)
(* ===================================================================== *)

Module RunThread.
Import RunManager.

Section Thread.

Context {CoverageDict Coverage Other : Type}.
Variable Coverage_of : CoverageDict -> option Coverage.

(** [str(e)] of the validation error of an event. *)
Variable validation_text : @Event CoverageDict Other -> string.

#[local] Abbreviation Manager :=
  (@RunManager.Manager CoverageDict Coverage Other).

(** How the generator [run_agents] ends after its last event. *)
Inductive generator_end :=
| Exhausted
| GeneratorRaises (msg : string).

(** The loop [for event in run_agents(...)]: the manager when the loop
    is left, and the exception that left it, if any. *)
Fixpoint event_loop (run_id : string) (events : list (@Event CoverageDict Other))
    (m : Manager) : Manager * option string :=
  match events with
  | [] => (m, None)
  | event :: rest =>
      match _process_agent_event Coverage_of run_id event m with
      | (m', true) => (m', Some (validation_text event))
      | (m', false) =>
          event_loop run_id rest
            (_add_event_to_queue run_id (agent_event event) m')
      end
  end.

(** [_execute_run_sync] on the events that the generator yields. *)
Definition _execute_run_sync (run_id : string)
    (events : list (@Event CoverageDict Other)) (ending : generator_end)
    (m : Manager) : Manager :=
  let m := mark_running run_id m in
  let m :=
    match event_loop run_id events m with
    | (m', Some e) => _handle_run_failure_sync run_id e m'
    | (m', None) =>
        match ending with
        | GeneratorRaises e => _handle_run_failure_sync run_id e m'
        | Exhausted => mark_completed run_id m'
        end
    end in
  retire run_id m.

(** [is_run_active] *)
Definition is_run_active (run_id : string) (m : Manager) : bool :=
  bool_decide (is_Some (active_runs m !! run_id))
  && bool_decide (is_Some (run_tasks m !! run_id)).

(** What a subscriber is sent. *)
Inductive Sse :=
| sse_error (text : string)
| sse_connected (run : string)
| sse_item (item : @QueueItem CoverageDict Other)
| sse_heartbeat
| sse_stream_end.

(** The loop of [event_stream] on the items that the queue holds: what
    is yielded, and whether the end of the stream was met. *)
Fixpoint drain (q : list (@QueueItem CoverageDict Other)) : list Sse * bool :=
  match q with
  | [] => ([], false)
  | stream_end :: _ => ([sse_stream_end], true)
  | item :: q' =>
      let '(yields, ended) := drain q' in (sse_item item :: yields, ended)
  end.

(** A subscription is over, or it waits for the thread of the run. *)
Inductive subscription :=
| Closed (yields : list Sse) (m : Manager)
| Waiting (yields : list Sse).

Definition drop_queue (run_id : string) (m : Manager) : Manager :=
  {| active_runs := active_runs m; completed_runs := completed_runs m;
     run_tasks := run_tasks m;
     event_queues := delete run_id (event_queues m) |}.

(** [event_stream] on the queue as it stands, no item being added while
    it runs: the items are yielded up to the end of the stream; on an
    empty queue a heartbeat is yielded, after which the stream closes if
    the run is neither active nor a task, and waits otherwise. *)
Definition event_stream (run_id : string) (m : Manager) : subscription :=
  match event_queues m !! run_id with
  | None => Closed [sse_error "Run not found"] m
  | Some q =>
      let '(yields, ended) := drain q in
      if ended
      then Closed (sse_connected run_id :: yields) (drop_queue run_id m)
      else if bool_decide (active_runs m !! run_id = None)
              && bool_decide (run_tasks m !! run_id = None)
      then Closed (sse_connected run_id :: yields ++ [sse_heartbeat])
                  (drop_queue run_id m)
      else Waiting (sse_connected run_id :: yields ++ [sse_heartbeat])
  end.

(** [_load_run_state]: the run that the state file of a run holds, when
    the file exists and can be read. *)
Variable _load_run_state : string -> option (@Run Coverage).

(** [get_run]: a run found on disk only is cached among the completed
    runs. *)
Definition get_run (run_id : string) (m : Manager)
  : Manager * option (@Run Coverage) :=
  match active_runs m !! run_id with
  | Some run => (m, Some run)
  | None =>
      match completed_runs m !! run_id with
      | Some run => (m, Some run)
      | None =>
          match _load_run_state run_id with
          | Some run =>
              ({| active_runs := active_runs m;
                  completed_runs := <[run_id := run]> (completed_runs m);
                  run_tasks := run_tasks m;
                  event_queues := event_queues m |},
               Some run)
          | None => (m, None)
          end
      end
  end.

(** What the manager can do to its registries, with the end of a
    subscription and the lookup of a run. *)
Inductive step : Manager -> Manager -> Prop :=
| step_manager m m' : RunManager.step Coverage_of m m' -> step m m'
| step_stream run_id yields m m' :
    event_stream run_id m = Closed yields m' -> step m m'
| step_get_run run_id m : step m (fst (get_run run_id m)).

Inductive reachable : Manager -> Prop :=
| reach_init : reachable init
| reach_step m m' : reachable m -> step m m' -> reachable m'.

End Thread.

End RunThread.

(* ===================================================================== *)
(** ** The endpoints of the runs (main.py) *)
(* ===================================================================== *)

Module Main.

(** What an endpoint does: it returns a body or raises [HTTPException]. *)
Inductive response (A : Type) :=
| Ok (body : A)
| HTTPException (status_code : nat) (detail : string).

Arguments Ok {A} body.
Arguments HTTPException {A} status_code detail.

Section Endpoints.

Context {CoverageDict Coverage Other : Type}.

(** [str(e)] of an [HTTPException]. *)
Variable exception_text : nat -> string -> string.

(** [try: body except Exception as e: raise HTTPException(500, prefix + str(e))];
    [HTTPException] is an [Exception]. *)
Definition wrap_errors {A : Type} (prefix : string) (body : response A)
  : response A :=
  match body with
  | Ok a => Ok a
  | HTTPException status_code detail =>
      HTTPException 500 (prefix +:+ exception_text status_code detail)
  end.

(** [DELETE /run/{run_id}] *)
Definition cancel_run (run_id : string)
    (m : @RunManager.Manager CoverageDict Coverage Other)
  : @RunManager.Manager CoverageDict Coverage Other * response string :=
  let '(m', success) := RunManager.cancel_run run_id m in
  (m',
   wrap_errors "Failed to cancel run: "
     (if negb success
      then HTTPException 404 "Run not found or not cancellable"
      else Ok "Run cancelled successfully")).

(** [GET /api/run/{run_id}]; the body is the run. *)
Definition get_run_details (_load_run_state : string -> option (@RunManager.Run Coverage))
    (run_id : string)
    (m : @RunManager.Manager CoverageDict Coverage Other)
  : @RunManager.Manager CoverageDict Coverage Other
    * response (@RunManager.Run Coverage) :=
  let '(m', run) := RunThread.get_run _load_run_state run_id m in
  (m',
   wrap_errors "Failed to get run: "
     (match run with
      | None => HTTPException 404 "Run not found"
      | Some r => Ok r
      end)).

(** [POST /api/run]; [run_id] is what [generate_run_id] returns. *)
Definition start_analysis_run (run_id : string) (paths : list string)
    (use_notebook : nat)
    (m : @RunManager.Manager CoverageDict Coverage Other)
  : @RunManager.Manager CoverageDict Coverage Other * response string :=
  match paths with
  | [] =>
      (m,
       wrap_errors "Failed to start run: "
         (HTTPException 400 "At least one file path must be provided"))
  | _ :: _ =>
      let '(m', returned_run_id) :=
        RunManager.start_run run_id paths use_notebook m in
      (m', wrap_errors "Failed to start run: " (Ok returned_run_id))
  end.

End Endpoints.

End Main.

(* ===================================================================== *)
(** ** The properties, in the words of the specification *)
(* ===================================================================== *)

Module Spec.
Import EnhancedCodeAnalyzer.

(** The table of weights of the complexity score. *)
Definition kind_weight (kind : string) : nat :=
  if bool_decide (kind = "navigation") then 1
  else if bool_decide (kind = "click") then 2
  else if bool_decide (kind = "input") then 3
  else if Py.startswith kind "assert_" then 2
  else 0.

Definition step_weight (step : Step) : nat :=
  kind_weight (get (type step) EmptyString).

(** The sum of the weights of the steps. *)
Definition weighted_sum (steps : list Step) : nat :=
  foldr (fun step total => step_weight step + total) 0 steps.

(** The kinds of step that the parser can emit, and the kinds of the
    dispatch table that it cannot. *)
Definition parser_kinds : list string :=
  ["navigation"; "click"; "input"; "assert_url"; "assert_value"].

Definition unparsed_kinds : list string :=
  ["assert_css"; "assertion"; "wait"].

(** The kind under which the generator looks a step up. *)
Definition dispatch_kind (step : Step) : string := get (type step) "unknown".

(** A step of one of the kinds of the parser. *)
Definition parser_kind (step : Step) : Prop :=
  (dispatch_kind step ∈ parser_kinds)
  /\ (dispatch_kind step ∉ unparsed_kinds)
  /\ type step = Some (dispatch_kind step).

(** The line that the generated test holds for a step rendered by
    [rule]. *)
Definition test_line (rule : Step -> string) (step : Step) : string :=
  "    " +:+ rule step +:+ DynamicPlaywrightGenerator.NL.

(** What a step adds to the test body: the line of its rule, or nothing
    when its kind has no rule. *)
Definition step_lines (step : Step) : string :=
  match DynamicPlaywrightGenerator.lookup_rule
          DynamicPlaywrightGenerator.playwright_mappings
          (dispatch_kind step) with
  | Some rule => test_line rule step
  | None => EmptyString
  end.

(** The test body of a list of steps: their lines, in order. *)
Definition test_body (steps : list Step) : string :=
  foldr (fun step rest => step_lines step +:+ rest) EmptyString steps.

(** The text of the generated test before the test body. *)
Definition test_prelude (analysis : Analysis) : string :=
  DynamicPlaywrightGenerator.suite_header (normalized_filename analysis)
  +:+ match primary_url analysis with
      | Some primary =>
          if Py.truthy primary
          then DynamicPlaywrightGenerator.before_each primary
          else EmptyString
      | None => EmptyString
      end
  +:+ DynamicPlaywrightGenerator.test_header.

(** The rules that the steps of the parser can reach. *)
Definition parser_rules : list (option (Step -> string)) :=
  [ Some DynamicPlaywrightGenerator._generate_navigation_step;
    Some DynamicPlaywrightGenerator._generate_click_step;
    Some DynamicPlaywrightGenerator._generate_input_step;
    Some DynamicPlaywrightGenerator._generate_url_assertion_step;
    Some DynamicPlaywrightGenerator._generate_value_assertion_step ].

Definition example_navigation : Step :=
  navigation_step "cy.visit" "https://example.com/login" 1
    "cy.visit('https://example.com/login')".

(** *** The characters of a normalized file name *)

(** The characters [A-Za-z0-9_-]. *)
Definition safe_char (c : ascii) : bool :=
  Py.ascii_alnum c || Ascii.eqb c "_"%char || Ascii.eqb c "-"%char.

(** The characters that the substitution keeps: the word characters and
    the dash. *)
Definition kept_char (c : ascii) : bool :=
  is_word c || Ascii.eqb c "-"%char.

(** A word character outside ASCII: a letter or a digit of Latin-1. *)
Definition foreign_word (c : ascii) : bool :=
  is_word c && negb (Py.is_ascii c).

(** U+00E9, e with acute accent. *)
Definition e_acute : ascii := ascii_of_nat 233.

Definition cafe_js : string := "caf" +:+ String e_acute ".js".

(** *** The list of URLs *)

(** The text begins with [http://] or [https://]. *)
Definition starts_http (u : string) : bool :=
  Py.startswith u "http://" || Py.startswith u "https://".

(** The text begins as a URL and has no quote at either end. *)
Definition clean_url (u : string) : Prop :=
  starts_http u = true /\ Py.strip_quotes u = u.

(** The list without repeats: every element stays at the place of its
    first occurrence and its later occurrences are dropped. *)
Fixpoint first_seen (l : list string) : list string :=
  match l with
  | [] => []
  | x :: l' => x :: filter (fun y => y <> x) (first_seen l')
  end.

Definition example_urls : string :=
  "driver.get('https://b.example'); cy.visit('https://a.example'); "
  +:+ "const u = 'https://a.example';".

(** *** The step parser as an ordered list of rules *)

(** A rule looks at a stripped line and its number; it either does not
    apply, or gives the steps of the line. *)
Definition rule := nat -> string -> option (list Step).

Definition chain_rule : rule := fun n line =>
  match Re.search chain_pattern line with
  | Some m =>
      Some [input_step (Re.group 1 m) (Re.group 2 m) n line;
            assert_value_step (Re.group 1 m) (Re.group 3 m) n line]
  | None => None
  end.

Definition url_assert_rule : rule := fun n line =>
  match Re.search url_assert_pattern line with
  | Some m => Some [assert_url_step (Re.group 1 m) n line]
  | None => None
  end.

Definition navigation_rule : rule := fun n line =>
  match Re.search nav_pattern line with
  | Some m => Some [navigation_step (Re.group 1 m) (Re.group 2 m) n line]
  | None => None
  end.

Definition click_rule : rule := fun n line =>
  match Re.search click_pattern line with
  | Some m => Some [click_step (Re.group 1 m) n line]
  | None => None
  end.

(** The plain type rule applies only to a line without [.should(]. *)
Definition type_rule : rule := fun n line =>
  if Py.contains ".should(" line then None
  else
    match Re.search type_pattern line with
    | Some m => Some [input_step (Re.group 1 m) (Re.group 2 m) n line]
    | None => None
    end.

(** The rules in their order of priority. *)
Definition rules : list rule :=
  [chain_rule; url_assert_rule; navigation_rule; click_rule; type_rule].

(** The first rule that applies gives the steps of the line. *)
Fixpoint first_match (rs : list rule) (n : nat) (line : string) : list Step :=
  match rs with
  | [] => []
  | r :: rs' =>
      match r n line with
      | Some steps => steps
      | None => first_match rs' n line
      end
  end.

Definition is_blank (line : string) : bool :=
  bool_decide (line = EmptyString).

Definition is_comment (line : string) : bool :=
  Py.startswith line "//" || Py.startswith line "*".

(** The steps of the line [raw] numbered [n]. *)
Definition parse_line (n : nat) (raw : string) : list Step :=
  let line := Py.strip raw in
  if is_blank line || is_comment line then []
  else first_match rules n line.

(** The steps of a text: those of its lines, in order. *)
Definition parse_lines (code : string) : list Step :=
  flat_map (fun '(n, raw) => parse_line n raw)
           (Py.enumerate 1 (Py.split Py.LF code)).

Definition example3 : string :=
  "cy.get('#name').type('Alice').should('have.value', 'Alice');".

(** A line on which both the chain rule and the click rule apply, and a
    line on which only the type pattern matches, next to [.should(]. *)
Definition chain_then_click : string :=
  "cy.get('#a').type('x').should('have.value', 'x').click();".

Definition type_then_should : string :=
  "cy.get('#a').type('x').should('be.visible');".

(** *** Two calls of the analyzer *)

(** The analysis with its time stamp replaced. *)
Definition with_timestamp (t : string) (a : Analysis) : Analysis :=
  {| filename := filename a;
     normalized_filename := normalized_filename a;
     language_detected := language_detected a;
     frameworks_detected := frameworks_detected a;
     real_urls := real_urls a;
     primary_url := primary_url a;
     parsed_steps := parsed_steps a;
     code_length := code_length a;
     lines_count := lines_count a;
     complexity_score := complexity_score a;
     analysis_timestamp := t;
     quality_metrics := quality_metrics a |}.

(** A clock that shows a later microsecond at every reading, in a
    process whose sets keep the order of insertion. *)
Definition ticking_world : World :=
  {| clock := fun n =>
       match n with
       | 0 => "2026-01-01T09:00:00.000001"
       | _ => "2026-01-01T09:00:00.000002"
       end;
     reads := 0;
     set_order := fun l => l |}.

Definition example1 : string := "cy.visit('https://example.com/login')".

(** The analysis of example 1. *)
Definition example_analysis : Analysis :=
  fst (analyze_code example1 "login.cy.js" ticking_world).

End Spec.

(** The words of the specification on the workflows. *)
Module WorkflowSpec.

Section ProcessWorkflow.
Import AgentService.
Context {Payload Data : Type}.
Variable try_block :
  string -> @TestAutomationState Payload -> Payload * @ending Data.

(** The state that the agent of a row leaves. *)
Definition agent_state (row : AgentRow) (state : TestAutomationState)
  : TestAutomationState :=
  match agent try_block row state [] with
  | Returned state' _ => state'
  | Escaped state' _ _ => state'
  end.

(** The messages that the agent of a row sends. *)
Definition agent_messages (row : AgentRow) (state : TestAutomationState)
  : list Message :=
  match agent try_block row state [] with
  | Returned _ sent => sent
  | Escaped _ sent _ => sent
  end.

(** The state after the stages of [rows], run in order. *)
Definition after_stages (rows : list AgentRow)
    (state : TestAutomationState) : TestAutomationState :=
  fold_left (fun st row => agent_state row st) rows state.

(** The messages of the stages of [rows], the first of which has the
    position [index]. *)
Fixpoint stage_messages (total index : nat) (rows : list AgentRow)
    (state : TestAutomationState) : list Message :=
  match rows with
  | [] => []
  | row :: rows' =>
      workflow_progress (agent_name row) index total
        :: agent_messages row state
        ++ stage_messages total (S index) rows' (agent_state row state)
  end.

(** The stages that a log announces, in order. *)
Definition announced (sent : list (@Message Data)) : list string :=
  omap (fun m =>
          match m with
          | workflow_progress name _ _ => Some name
          | _ => None
          end) sent.

End ProcessWorkflow.

(** A workflow whose gherkin stage always raises. *)
Definition failing_gherkin (name : string)
    (state : @AgentService.TestAutomationState unit)
  : unit * @AgentService.ending unit :=
  if bool_decide (name = "gherkin") then (tt, AgentService.Raises "boom")
  else (tt, AgentService.Succeeds "done" tt).

Definition fresh_state : @AgentService.TestAutomationState unit :=
  {| AgentService.run_id := "run-1"; AgentService.errors := [];
     AgentService.payload := tt |}.

(** The stage functions of a workflow that succeeds everywhere, with the
    gherkin one replaced by a function that lets an exception escape. *)
Definition always_done (name : string)
    (state : @AgentService.TestAutomationState unit)
  : unit * @AgentService.ending unit :=
  (tt, AgentService.Succeeds "done" tt).

Definition raising_stage : @AgentService.stage unit unit :=
  fun state sent => AgentService.Escaped state sent "boom".

Definition replaced_stages : list (string * @AgentService.stage unit unit) :=
  map (fun named =>
         if bool_decide (fst named = "gherkin")
         then (fst named, raising_stage) else named)
      (AgentService.stage_functions always_done).

Section AnalyzeCode.
Import Notebook24Adapter.
Context {Dict Coverage FileStatus : Type}.

(** The keys of the stages that the updates report as running. *)
Definition running_keys
    (updates : list (@Update Dict Coverage FileStatus)) : list string :=
  omap (fun u =>
          match upd_agents u with
          | [e] =>
              if bool_decide (state e = "running") then Some (key e)
              else None
          | _ => None
          end) updates.

(** The update that reports the failure [e] of a stage. *)
Definition error_update (agent_key agent_label e : string)
  : @Update Dict Coverage FileStatus :=
  agent_update
    {| key := agent_key; label := agent_label; state := "error";
       message := "Error in " +:+ Py.lower agent_label +:+ ": " +:+ e |}
    [] [agent_label +:+ ": " +:+ e].

End AnalyzeCode.

(** Stage functions of which the gherkin one always raises. *)
Definition gherkin_raises (agent_key : string)
  : @Notebook24Adapter.stage_call unit unit :=
  if bool_decide (agent_key = "gherkin") then Notebook24Adapter.Raises "boom"
  else Notebook24Adapter.Returns (Notebook24Adapter.RStr "report").

End WorkflowSpec.

(** The words of the specification on the run manager. *)
Module RunSpec.
Import RunManager.

Section Frame.
Context {CoverageDict Coverage Other : Type}.
Variable Coverage_of : CoverageDict -> option Coverage.

#[local] Abbreviation Run := (@RunManager.Run Coverage).
#[local] Abbreviation Event := (@RunManager.Event CoverageDict Other).

(** The agents are as before, or one agent, the first whose key is the
    agent field of the event, has taken the state and the message of the
    event and nothing else has changed. *)
Definition agents_frame (event : Event) (old new : list AgentState) : Prop :=
  new = old
  \/ exists (before after : list AgentState) (a : AgentState)
            (agent_state : string),
       ev_agent event = Some (key a)
       /\ ev_state event = Some agent_state
       /\ Forall (fun b => key b <> key a) before
       /\ old = before ++ a :: after
       /\ new = before
                ++ {| key := key a; label := label a; state := agent_state;
                      message := Some (get (ev_message event) EmptyString) |}
                :: after.

(** The coverage is as before, or it is the model built from the dict
    that the event carries. *)
Definition coverage_frame (event : Event) (old new : option Coverage)
  : Prop :=
  new = old
  \/ exists (d : CoverageDict) (c : Coverage),
       ev_coverage event = Some (CovDict d)
       /\ Coverage_of d = Some c /\ new = Some c.

(** The artifacts are as before, or the artifact of the event was
    stored under [key]. *)
Definition artifacts_frame (event : Event) (k : string)
    (old new : gmap string string) : Prop :=
  new = old
  \/ exists a : string, ev_artifact event = Some a /\ new = <[k := a]> old.

(** What the processing of an event may change in a run; the
    artifact goes under the key [k]. *)
Definition run_frame (event : Event) (k : string) (old new : Run) : Prop :=
  runId new = runId old
  /\ status new = status old
  /\ errors new = errors old
  /\ files new = files old
  /\ agents_frame event (agents old) (agents new)
  /\ coverage_frame event (coverage old) (coverage new)
  /\ artifacts_frame event k (artifacts old) (artifacts new).

(** The key under which the code stores the artifact of an event. *)
Definition artifact_key (event : Event) : string :=
  get (ev_agent event) "unknown".

End Frame.

(** A manager on which [start_run] was called once. *)
Definition no_coverage (d : unit) : option unit := None.

Definition started : @Manager unit unit unit :=
  fst (start_run "run-1" ["src/app.js"] 24 init).

Definition running : @Manager unit unit unit :=
  mark_running "run-1" started.

(** An event that carries an artifact and names no agent. *)
Definition anonymous_artifact : @RunManager.Event unit unit :=
  {| ev_agent := None; ev_state := None; ev_message := None;
     ev_coverage := None; ev_artifact := Some "report" |}.

(** The success event of the gherkin agent. *)
Definition gherkin_success : @RunManager.Event unit unit :=
  {| ev_agent := Some "gherkin"; ev_state := Some "success";
     ev_message := Some "Gherkin Scenarios completed successfully";
     ev_coverage := None; ev_artifact := Some "# Gherkin Scenarios Report" |}.

End RunSpec.

(* ===================================================================== *)
(** ** Further properties: the words used to state them *)
(* ===================================================================== *)

Module ReSpec.
Import Re.

(** Every character of the text is in the class. *)
Definition all_in (cl : cclass) (g : string) : Prop :=
  Py.all_chars (in_class cl) g = true.

(** What the text of the group of an item must look like. *)
Definition group_shape (it : item) : list (string -> Prop) :=
  match it with
  | GroupStar cl => [all_in cl]
  | GroupPlus cl => [fun g => all_in cl g /\ g <> EmptyString]
  | GroupAlt alts => [fun g => g ∈ alts]
  | _ => []
  end.

(** The shapes of the groups of a pattern, from left to right. *)
Definition group_shapes (p : pattern) : list (string -> Prop) :=
  flat_map group_shape p.

(** The groups have the shapes, one for one. *)
Definition fits (shapes : list (string -> Prop)) (gs : list string) : Prop :=
  Forall2 (fun (P : string -> Prop) g => P g) shapes gs.

(** A continuation that gives groups of the shapes and leaves a suffix
    of what it reads. *)
Definition sound (shapes : list (string -> Prop)) (k : cont) : Prop :=
  forall (s : string) (gs : list string) (rest : string),
    k s = Some (gs, rest) ->
    fits shapes gs /\ exists pre : string, s = pre +:+ rest.

(** No quote character in the text. *)
Definition quote_free (g : string) : Prop :=
  Py.all_chars (fun c => negb (Py.is_quote c)) g = true.

End ReSpec.

Module MoreSpec.
Import Re ReSpec EnhancedCodeAnalyzer.

(** *** The URL patterns *)





(** *** The steps of the parser *)

(** The field that the kind of a step cannot do without: the url of a
    navigation, the expected value of a URL assertion, the selector of
    any other step. *)
Definition key_field (step : Step) : string :=
  let kind := Spec.dispatch_kind step in
  if bool_decide (kind = "navigation") then get (url step) EmptyString
  else if bool_decide (kind = "assert_url")
  then get (expected_value step) EmptyString
  else get (selector step) EmptyString.

(** The texts of the step hold no quote, and its key field is not
    empty. *)
Definition well_formed (step : Step) : Prop :=
  quote_free (get (selector step) EmptyString)
  /\ quote_free (get (value step) EmptyString)
  /\ quote_free (get (url step) EmptyString)
  /\ quote_free (get (expected_value step) EmptyString)
  /\ Py.truthy (key_field step) = true.

(** The step comes from the line [raw] numbered [n]. *)
Definition from_line (n : nat) (raw : string) (step : Step) : Prop :=
  line_number step = n /\ original_code step = Py.strip raw.

(** The step comes from a line of the text: its number is that of the
    line, counted from 1, and its original code is the line without the
    white space around it, which is neither blank nor a comment. *)
Definition from_text (code : string) (step : Step) : Prop :=
  exists raw : string,
    1 <= line_number step
    /\ Py.split Py.LF code !! (line_number step - 1) = Some raw
    /\ original_code step = Py.strip raw
    /\ skipped (original_code step) = false.

(** The steps are in the order of their lines. *)
Definition in_line_order (steps : list Step) : Prop :=
  StronglySorted (fun a b => line_number a <= line_number b) steps.

(** The step with its line number moved by [k]. *)
Definition shift (k : nat) (step : Step) : Step :=
  {| type := type step; action := action step; selector := selector step;
     value := value step; url := url step;
     assertion_type := assertion_type step;
     expected_value := expected_value step;
     css_property := css_property step;
     line_number := k + line_number step;
     original_code := original_code step |}.

(** A line of the generated test that is only a placeholder comment. *)
Definition is_placeholder (line : string) : bool :=
  Py.startswith line "  //".

(** The step is rendered by a rule of the table, as a line that is not a
    placeholder and that names the selector as the parser read it. *)
Definition rendered_in_full (step : Step) : Prop :=
  exists rule : Step -> string,
    DynamicPlaywrightGenerator.lookup_rule
      DynamicPlaywrightGenerator.playwright_mappings
      (Spec.dispatch_kind step) = Some rule
    /\ Spec.step_lines step = Spec.test_line rule step
    /\ is_placeholder (rule step) = false
    /\ DynamicPlaywrightGenerator._preserve_clean_selector
         (get (selector step) EmptyString)
       = get (selector step) EmptyString.

(** What the Gherkin generator adds for a step. *)
Definition gherkin_line (step : Step) : string :=
  EnhancedGherkinGenerator.append_step EmptyString step.

(** The lines of the scenario for a list of steps. *)
Definition scenario_body (steps : list Step) : string :=
  foldr (fun step rest => gherkin_line step +:+ rest) EmptyString steps.

(** The feature before the lines of the scenario. *)
Definition feature_prelude (analysis : Analysis) : string :=
  EnhancedGherkinGenerator.feature_header (filename analysis)
  +:+ match primary_url analysis with
      | Some primary =>
          if Py.truthy primary
          then EnhancedGherkinGenerator.background primary
          else EmptyString
      | None => EmptyString
      end
  +:+ EnhancedGherkinGenerator.scenario_header.

(** A line of a scenario: a step of the user or a check. *)
Definition is_scenario_line (line : string) : bool :=
  Py.startswith line "  When I " || Py.startswith line "  Then the element ".

(** *** The frameworks *)

(** The frameworks of the table with their scores for the text. *)
Definition scored (code : string) : list (string * nat) :=
  map (fun '(framework, patterns) =>
         (framework, framework_score patterns code))
      framework_patterns.

(** The score of a framework by its name; 0 for a name that the table
    does not hold. *)
Fixpoint score_in (l : list (string * nat)) (framework : string) : nat :=
  match l with
  | [] => 0
  | (f, score) :: l' =>
      if bool_decide (f = framework) then score else score_in l' framework
  end.

Definition score_of (code framework : string) : nat :=
  score_in (scored code) framework.

(** A keyword or an import of the framework occurs in the text. *)
Definition occurs (code : string) (patterns : FrameworkPattern) : Prop :=
  exists k : string,
    k ∈ keywords patterns ++ imports patterns /\ Py.contains k code = true.

(** The names of the languages. *)
Definition languages : list string :=
  ["javascript"; "typescript"; "vue"; "python"; "ruby"; "dart"; "kotlin";
   "swift"; "java"; "csharp"].

(** *** The file names *)

(** The file name holds only word characters and dashes. *)
Definition plain_name (filename : string) : Prop :=
  Py.all_chars Spec.kept_char filename = true.

(** Two scripts, one after the other, on separate lines. *)
Definition then_script (a b : string) : string :=
  a +:+ String Py.LF b.

End MoreSpec.

Module ConnectionSpec.
Import ConnectionManager.

(** The sockets of the list on which sending does not fail. *)
Definition alive (send_fails : WebSocket -> bool) (l : list WebSocket)
  : list WebSocket :=
  filter (fun c => send_fails c = false) l.

(** The sockets of the list on which sending fails. *)
Definition closed (send_fails : WebSocket -> bool) (l : list WebSocket)
  : list WebSocket :=
  filter (fun c => send_fails c = true) l.

(** The list of a run after the sockets of [disconnected] were
    disconnected from it one by one. *)
Definition cleaned (disconnected l : list WebSocket) : list WebSocket :=
  fold_left
    (fun acc conn =>
       if bool_decide (conn ∈ acc) then remove_first conn acc else acc)
    disconnected l.

(** The sockets registered for a run; none for a run that is unknown. *)
Definition sockets_of (run_id : string) (m : Manager) : list WebSocket :=
  default [] (run_connections m !! run_id).

(** A registry with two sockets on a run, the first of them closed. *)
Definition two_sockets : Manager :=
  connect 2 (Some "run-1") (connect 1 (Some "run-1") init).

Definition first_closed (c : WebSocket) : bool := Nat.eqb c 1.

End ConnectionSpec.

Module WorkflowMore.

Section ProcessWorkflow.
Import AgentService.
Context {Data : Type}.

(** The status of each agent update of a log, in order. *)
Definition statuses (sent : list (@Message Data)) : list string :=
  omap (fun m =>
          match m with
          | agent_update _ status _ _ => Some status
          | _ => None
          end) sent.

(** How many agent updates of the log have the status. *)
Definition count_status (status : string) (sent : list (@Message Data))
  : nat :=
  length (filter (fun s => s = status) (statuses sent)).

End ProcessWorkflow.

Section AnalyzeCode.
Import Notebook24Adapter.
Context {Dict Coverage : Type}.
Variable analysis_func : string -> @stage_call Dict Coverage.

(** The results of the stages that return, with their keys, in order. *)
Definition returned (todo : list (string * string))
  : list (string * result) :=
  omap (fun '(k, _) =>
          match analysis_func k with
          | Returns r => Some (k, r)
          | Raises _ => None
          end) todo.

(** The errors of the stages that raise, in order. *)
Definition raised (todo : list (string * string)) : list string :=
  omap (fun '(k, l) =>
          match analysis_func k with
          | Returns _ => None
          | Raises e => Some (l +:+ ": " +:+ e)
          end) todo.

(** The results that a success update shows: texts and dicts. *)
Definition shown (results : list (string * @result Dict Coverage))
  : list (string * @result Dict Coverage) :=
  filter (fun kr => is_str_or_dict (snd kr) = true) results.

End AnalyzeCode.

End WorkflowMore.

Module RunnerMore.
Import RunManager RunThread.

Section Thread.
Context {CoverageDict Coverage Other : Type}.
Variable Coverage_of : CoverageDict -> option Coverage.
Variable validation_text : @Event CoverageDict Other -> string.

(** The run object after the events, the items put on the queue for
    them, and the text of the validation error that stopped the loop, if
    one did. *)
Fixpoint after_events (events : list (@Event CoverageDict Other))
    (run : @Run Coverage)
  : @Run Coverage * list (@QueueItem CoverageDict Other) * option string :=
  match events with
  | [] => (run, [], None)
  | event :: rest =>
      match process_event_on Coverage_of run event with
      | (run', true) => (run', [], Some (validation_text event))
      | (run', false) =>
          let '(final, items, failure) := after_events rest run' in
          (final, agent_event event :: items, failure)
      end
  end.

(** The exception that ends the thread of a run: the validation error
    of an event, or else the exception of the generator. *)
Definition failure_of (failure : option string) (ending : generator_end)
  : option string :=
  match failure, ending with
  | Some e, _ => Some e
  | None, GeneratorRaises e => Some e
  | None, Exhausted => None
  end.

(** The run as the thread leaves it. *)
Definition closing_run (run : @Run Coverage) (failure : option string)
  : @Run Coverage :=
  match failure with
  | Some e => with_status run "failed" (errors run ++ ["Run failed: " +:+ e])
  | None => with_status run "completed" (errors run)
  end.

(** The item that tells how the run ended. *)
Definition closing_item (run_id : string) (failure : option string)
  : @QueueItem CoverageDict Other :=
  match failure with
  | Some e => run_error e
  | None => run_complete run_id
  end.

(** The status of a run that ended. *)
Definition closing_status (failure : option string) : string :=
  match failure with
  | Some _ => "failed"
  | None => "completed"
  end.

(** The run that [start_run] registers. *)
Definition queued_run (run_id : string) : @Run Coverage :=
  {| runId := run_id; status := "queued"; agents := _initialize_agents;
     coverage := None; files := []; artifacts := ∅; errors := [] |}.

(** The run object of a thread that has started. *)
Definition started_run (run : @Run Coverage) : @Run Coverage :=
  with_status run "running" (errors run).

(** Everything that the thread of a run puts on its queue. *)
Definition thread_items (run_id : string)
    (events : list (@Event CoverageDict Other)) (ending : generator_end)
    (run : @Run Coverage) : list (@QueueItem CoverageDict Other) :=
  let '(_, items, failure) := after_events events (started_run run) in
  status_update "running" "Starting QA analysis..."
    :: items ++ [closing_item run_id (failure_of failure ending); stream_end].

(** The run object that the thread of a run leaves. *)
Definition thread_run (events : list (@Event CoverageDict Other))
    (ending : generator_end) (run : @Run Coverage) : @Run Coverage :=
  let '(final, _, failure) := after_events events (started_run run) in
  closing_run final (failure_of failure ending).

(** Whether the thread of a run fails. *)
Definition thread_failure (events : list (@Event CoverageDict Other))
    (ending : generator_end) (run : @Run Coverage) : option string :=
  let '(_, _, failure) := after_events events (started_run run) in
  failure_of failure ending.

(** The manager in which the run object and the queue of a run were
    replaced. *)
Definition placed (run_id : string) (run : @Run Coverage)
    (q : list (@QueueItem CoverageDict Other))
    (m : @Manager CoverageDict Coverage Other)
  : @Manager CoverageDict Coverage Other :=
  {| active_runs := <[run_id := run]> (active_runs m);
     completed_runs := completed_runs m;
     run_tasks := run_tasks m;
     event_queues := <[run_id := q]> (event_queues m) |}.

(** What a subscriber is sent for an item of the queue. *)
Definition yield_of (item : @QueueItem CoverageDict Other)
  : @Sse CoverageDict Other :=
  match item with
  | stream_end => sse_stream_end
  | _ => sse_item item
  end.

End Thread.

(** The agents of a run when each of them has succeeded. *)
Definition finished_agents : list AgentState :=
  map (fun agent =>
         {| key := fst agent; label := snd agent; state := "success";
            message := Some (snd agent +:+ " completed successfully") |})
      AGENTS.

(** Coverage dicts that always fit the model. *)
Definition any_coverage (d : unit) : option unit := Some d.

Definition no_text (event : @Event unit unit) : string := "invalid".

Definition no_artifact (agent_key agent_label : string) : string :=
  "# " +:+ agent_label.

End RunnerMore.

(* ===================================================================== *)
(** ** Facts about strings *)
(* ===================================================================== *)

#[local] Arguments Ascii.eqb : simpl never.

Section StringFacts.

Lemma append_nil_l (s : string) : EmptyString +:+ s = s.
Proof. reflexivity. Qed.

Lemma append_cons (x : ascii) (a b : string) :
  String x a +:+ b = String x (a +:+ b).
Proof. reflexivity. Qed.

Lemma append_nil_r (s : string) : s +:+ EmptyString = s.
Proof.
  induction s as [|c s IH]; [reflexivity |].
  by rewrite append_cons, IH.
Qed.

Lemma append_assoc (a b c : string) : (a +:+ b) +:+ c = a +:+ (b +:+ c).
Proof.
  induction a as [|x a IH]; [reflexivity |].
  by rewrite !append_cons, IH.
Qed.

Lemma startswith_nil_inv (p : string) :
  Py.startswith EmptyString p = true -> p = EmptyString.
Proof. destruct p; simpl; [reflexivity | discriminate]. Qed.

Lemma startswith_split (s p : string) :
  Py.startswith s p = true -> s = p +:+ Py.drop (Py.len p) s.
Proof.
  revert s. induction p as [|a p IH]; intros s H.
  - by destruct s.
  - destruct s as [|b s]; simpl in H; [discriminate |].
    destruct (Ascii.eqb_spec a b) as [->|]; [| discriminate].
    simpl. rewrite append_cons. f_equal. by apply IH.
Qed.

Lemma all_chars_app (q : ascii -> bool) (a b : string) :
  Py.all_chars q (a +:+ b) = Py.all_chars q a && Py.all_chars q b.
Proof.
  induction a as [|x a IH]; [reflexivity |].
  rewrite append_cons. simpl. rewrite IH. by rewrite andb_assoc.
Qed.

End StringFacts.

(* ===================================================================== *)
(** ** The complexity score *)
(* ===================================================================== *)

Section ComplexityScore.
Import EnhancedCodeAnalyzer Spec.

Lemma add_step_score_weight (score : nat) (step : Step) :
  add_step_score score step = score + step_weight step.
Proof.
  unfold add_step_score, step_weight, kind_weight.
  repeat case_bool_decide; try lia.
  destruct (Py.startswith _ _); lia.
Qed.

Lemma score_from (steps : list Step) (score : nat) :
  fold_left add_step_score steps score = score + weighted_sum steps.
Proof.
  revert score. induction steps as [|step steps IH]; intros score; simpl.
  - lia.
  - rewrite IH, add_step_score_weight. lia.
Qed.

Lemma weighted_sum_app (l1 l2 : list Step) :
  weighted_sum (l1 ++ l2) = weighted_sum l1 + weighted_sum l2.
Proof.
  induction l1 as [|step l1 IH]; simpl; [reflexivity |].
  rewrite IH. lia.
Qed.

(** C6. The complexity score is the sum over the steps of the weight of
    their kind (navigation 1, click 2, input 3, a kind that starts with
    assert_ 2, any other kind 0), so the score of a concatenation is the
    sum of the scores. *)
Theorem complexity_score_is_weighted_sum :
  (forall steps : list Step,
      calculate_complexity_score steps = weighted_sum steps)
  /\ (forall l1 l2 : list Step,
        calculate_complexity_score (l1 ++ l2)
        = calculate_complexity_score l1 + calculate_complexity_score l2)
  /\ kind_weight "navigation" = 1 /\ kind_weight "click" = 2
  /\ kind_weight "input" = 3
  /\ (forall rest : string, kind_weight ("assert_" +:+ rest) = 2).
Proof.
  assert (Hsum : forall steps,
             calculate_complexity_score steps = weighted_sum steps).
  { intros steps. unfold calculate_complexity_score.
    by rewrite score_from. }
  split; [exact Hsum |].
  split; [intros l1 l2; rewrite !Hsum; apply weighted_sum_app |].
  repeat split; reflexivity.
Qed.

End ComplexityScore.

(* ===================================================================== *)
(** ** The step parser *)
(* ===================================================================== *)

Section StepParser.
Import EnhancedCodeAnalyzer Spec.

Lemma skipped_blank_or_comment (line : string) :
  skipped line = is_blank line || is_comment line.
Proof.
  unfold skipped, is_blank, is_comment.
  destruct line; [reflexivity |].
  rewrite bool_decide_eq_false_2 by discriminate. reflexivity.
Qed.

(** One turn of the loop appends the steps of the line. *)
Lemma loop_body_parse_line (acc : list Step) (n : nat) (raw : string) :
  loop_body acc n raw = acc ++ parse_line n raw.
Proof.
  unfold loop_body, parse_line. rewrite skipped_blank_or_comment.
  destruct (is_blank _ || is_comment _); [by rewrite app_nil_r |].
  unfold rules, first_match, chain_rule, url_assert_rule, navigation_rule,
    click_rule, type_rule.
  destruct (Re.search chain_pattern _); [by rewrite <- app_assoc |].
  destruct (Re.search url_assert_pattern _); [reflexivity |].
  destruct (Re.search nav_pattern _); [reflexivity |].
  destruct (Re.search click_pattern _); [reflexivity |].
  destruct (Py.contains _ _); simpl;
    destruct (Re.search type_pattern _); by rewrite ?app_nil_r.
Qed.

Lemma parse_loop (l : list (nat * string)) (acc : list Step) :
  fold_left (fun parsed_steps '(line_num, line) =>
               loop_body parsed_steps line_num line) l acc
  = acc ++ flat_map (fun '(n, raw) => parse_line n raw) l.
Proof.
  revert acc. induction l as [|[n raw] l IH]; intros acc; simpl.
  - by rewrite app_nil_r.
  - rewrite IH, loop_body_parse_line. by rewrite <- app_assoc.
Qed.

Lemma parse_test_steps_parse_lines (code : string) :
  parse_test_steps code = parse_lines code.
Proof. unfold parse_test_steps, parse_lines. by rewrite parse_loop. Qed.

(** C2. The parser reads the text line by line, skips the blank lines and
    the lines that start with // or *, and gives every other line to the
    rules in the order chain, URL assertion, navigation, click, plain type
    (the last only without .should( on the line); the first rule that
    applies wins.  The chain rule gives two steps, an input step then an
    assert_value step on the same selector, as on the line of example 3;
    it wins over the click rule, and the type rule gives nothing next to
    .should(. *)
Theorem parse_test_steps_first_match_wins :
  (forall code : string, parse_test_steps code = parse_lines code)
  /\ (forall (n : nat) (line : string),
        chain_rule n line = None
        \/ exists sel typed expected : string,
             chain_rule n line
             = Some [input_step sel typed n line;
                     assert_value_step sel expected n line])
  /\ parse_test_steps example3
     = [input_step "#name" "Alice" 1 example3;
        assert_value_step "#name" "Alice" 1 example3]
  /\ parse_test_steps chain_then_click
     = [input_step "#a" "x" 1 chain_then_click;
        assert_value_step "#a" "x" 1 chain_then_click]
  /\ parse_test_steps type_then_should = [].
Proof.
  split; [exact parse_test_steps_parse_lines |].
  split; [| repeat split; by vm_compute].
  intros n line. unfold chain_rule.
  destruct (Re.search chain_pattern line) as [m|]; [right | by left].
  by exists (Re.group 1 m), (Re.group 2 m), (Re.group 3 m).
Qed.

(* ------------------------------------------------------------------- *)

Lemma first_match_kinds (n : nat) (line : string) :
  Forall parser_kind (first_match rules n line).
Proof.
  unfold rules, first_match, chain_rule, url_assert_rule, navigation_rule,
    click_rule, type_rule.
  assert (Hk : forall k : string,
             k ∈ parser_kinds -> k ∉ unparsed_kinds).
  { intros k Hk Hu. unfold parser_kinds, unparsed_kinds in *.
    repeat (apply elem_of_cons in Hk as [->|Hk]);
      [.. | by apply not_elem_of_nil in Hk];
      repeat (apply elem_of_cons in Hu as [Hu|Hu]; [discriminate |]);
      by apply not_elem_of_nil in Hu. }
  assert (Hs : forall step k, type step = Some k -> k ∈ parser_kinds ->
                              parser_kind step).
  { intros step k Ht Hin. unfold parser_kind, dispatch_kind.
    rewrite Ht. simpl. auto. }
  destruct (Re.search chain_pattern _).
  { repeat constructor; eapply Hs; try reflexivity;
      unfold parser_kinds; set_solver. }
  destruct (Re.search url_assert_pattern _).
  { repeat constructor; eapply Hs; try reflexivity;
      unfold parser_kinds; set_solver. }
  destruct (Re.search nav_pattern _).
  { repeat constructor; eapply Hs; try reflexivity;
      unfold parser_kinds; set_solver. }
  destruct (Re.search click_pattern _).
  { repeat constructor; eapply Hs; try reflexivity;
      unfold parser_kinds; set_solver. }
  destruct (Py.contains _ _); [constructor |].
  destruct (Re.search type_pattern _); [| constructor].
  repeat constructor; eapply Hs; try reflexivity;
    unfold parser_kinds; set_solver.
Qed.

Lemma parse_line_kinds (n : nat) (raw : string) :
  Forall parser_kind (parse_line n raw).
Proof.
  unfold parse_line. destruct (_ || _); [constructor |].
  apply first_match_kinds.
Qed.

Lemma parse_lines_kinds (l : list (nat * string)) :
  Forall parser_kind (flat_map (fun '(n, raw) => parse_line n raw) l).
Proof.
  induction l as [|[n raw] l IH]; simpl; [constructor |].
  apply Forall_app. split; [apply parse_line_kinds | exact IH].
Qed.

Lemma parser_kind_rule (step : Step) :
  parser_kind step ->
  DynamicPlaywrightGenerator.lookup_rule
    DynamicPlaywrightGenerator.playwright_mappings (dispatch_kind step)
  ∈ parser_rules.
Proof.
  intros (Hin & _ & _). unfold parser_kinds in Hin.
  repeat (apply elem_of_cons in Hin as [->|Hin]);
    [.. | by apply not_elem_of_nil in Hin];
    unfold parser_rules; simpl;
    repeat first [apply list_elem_of_here | apply list_elem_of_further].
Qed.

(** C9. Every step that the parser emits has one of the kinds navigation,
    click, input, assert_url, assert_value; the kind under which the
    generator looks the step up is never assert_css, assertion or wait,
    and the rule found is one of the five rules of those kinds. *)
Theorem parse_test_steps_kinds (code : string) :
  Forall (fun step =>
            (type step ∈ map Some parser_kinds)
            /\ (dispatch_kind step ∉ unparsed_kinds)
            /\ (DynamicPlaywrightGenerator.lookup_rule
                  DynamicPlaywrightGenerator.playwright_mappings
                  (dispatch_kind step) ∈ parser_rules))
         (parse_test_steps code).
Proof.
  rewrite parse_test_steps_parse_lines. unfold parse_lines.
  eapply Forall_impl; [apply parse_lines_kinds |].
  intros step Hstep. pose proof (parser_kind_rule step Hstep) as Hrule.
  destruct Hstep as (Hin & Hout & Ht).
  split; [| by split].
  rewrite Ht. by apply list_elem_of_fmap_2.
Qed.

End StepParser.

(* ===================================================================== *)
(** ** The Playwright generator *)
(* ===================================================================== *)

Section PlaywrightGenerator.
Import EnhancedCodeAnalyzer DynamicPlaywrightGenerator Spec.

Lemma append_step_lines (test_code : string) (step : Step) :
  append_step test_code step = test_code +:+ step_lines step.
Proof.
  unfold append_step, step_lines, dispatch_kind, test_line.
  destruct (lookup_rule _ _); [reflexivity | by rewrite append_nil_r].
Qed.

Lemma append_steps_body (steps : list Step) (test_code : string) :
  fold_left append_step steps test_code = test_code +:+ test_body steps.
Proof.
  revert test_code.
  induction steps as [|step steps IH]; intros test_code; simpl.
  - by rewrite append_nil_r.
  - by rewrite IH, append_step_lines, append_assoc.
Qed.

Lemma test_body_app (l1 l2 : list Step) :
  test_body (l1 ++ l2) = test_body l1 +:+ test_body l2.
Proof.
  induction l1 as [|step l1 IH]; simpl; [reflexivity |].
  by rewrite IH, append_assoc.
Qed.

(** The generated test: the prelude, the lines of the steps, the footer. *)
Lemma generate_playwright_test_shape (analysis : Analysis) :
  generate_playwright_test analysis
  = test_prelude analysis +:+ test_body (parsed_steps analysis)
    +:+ suite_footer.
Proof.
  unfold generate_playwright_test, test_prelude.
  rewrite append_steps_body.
  destruct (primary_url analysis) as [primary|];
    [destruct (Py.truthy primary) |];
    by rewrite ?append_nil_l, ?append_assoc.
Qed.

(** C5. A step of kind navigation is rendered as the goto call on its
    url followed by the wait for network idle when it has a non-empty
    url, and as the placeholder comment when it has no url; the line is
    never empty, and the generated test holds it at the place of the
    step. *)
Theorem navigation_step_rendered (step : Step) :
  type step = Some "navigation" ->
  let line := _generate_navigation_step step in
  (forall u : string,
      url step = Some u -> Py.truthy u = true -> line = goto_lines u)
  /\ (url step = None -> line = navigation_placeholder)
  /\ (line = navigation_placeholder
      \/ exists u : string, url step = Some u /\ line = goto_lines u)
  /\ Py.truthy line = true
  /\ (forall (analysis : Analysis) (before after : list Step),
        parsed_steps analysis = before ++ step :: after ->
        generate_playwright_test analysis
        = test_prelude analysis +:+ test_body before
          +:+ ("    " +:+ line +:+ NL)
          +:+ test_body after +:+ suite_footer).
Proof.
  intros Hkind line. subst line. unfold _generate_navigation_step.
  repeat split.
  - intros u -> Hu. simpl. by rewrite Hu.
  - by intros ->.
  - destruct (url step) as [u|]; simpl; [| by left].
    destruct (Py.truthy u); [right; by exists u | by left].
  - by destruct (Py.truthy (get (url step) EmptyString)).
  - intros analysis before after Hsteps.
    rewrite generate_playwright_test_shape, Hsteps, test_body_app.
    simpl. unfold step_lines at 1, dispatch_kind. rewrite Hkind. simpl.
    unfold test_line, _generate_navigation_step.
    by rewrite !append_assoc.
Qed.

Lemma navigation_step_rendered_witness :
  type example_navigation = Some "navigation"
  /\ _generate_navigation_step example_navigation
     = goto_lines "https://example.com/login"
  /\ generate_playwright_test example_analysis
     = test_prelude example_analysis +:+ test_body []
       +:+ ("    " +:+ _generate_navigation_step example_navigation +:+ NL)
       +:+ test_body [] +:+ suite_footer.
Proof.
  pose proof (navigation_step_rendered example_navigation eq_refl)
    as (Hgoto & _ & _ & _ & Hkept).
  split; [reflexivity |].
  split; [exact (Hgoto _ eq_refl eq_refl) |].
  exact (Hkept example_analysis [] [] eq_refl).
Defined.

End PlaywrightGenerator.

(* ===================================================================== *)
(** ** The extraction of URLs *)
(* ===================================================================== *)

Section UrlExtraction.
Import EnhancedCodeAnalyzer Spec.

Lemma rstrip_idempotent (q : ascii -> bool) (s : string) :
  Py.rstrip q (Py.rstrip q s) = Py.rstrip q s.
Proof.
  induction s as [|c s IH]; [reflexivity |]. simpl.
  destruct (Py.rstrip q s) as [|d r] eqn:Hr.
  - destruct (q c) eqn:Hc; [reflexivity |]. simpl. by rewrite Hc.
  - change (Py.rstrip q (String c (String d r)))
      with (match Py.rstrip q (String d r) with
            | EmptyString => if q c then EmptyString else String c EmptyString
            | r' => String c r'
            end).
    by rewrite IH.
Qed.

(** Stripping at the right end leaves a prefix free of the stripped
    characters in place. *)
Lemma rstrip_startswith (q : ascii -> bool) (s p : string) :
  Py.all_chars (fun c => negb (q c)) p = true ->
  Py.startswith s p = true ->
  Py.startswith (Py.rstrip q s) p = true.
Proof.
  revert p. induction s as [|c s IH]; intros p Hp Hs.
  - by rewrite (startswith_nil_inv p Hs).
  - destruct p as [|a p]; [by destruct (Py.rstrip q (String c s)) |].
    simpl in Hs, Hp.
    destruct (Ascii.eqb_spec a c) as [->|]; [| discriminate].
    apply andb_prop in Hp as [Hc Hp]. apply negb_true_iff in Hc.
    specialize (IH p Hp Hs). simpl.
    destruct (Py.rstrip q s) as [|d r].
    + rewrite (startswith_nil_inv p IH), Hc. simpl.
      by rewrite Ascii.eqb_refl.
    + simpl. by rewrite Ascii.eqb_refl.
Qed.

Lemma lstrip_head (q : ascii -> bool) (c : ascii) (s : string) :
  q c = false -> Py.lstrip q (String c s) = String c s.
Proof. intros Hc. simpl. by rewrite Hc. Qed.

(** A text that begins with [h] keeps its beginning when the quotes are
    stripped, and stripping it again changes nothing. *)
Lemma strip_quotes_http (u : string) :
  is_http u = true ->
  starts_http (Py.strip_quotes u) = true
  /\ Py.strip_quotes (Py.strip_quotes u) = Py.strip_quotes u.
Proof.
  unfold is_http, starts_http. intros Hu.
  apply andb_prop in Hu as [_ Hu].
  assert (Hl : exists s, u = String "h" s).
  { destruct u as [|c s]; [discriminate |].
    apply orb_prop in Hu as [Hu|Hu]; simpl in Hu;
      destruct (Ascii.eqb_spec "h" c) as [<-|]; try discriminate; eauto. }
  destruct Hl as [s ->].
  unfold Py.strip_quotes, Py.strip_chars.
  rewrite (lstrip_head _ "h" s) by reflexivity.
  assert (Hr : Py.startswith (Py.rstrip Py.is_quote (String "h" s)) "h" = true).
  { by apply rstrip_startswith. }
  destruct (Py.rstrip Py.is_quote (String "h" s)) as [|c r] eqn:Er;
    [discriminate |].
  simpl in Hr. destruct (Ascii.eqb_spec "h" c) as [<-|]; [| discriminate].
  rewrite (lstrip_head _ "h" r) by reflexivity.
  rewrite <- Er, rstrip_idempotent. split; [| reflexivity].
  apply orb_prop in Hu as [Hu|Hu].
  - rewrite (rstrip_startswith _ _ "http://"); done.
  - rewrite (rstrip_startswith _ _ "https://"); [by rewrite orb_true_r | done..].
Qed.

Lemma append_if_http_clean (urls : list string) (u : string) :
  Forall clean_url urls -> Forall clean_url (append_if_http urls u).
Proof.
  intros H. unfold append_if_http.
  destruct (is_http u) eqn:Hu; [| exact H].
  apply Forall_app. split; [exact H |].
  constructor; [| constructor]. by apply strip_quotes_http.
Qed.

Lemma collect_match_clean (urls : list string) (m : Re.found) :
  Forall clean_url urls -> Forall clean_url (collect_match urls m).
Proof.
  destruct m as [s|l]; simpl; [apply append_if_http_clean |].
  revert urls. induction l as [|u l IH]; intros urls H; simpl; [exact H |].
  by apply IH, append_if_http_clean.
Qed.

Lemma collect_matches_clean (ms : list Re.found) (urls : list string) :
  Forall clean_url urls -> Forall clean_url (fold_left collect_match ms urls).
Proof.
  revert urls. induction ms as [|m ms IH]; intros urls H; simpl; [exact H |].
  by apply IH, collect_match_clean.
Qed.

Lemma collect_patterns_clean (code : string) (ps : list Re.pattern)
    (urls : list string) :
  Forall clean_url urls ->
  Forall clean_url
    (fold_left
       (fun urls p => fold_left collect_match (Re.findall p code) urls)
       ps urls).
Proof.
  revert urls. induction ps as [|p ps IH]; intros urls H; simpl; [exact H |].
  by apply IH, collect_matches_clean.
Qed.

Lemma collect_urls_clean (code : string) : Forall clean_url (collect_urls code).
Proof. apply collect_patterns_clean. constructor. Qed.

(* ------------------------------------------------------------------- *)

Lemma remove_duplicates_from (l acc : list string) :
  fold_left
    (fun unique_urls u =>
       if bool_decide (u ∈ unique_urls) then unique_urls
       else unique_urls ++ [u])
    l acc
  = acc ++ filter (fun y => y ∉ acc) (first_seen l).
Proof.
  revert acc. induction l as [|x l IH]; intros acc.
  - simpl. by rewrite app_nil_r.
  - cbn [fold_left first_seen]. case_bool_decide as Hx.
    + rewrite IH, filter_cons_False by tauto.
      rewrite list_filter_filter_l; [reflexivity |].
      intros y Hy ->. tauto.
    + rewrite IH, filter_cons_True by exact Hx.
      rewrite <- app_assoc. simpl. do 2 f_equal.
      rewrite list_filter_filter. apply list_filter_iff.
      intros y. rewrite elem_of_app, list_elem_of_singleton. tauto.
Qed.

Lemma remove_duplicates_first_seen (l : list string) :
  remove_duplicates l = first_seen l.
Proof.
  unfold remove_duplicates. rewrite remove_duplicates_from. simpl.
  induction (first_seen l) as [|y k IH]; [reflexivity |].
  rewrite filter_cons_True by apply not_elem_of_nil. by rewrite IH.
Qed.

Lemma first_seen_elem_of (l : list string) (u : string) :
  u ∈ first_seen l <-> u ∈ l.
Proof.
  induction l as [|x l IH]; [reflexivity |]. simpl.
  rewrite !elem_of_cons, list_elem_of_filter, IH.
  destruct (decide (u = x)); tauto.
Qed.

Lemma first_seen_NoDup (l : list string) : NoDup (first_seen l).
Proof.
  induction l as [|x l IH]; simpl; constructor.
  - rewrite list_elem_of_filter. tauto.
  - by apply NoDup_filter.
Qed.

(** C3. The URLs returned begin with http:// or https:// and carry no
    quote at their ends; the list has no repeats; it is the list of the
    matches collected over the patterns in which every URL stays at the
    place of its first occurrence, so a URL that several patterns match
    is returned once. *)
Theorem extract_real_urls_unique (code : string) :
  let urls := extract_real_urls code in
  Forall (fun u => starts_http u = true /\ Py.strip_quotes u = u) urls
  /\ NoDup urls
  /\ urls = first_seen (collect_urls code)
  /\ (forall u : string, u ∈ urls <-> u ∈ collect_urls code)
  /\ collect_urls example_urls
     = ["https://a.example"; "https://b.example"; "https://b.example"]
  /\ extract_real_urls example_urls
     = ["https://a.example"; "https://b.example"].
Proof.
  intros urls. subst urls. unfold extract_real_urls.
  rewrite !remove_duplicates_first_seen.
  split.
  { apply Forall_forall. intros u Hu. rewrite first_seen_elem_of in Hu.
    pose proof (collect_urls_clean code) as Hc.
    rewrite Forall_forall in Hc. exact (Hc u Hu). }
  split; [apply first_seen_NoDup |].
  split; [reflexivity |].
  split; [intros u; apply first_seen_elem_of |].
  split; by vm_compute.
Qed.

End UrlExtraction.

(* ===================================================================== *)
(** ** The normalization of file names *)
(* ===================================================================== *)

Section NormalizeFilename.
Import EnhancedCodeAnalyzer Spec.

#[local] Abbreviation sanitize := (Re.sub_class unsafe_char "_").

Lemma sanitize_cons (c : ascii) (s : string) :
  sanitize (String c s)
  = (if unsafe_char c then "_" else String c EmptyString) +:+ sanitize s.
Proof. simpl. by destruct (unsafe_char c). Qed.

Lemma sanitize_app (a b : string) :
  sanitize (a +:+ b) = sanitize a +:+ sanitize b.
Proof.
  induction a as [|c a IH]; [reflexivity |].
  by rewrite append_cons, !sanitize_cons, IH, append_assoc.
Qed.

Lemma drop_len_cons (old : string) (c : ascii) (s : string) :
  old <> EmptyString ->
  Py.drop (Py.len old) (String c s) = Py.drop (Py.len old - 1) s.
Proof.
  destruct old as [|a old]; [done |]. intros _. simpl.
  by rewrite Nat.sub_0_r.
Qed.

(** Replacing a marker by a text with the same sanitized form does not
    change the sanitized form of the whole. *)
Lemma sanitize_replace_from (old new : string) :
  old <> EmptyString ->
  sanitize new = sanitize old ->
  forall (s : string) (skip : nat),
    sanitize (Py.replace_from old new skip s) = sanitize (Py.drop skip s).
Proof.
  intros Hold Hnew s. induction s as [|c s IH]; intros skip.
  - by destruct skip.
  - destruct skip as [|k]; [| apply IH].
    cbn [Py.replace_from Py.drop].
    destruct (Py.startswith (String c s) old) eqn:Hs.
    + rewrite sanitize_app, IH, Hnew, <- sanitize_app.
      rewrite <- (drop_len_cons old c s Hold).
      by rewrite <- (startswith_split _ _ Hs).
    + rewrite !sanitize_cons, IH. by destruct s.
Qed.

Lemma sanitize_replace (old new s : string) :
  old <> EmptyString ->
  sanitize new = sanitize old ->
  sanitize (Py.replace old new s) = sanitize s.
Proof.
  intros Hold Hnew. unfold Py.replace.
  rewrite sanitize_replace_from by done. by destruct s.
Qed.

Lemma rsplit_last_join (sep : ascii) (s a b : string) :
  Py.rsplit_last sep s = Some (a, b) ->
  s = a +:+ String sep b.
Proof.
  revert a b. induction s as [|c s IH]; intros a b H; [discriminate |].
  simpl in H. destruct (Py.rsplit_last sep s) as [[a' b']|].
  - injection H as <- <-. rewrite append_cons. f_equal. by apply IH.
  - destruct (Ascii.eqb_spec c sep) as [->|]; [| discriminate].
    by injection H as <- <-.
Qed.

(** What [normalize_filename] comes to: every character of the file name
    that is neither a word character nor a dash becomes an underscore. *)
Lemma normalize_filename_sanitize (filename : string) :
  normalize_filename filename = sanitize filename.
Proof.
  unfold normalize_filename, Py.rsplit1.
  set (n := Py.replace ".cy." "_cy_" _).
  assert (Hn : sanitize n = sanitize filename).
  { subst n. by rewrite !sanitize_replace. }
  destruct (Py.rsplit_last "." n) as [[a b]|] eqn:Hsplit; simpl.
  - apply rsplit_last_join in Hsplit.
    rewrite <- Hn, Hsplit, !sanitize_app. by f_equal.
  - exact Hn.
Qed.

Lemma all_chars_sanitize (q : ascii -> bool) (s : string) :
  q "_"%char = true ->
  Py.all_chars q (sanitize s)
  = Py.all_chars (fun c => unsafe_char c || q c) s.
Proof.
  intros Hq. induction s as [|c s IH]; [reflexivity |].
  rewrite sanitize_cons, all_chars_app, IH. simpl.
  destruct (unsafe_char c); simpl; [by rewrite Hq |].
  by rewrite andb_true_r.
Qed.

Lemma all_chars_ext (q1 q2 : ascii -> bool) (s : string) :
  (forall c, q1 c = q2 c) -> Py.all_chars q1 s = Py.all_chars q2 s.
Proof.
  intros H. induction s as [|c s IH]; [reflexivity |]. simpl.
  by rewrite H, IH.
Qed.

Lemma kept_or_unsafe (c : ascii) : unsafe_char c || kept_char c = true.
Proof.
  unfold unsafe_char, kept_char, is_word.
  destruct (Py.isalnum c), (Ascii.eqb c "-"), (Ascii.eqb c "_"); reflexivity.
Qed.

Lemma safe_or_unsafe (c : ascii) :
  unsafe_char c || safe_char c = negb (foreign_word c).
Proof. destruct c as [[] [] [] [] [] [] [] []]; reflexivity. Qed.

(** C7, as the code has it.  The result is the file name in which every
    character that is neither a word character nor a dash is replaced by
    an underscore (this covers the three markers and the last dot); all
    its characters are word characters or dashes; and they all lie in
    A-Z, a-z, 0-9, underscore, dash exactly when the file name holds no
    letter or digit outside ASCII. *)
Theorem normalize_filename_chars (filename : string) :
  normalize_filename filename = Re.sub_class unsafe_char "_" filename
  /\ Py.all_chars kept_char (normalize_filename filename) = true
  /\ Py.all_chars safe_char (normalize_filename filename)
     = Py.all_chars (fun c => negb (foreign_word c)) filename
  /\ normalize_filename "login.test.js" = "login_test_js"
  /\ normalize_filename "cart.spec.ts" = "cart_spec_ts"
  /\ normalize_filename "checkout.cy.js" = "checkout_cy_js".
Proof.
  split; [apply normalize_filename_sanitize |].
  rewrite normalize_filename_sanitize.
  split.
  { rewrite all_chars_sanitize by reflexivity.
    rewrite (all_chars_ext _ (fun _ => true)) by apply kept_or_unsafe.
    by induction filename. }
  split.
  { rewrite all_chars_sanitize by reflexivity.
    apply all_chars_ext, safe_or_unsafe. }
  repeat split; by vm_compute.
Qed.

(** C7, as the claim has it, fails: the file name café.js keeps its
    accented letter. *)
Lemma normalize_filename_keeps_accent :
  normalize_filename cafe_js = "caf" +:+ String e_acute "_js"
  /\ Py.all_chars safe_char (normalize_filename cafe_js) = false.
Proof. split; by vm_compute. Qed.

End NormalizeFilename.

(* ===================================================================== *)
(** ** Two calls of [analyze_code] *)
(* ===================================================================== *)

Section AnalyzeTwice.
Import EnhancedCodeAnalyzer Spec.

(** C1, as the code has it.  Two calls in a row on the same text and file
    name return analyses equal in every field but the time stamp, which
    each call reads from the clock; a call reads nothing else from
    outside and leaves the world as it was, the clock apart. *)
Theorem analyze_code_same_but_timestamp (code file : string) (w : World) :
  let first := analyze_code code file w in
  let second := analyze_code code file (snd first) in
  with_timestamp EmptyString (fst second)
  = with_timestamp EmptyString (fst first)
  /\ fst second = with_timestamp (analysis_timestamp (fst second)) (fst first)
  /\ analysis_timestamp (fst first) = clock w (reads w)
  /\ analysis_timestamp (fst second) = clock w (S (reads w))
  /\ clock (snd first) = clock w
  /\ set_order (snd first) = set_order w
  /\ reads (snd first) = S (reads w).
Proof.
  unfold analyze_code, datetime_now.
  destruct (detect_language_and_framework file code) as [language frameworks].
  simpl. repeat split; reflexivity.
Qed.

(** C1, as the claim has it, fails: the two analyses differ in their time
    stamp as soon as the clock has moved between the calls. *)
Lemma analyze_code_timestamps_differ :
  let first := analyze_code example1 "login.cy.js" ticking_world in
  let second := analyze_code example1 "login.cy.js" (snd first) in
  analysis_timestamp (fst first) = "2026-01-01T09:00:00.000001"
  /\ analysis_timestamp (fst second) = "2026-01-01T09:00:00.000002"
  /\ bool_decide (analysis_timestamp (fst first)
                  = analysis_timestamp (fst second)) = false
  /\ real_urls (fst first) = ["https://example.com/login"].
Proof. repeat split; by vm_compute. Qed.

End AnalyzeTwice.

(* ===================================================================== *)
(** ** A stage that fails does not stop the workflow *)
(* ===================================================================== *)

Section ProcessWorkflowFacts.
Import AgentService WorkflowSpec.
Context {Payload Data : Type}.
Variable try_block :
  string -> @TestAutomationState Payload -> Payload * @ending Data.
Variable artifacts_generated : Payload -> nat.

Lemma agent_returns (row : AgentRow) (state : TestAutomationState)
    (sent : list Message) :
  agent try_block row state sent
  = Returned (agent_state try_block row state)
             (sent ++ agent_messages try_block row state).
Proof.
  unfold agent_state, agent_messages, agent.
  destruct (try_block (agent_name row) state) as [p [message data|e]];
    simpl; by rewrite <- app_assoc.
Qed.

Lemma run_stages_rows (total : nat) (rows : list AgentRow) :
  forall (index : nat) (state : TestAutomationState) (sent : list Message),
    run_stages total index
      (map (fun row => (agent_name row, agent try_block row)) rows)
      state sent
    = Returned (after_stages try_block rows state)
               (sent ++ stage_messages try_block total index rows state).
Proof.
  induction rows as [|row rows IH]; intros index state sent; simpl.
  - by rewrite app_nil_r.
  - rewrite agent_returns, IH. f_equal.
    rewrite <- !app_assoc. reflexivity.
Qed.

Lemma agent_messages_cases (row : AgentRow) (state : TestAutomationState) :
  agent_messages try_block row state
  = agent_update (agent_name row) "running" (running_message row) None
    :: match try_block (agent_name row) state with
       | (_, Succeeds message data) =>
           [agent_update (agent_name row) "success" message (Some data)]
       | (_, Raises e) =>
           [agent_update (agent_name row) "error"
              (failure_prefix row +:+ e) None]
       end.
Proof.
  unfold agent_messages, agent.
  by destruct (try_block (agent_name row) state) as [p [message data|e]].
Qed.

Lemma agent_state_errors (row : AgentRow) (state : TestAutomationState) :
  errors (agent_state try_block row state)
  = errors state
    ++ match try_block (agent_name row) state with
       | (_, Succeeds _ _) => []
       | (_, Raises e) => [errors_prefix row +:+ e]
       end.
Proof.
  unfold agent_state, agent.
  destruct (try_block (agent_name row) state) as [p [message data|e]];
    simpl; by rewrite ?app_nil_r.
Qed.

Lemma announced_app (l1 l2 : list (@Message Data)) :
  announced (l1 ++ l2) = announced l1 ++ announced l2.
Proof. apply omap_app. Qed.

Lemma announced_agent (row : AgentRow) (state : TestAutomationState) :
  announced (agent_messages try_block row state) = [].
Proof.
  rewrite agent_messages_cases.
  by destruct (try_block (agent_name row) state) as [p [message data|e]].
Qed.

Lemma announced_stages (total : nat) (rows : list AgentRow) :
  forall (index : nat) (state : TestAutomationState),
    announced (stage_messages try_block total index rows state)
    = map agent_name rows.
Proof.
  induction rows as [|row rows IH]; intros index state; [reflexivity |].
  cbn [stage_messages map].
  change (announced (workflow_progress (agent_name row) index total :: ?l))
    with (agent_name row :: announced l).
  by rewrite announced_app, announced_agent, IH.
Qed.

(** The errors of a run are only ever appended to. *)
Lemma after_stages_errors (rows : list AgentRow) :
  forall state : TestAutomationState,
    exists more : list string,
      errors (after_stages try_block rows state) = errors state ++ more.
Proof.
  induction rows as [|row rows IH]; intros state; simpl.
  - exists []. by rewrite app_nil_r.
  - destruct (IH (agent_state try_block row state)) as [more Hmore].
    rewrite Hmore, agent_state_errors, <- app_assoc. eauto.
Qed.

Lemma after_stages_app (l1 l2 : list AgentRow) (state : TestAutomationState) :
  after_stages try_block (l1 ++ l2) state
  = after_stages try_block l2 (after_stages try_block l1 state).
Proof. apply fold_left_app. Qed.

Lemma stage_messages_app (total : nat) (l1 l2 : list AgentRow) :
  forall (index : nat) (state : TestAutomationState),
    stage_messages try_block total index (l1 ++ l2) state
    = stage_messages try_block total index l1 state
      ++ stage_messages try_block total (index + length l1) l2
           (after_stages try_block l1 state).
Proof.
  induction l1 as [|row l1 IH]; intros index state; simpl.
  - by rewrite Nat.add_0_r.
  - rewrite IH, <- app_assoc.
    by replace (index + S (length l1)) with (S index + length l1) by lia.
Qed.

(** A stage whose [try] block raises leaves its error in the final
    state and its error message in the log. *)
Lemma failure_is_recorded (total : nat) (before after : list AgentRow)
    (row : AgentRow) (state : TestAutomationState) (p : Payload) (e : string) :
  try_block (agent_name row) (after_stages try_block before state)
  = (p, Raises e) ->
  (errors_prefix row +:+ e)
    ∈ errors (after_stages try_block (before ++ row :: after) state)
  /\ agent_update (agent_name row) "error" (failure_prefix row +:+ e) None
     ∈ stage_messages try_block total 0 (before ++ row :: after) state.
Proof.
  intros Hraise. split.
  - rewrite after_stages_app. simpl.
    destruct (after_stages_errors after
                (agent_state try_block row
                   (after_stages try_block before state))) as [more ->].
    rewrite agent_state_errors, Hraise.
    rewrite !elem_of_app, list_elem_of_singleton. auto.
  - rewrite stage_messages_app. cbn [stage_messages].
    rewrite agent_messages_cases, Hraise.
    rewrite elem_of_app, elem_of_cons, elem_of_app, !elem_of_cons.
    right. right. left. right. by left.
Qed.

Lemma process_workflow_runs_all (run : string) (state : TestAutomationState)
    (runs : gmap string TestAutomationState) :
  process_workflow try_block artifacts_generated run
    (<[run := state]> runs) []
  = (<[run := after_stages try_block agents state]> runs,
     stage_messages try_block (length agents) 0 agents state
       ++ [workflow_complete run "completed"
             (errors (after_stages try_block agents state))
             (artifacts_generated
                (payload (after_stages try_block agents state)))]).
Proof.
  unfold process_workflow, process_workflow_with, stage_functions.
  rewrite lookup_insert_eq, run_stages_rows, length_map.
  by rewrite insert_insert_eq.
Qed.

End ProcessWorkflowFacts.

Section AnalyzeCodeFacts.
Import Notebook24Adapter WorkflowSpec.
Context {Dict Coverage FileStatus : Type}.
Variable analysis_func : string -> @stage_call Dict Coverage.
Variable final_coverage : Coverage.
Variable file_statuses : list FileStatus.

#[local] Abbreviation turn :=
  (@stage_turn Dict Coverage FileStatus analysis_func).

Lemma stage_loop_turns (todo : list (string * string)) :
  forall (yielded : list Update) (results : list (string * result)),
    stage_loop analysis_func todo yielded results
    = (yielded ++ flat_map (fun '(k, l) => fst (turn k l)) todo,
       results ++ flat_map (fun '(k, l) => snd (turn k l)) todo).
Proof.
  induction todo as [|[k l] todo IH]; intros yielded results; simpl.
  - by rewrite !app_nil_r.
  - destruct (turn k l) as [ys rs] eqn:Hturn. rewrite IH.
    by rewrite <- !app_assoc.
Qed.

Lemma running_keys_turn (k l : string) :
  running_keys (fst (turn k l)) = [k].
Proof. unfold stage_turn. by destruct (analysis_func k). Qed.

Lemma running_keys_app (l1 l2 : list (@Update Dict Coverage FileStatus)) :
  running_keys (l1 ++ l2) = running_keys l1 ++ running_keys l2.
Proof. apply omap_app. Qed.

Lemma running_keys_turns (todo : list (string * string)) :
  running_keys (flat_map (fun '(k, l) => fst (turn k l)) todo)
  = map fst todo.
Proof.
  induction todo as [|[k l] todo IH]; [reflexivity |]. simpl.
  by rewrite running_keys_app, IH, running_keys_turn.
Qed.

Lemma error_update_turn (k l e : string) :
  analysis_func k = Raises e ->
  error_update k l e ∈ fst (turn k l).
Proof.
  intros He. unfold stage_turn. rewrite He. simpl.
  apply list_elem_of_further, list_elem_of_here.
Qed.

Lemma analyze_code_turns :
  analyze_code analysis_func final_coverage file_statuses
  = flat_map (fun '(k, l) => fst (turn k l)) agents
    ++ [ {| upd_agents := [];
            upd_artifacts :=
              flat_map (fun '(k, l) => snd (turn k l)) agents;
            upd_errors := []; upd_status := Some "completed";
            upd_coverage := Some final_coverage;
            upd_files := file_statuses |} ].
Proof. unfold analyze_code. by rewrite stage_loop_turns. Qed.

Lemma analyze_code_continues :
  let updates := analyze_code analysis_func final_coverage file_statuses in
  running_keys updates = map fst agents
  /\ (upd_status <$> last updates) = Some (Some "completed")
  /\ (forall k l e : string,
        (k, l) ∈ agents -> analysis_func k = Raises e ->
        error_update k l e ∈ updates).
Proof.
  intros updates. subst updates. rewrite analyze_code_turns.
  split; [| split].
  - rewrite running_keys_app, running_keys_turns.
    by rewrite app_nil_r.
  - by rewrite last_snoc.
  - intros k l e Hin He. apply elem_of_app. left.
    apply list_elem_of_In, in_flat_map. exists (k, l).
    split; [by apply list_elem_of_In |].
    by apply list_elem_of_In, error_update_turn.
Qed.

End AnalyzeCodeFacts.

Section StageFailure.
Import WorkflowSpec.

(** C4. In [process_workflow] a stage whose [try] block raises has its
    error appended to the errors of the run state and an error message
    sent for the stage; all eight stages are announced in order and the
    workflow ends with the message of completion.  In
    [Notebook24Adapter.analyze_code] a stage function that raises gives
    an update in state error that carries the error; all eight stages
    are reported as running in order and the last update has the status
    completed. *)
Theorem stage_failure_is_not_fatal :
  (forall (Payload Data : Type)
          (try_block : string -> @AgentService.TestAutomationState Payload
                       -> Payload * @AgentService.ending Data)
          (artifacts_generated : Payload -> nat)
          (run : string) (state : AgentService.TestAutomationState)
          (runs : gmap string AgentService.TestAutomationState),
      let final := after_stages try_block AgentService.agents state in
      let sent := stage_messages try_block 8 0 AgentService.agents state in
      AgentService.process_workflow try_block artifacts_generated run
        (<[run := state]> runs) []
      = (<[run := final]> runs,
         sent ++ [AgentService.workflow_complete run "completed"
                    (AgentService.errors final)
                    (artifacts_generated (AgentService.payload final))])
      /\ announced sent
         = ["code_analysis"; "user_story"; "gherkin"; "test_plan";
            "playwright"; "execution"; "coverage"; "final_report"]
      /\ (forall (before after : list AgentService.AgentRow)
                 (row : AgentService.AgentRow) (p : Payload) (e : string),
            AgentService.agents = before ++ row :: after ->
            try_block (AgentService.agent_name row)
              (after_stages try_block before state)
            = (p, AgentService.Raises e) ->
            (AgentService.errors_prefix row +:+ e)
              ∈ AgentService.errors final
            /\ AgentService.agent_update (AgentService.agent_name row)
                 "error" (AgentService.failure_prefix row +:+ e) None
               ∈ sent))
  /\ (forall (Dict Coverage FileStatus : Type)
             (analysis_func : string -> @Notebook24Adapter.stage_call Dict Coverage)
             (final_coverage : Coverage) (file_statuses : list FileStatus),
        let updates :=
          Notebook24Adapter.analyze_code analysis_func final_coverage
            file_statuses in
        running_keys updates
        = ["code_analysis"; "user_story"; "gherkin"; "test_plan";
           "playwright"; "execution"; "coverage"; "final_report"]
        /\ (Notebook24Adapter.upd_status <$> last updates)
           = Some (Some "completed")
        /\ (forall k l e : string,
              (k, l) ∈ Notebook24Adapter.agents ->
              analysis_func k = Notebook24Adapter.Raises e ->
              error_update k l e ∈ updates)).
Proof.
  split.
  - intros Payload Data try_block artifacts_generated run state runs
      final sent.
    split; [apply process_workflow_runs_all |].
    split; [apply (announced_stages try_block 8 AgentService.agents 0 state) |].
    intros before after row p e Hrows Hraise. subst final sent.
    rewrite Hrows. by eapply failure_is_recorded.
  - intros Dict Coverage FileStatus analysis_func final_coverage
      file_statuses.
    apply analyze_code_continues.
Qed.

Lemma stage_failure_is_not_fatal_witness :
  "Gherkin generation failed: boom"
    ∈ AgentService.errors
        (after_stages failing_gherkin AgentService.agents fresh_state)
  /\ AgentService.agent_update "gherkin" "error"
       "Gherkin generation failed: boom" None
     ∈ stage_messages failing_gherkin 8 0 AgentService.agents fresh_state
  /\ @error_update unit unit unit "gherkin" "Gherkin Scenarios" "boom"
     ∈ Notebook24Adapter.analyze_code gherkin_raises tt [].
Proof.
  destruct stage_failure_is_not_fatal as [Hworkflow Hadapter].
  destruct (Hworkflow unit unit failing_gherkin (fun _ => 0) "run-1"
              fresh_state ∅) as (_ & _ & Hrecorded).
  destruct (Hadapter unit unit unit gherkin_raises tt [])
    as (_ & _ & Hupdate).
  split; [| split].
  - exact (proj1 (Hrecorded (firstn 2 AgentService.agents)
                    (skipn 3 AgentService.agents)
                    (nth 2 AgentService.agents
                       (AgentService.Build_AgentRow EmptyString EmptyString
                          EmptyString EmptyString))
                    tt "boom" eq_refl eq_refl)).
  - exact (proj2 (Hrecorded (firstn 2 AgentService.agents)
                    (skipn 3 AgentService.agents)
                    (nth 2 AgentService.agents
                       (AgentService.Build_AgentRow EmptyString EmptyString
                          EmptyString EmptyString))
                    tt "boom" eq_refl eq_refl)).
  - apply (Hupdate "gherkin" "Gherkin Scenarios" "boom");
      [| reflexivity].
    do 2 apply list_elem_of_further. apply list_elem_of_here.
Defined.

(** By contrast, an exception that escapes a stage function itself ends
    [process_workflow]: the stages after it are not announced, the errors
    of the state are left as they were, and the last message is the
    workflow error. *)
Lemma escaped_exception_ends_workflow :
  let result :=
    AgentService.process_workflow_with (fun _ : unit => 0) replaced_stages
      "run-1" {[ "run-1" := fresh_state ]} [] in
  announced (snd result) = ["code_analysis"; "user_story"; "gherkin"]
  /\ last (snd result) = Some (AgentService.workflow_error "run-1" "boom")
  /\ (AgentService.errors <$> fst result !! "run-1") = Some [].
Proof. repeat split; by vm_compute. Qed.

End StageFailure.

(* ===================================================================== *)
(** ** The run manager *)
(* ===================================================================== *)

Section RunManagerFacts.
Import RunManager RunSpec.
Context {CoverageDict Coverage Other : Type}.
Variable Coverage_of : CoverageDict -> option Coverage.

#[local] Abbreviation Manager := (@RunManager.Manager CoverageDict Coverage Other).

Lemma add_event_tasks (run_id : string) (item : QueueItem) (m : Manager) :
  run_tasks (_add_event_to_queue run_id item m) = run_tasks m.
Proof. unfold _add_event_to_queue. by destruct (event_queues m !! run_id). Qed.

(** No call of the API and no step of the background thread writes
    [run_tasks], except [cancel_run] on a run that is already in it. *)
Lemma step_keeps_no_task (m m' : Manager) :
  step Coverage_of m m' -> run_tasks m = ∅ -> run_tasks m' = ∅.
Proof.
  intros Hstep Hnone. destruct Hstep; simpl.
  - exact Hnone.
  - unfold mark_running. destruct (active_runs m !! run_id); [| done].
    by rewrite add_event_tasks.
  - unfold _process_agent_event.
    destruct (active_runs m !! run_id) as [run|]; [| done].
    by destruct (process_event_on Coverage_of run event).
  - by rewrite add_event_tasks.
  - unfold mark_completed. destruct (active_runs m !! run_id); [| done].
    by rewrite add_event_tasks.
  - unfold _handle_run_failure_sync.
    destruct (active_runs m !! run_id); [| done].
    by rewrite add_event_tasks.
  - unfold retire. rewrite add_event_tasks.
    by destruct (active_runs m !! run_id).
  - unfold cancel_run. by rewrite Hnone, lookup_empty.
Qed.

Lemma reachable_no_task (m : Manager) :
  reachable Coverage_of m -> run_tasks m = ∅.
Proof.
  induction 1 as [|m m' _ IH Hstep]; [reflexivity |].
  by eapply step_keeps_no_task.
Qed.

(** In every state that the manager can reach, [cancel_run] returns
    false and changes nothing. *)
Lemma cancel_run_never_succeeds (m : Manager) (run_id : string) :
  reachable Coverage_of m -> cancel_run run_id m = (m, false).
Proof.
  intros Hreach. unfold cancel_run.
  by rewrite (reachable_no_task m Hreach), lookup_empty.
Qed.

(** [cancel_run] returns true exactly for the ids of [run_tasks]. *)
Lemma cancel_run_true_iff_task (m : Manager) (run_id : string) :
  snd (cancel_run run_id m) = true <-> is_Some (run_tasks m !! run_id).
Proof.
  unfold cancel_run. destruct (run_tasks m !! run_id) as [task|]; simpl.
  - destruct (active_runs m !! run_id); simpl; split; eauto.
  - split; [discriminate | by intros [? ?]].
Qed.

(** When [cancel_run] returns true for an active run, the run is failed
    and the reason is the last of its errors. *)
Lemma cancel_run_marks_failed (m : Manager) (run_id : string)
    (run : @RunManager.Run Coverage) :
  is_Some (run_tasks m !! run_id) ->
  active_runs m !! run_id = Some run ->
  exists run' : @RunManager.Run Coverage,
    active_runs (fst (cancel_run run_id m)) !! run_id = Some run'
    /\ status run' = "failed"
    /\ errors run' = errors run ++ ["Run cancelled by user"].
Proof.
  intros [task Htask] Hrun. unfold cancel_run. rewrite Htask. simpl.
  rewrite Hrun. simpl. rewrite lookup_insert_eq. eauto.
Qed.

(* ------------------------------------------------------------------- *)

Lemma update_agent_frame (event : @RunManager.Event CoverageDict Other)
    (agent_key agent_state : string) (l : list AgentState) :
  ev_agent event = Some agent_key ->
  ev_state event = Some agent_state ->
  agents_frame event l
    (update_agent l agent_key agent_state
       (get (ev_message event) EmptyString)).
Proof.
  intros Hagent Hstate. induction l as [|a l IH]; simpl; [by left |].
  case_bool_decide as Hkey.
  - right. exists [], l, a, agent_state. rewrite Hkey.
    by repeat split.
  - destruct IH
      as [->|(before & after & b & st & Hb & Hst & Hfirst & -> & ->)];
      [by left |].
    right. exists (a :: before), after, b, st.
    repeat split; try done. constructor; [| done]. congruence.
Qed.

Lemma process_event_on_frame (run : @RunManager.Run Coverage)
    (event : @RunManager.Event CoverageDict Other) :
  run_frame Coverage_of event (artifact_key event) run
    (fst (process_event_on Coverage_of run event)).
Proof.
  unfold process_event_on, run_frame, artifact_key.
  set (run1 := match ev_agent event, ev_state event with
               | Some agent_key, Some agent_state => _
               | _, _ => run
               end).
  assert (H1 : runId run1 = runId run /\ status run1 = status run
               /\ errors run1 = errors run /\ files run1 = files run
               /\ agents_frame event (agents run) (agents run1)
               /\ coverage run1 = coverage run
               /\ artifacts run1 = artifacts run).
  { subst run1.
    destruct (ev_agent event) as [agent_key|] eqn:Hagent;
      [destruct (ev_state event) as [agent_state|] eqn:Hstate |];
      simpl; repeat split; try by left.
    by apply update_agent_frame. }
  destruct H1 as (Hid & Hstatus & Herrors & Hfiles & Hagents & Hcov & Harts).
  clearbody run1.
  destruct (ev_coverage event) as [[d|v]|] eqn:Hc;
    [destruct (Coverage_of d) as [c|] eqn:Hd | |];
    destruct (ev_artifact event) as [a|] eqn:Ha; simpl;
    repeat split; try done;
    try (by left); try (rewrite Hcov; by left);
    try (rewrite Harts; by left);
    try (right; exists d, c; done);
    try (right; exists a; by rewrite Harts).
Qed.

(** C10, as the code has it.  Processing an event leaves the other
    registries of the manager and every other run as they were; in the
    run itself the id, the status, the errors and the files are kept, at
    most one agent, whose key is the agent field of the event, takes the
    state and the message of the event, the coverage changes only to the
    model of a coverage dict of the event, and the artifact of the event,
    if any, is stored under the agent field of the event, or under
    the key unknown when the event has no agent field. *)
Theorem process_agent_event_frame (run_id : string)
    (event : @RunManager.Event CoverageDict Other) (m : Manager) :
  let m' := fst (_process_agent_event Coverage_of run_id event m) in
  completed_runs m' = completed_runs m
  /\ run_tasks m' = run_tasks m
  /\ event_queues m' = event_queues m
  /\ (forall other : string,
        other <> run_id -> active_runs m' !! other = active_runs m !! other)
  /\ match active_runs m !! run_id with
     | None => m' = m
     | Some run =>
         exists run' : @RunManager.Run Coverage,
           active_runs m' !! run_id = Some run'
           /\ run_frame Coverage_of event
                (get (ev_agent event) "unknown") run run'
     end.
Proof.
  unfold _process_agent_event.
  destruct (active_runs m !! run_id) as [run|] eqn:Hrun; simpl;
    [| by repeat split].
  pose proof (process_event_on_frame run event) as Hframe.
  destruct (process_event_on Coverage_of run event) as [run' raised].
  simpl in *. repeat split; try done.
  - intros other Hother. by rewrite lookup_insert_ne.
  - exists run'. by rewrite lookup_insert_eq.
Qed.

End RunManagerFacts.

Section RunManagerExamples.
Import RunManager RunSpec.

(** C10, as the claim has it, fails: an event that carries an artifact
    and no agent field changes the artifacts of the run, under the key
    unknown. *)
Lemma artifact_without_agent_is_stored :
  let m' := fst (_process_agent_event no_coverage "run-1"
                   anonymous_artifact started) in
  ev_agent anonymous_artifact = None
  /\ (artifacts <$> active_runs started !! "run-1") = Some ∅
  /\ (artifacts <$> active_runs m' !! "run-1")
     = Some {[ "unknown" := "report" ]}.
Proof. repeat split; by vm_compute. Qed.

Lemma process_agent_event_frame_witness :
  exists run' : @RunManager.Run unit,
    active_runs (fst (_process_agent_event no_coverage "run-1"
                        gherkin_success started)) !! "run-1"
    = Some run'
    /\ run_frame no_coverage gherkin_success "gherkin"
         {| runId := "run-1"; status := "queued";
            agents := _initialize_agents; coverage := None; files := [];
            artifacts := ∅; errors := [] |}
         run'.
Proof.
  exact (proj2 (proj2 (proj2 (proj2
           (process_agent_event_frame no_coverage "run-1" gherkin_success
              started))))).
Defined.

(** C8 on the code: after [start_run], while the run is queued or
    running, [cancel_run] returns false and leaves the run as it is,
    because [start_run] records nothing in [run_tasks]. *)
Theorem cancel_run_after_start_run :
  get_run_status "run-1" started = Some "queued"
  /\ run_tasks started = ∅
  /\ cancel_run "run-1" started = (started, false)
  /\ get_run_status "run-1" running = Some "running"
  /\ cancel_run "run-1" running = (running, false)
  /\ get_run_status "run-1" (fst (cancel_run "run-1" running))
     = Some "running".
Proof. repeat split; by vm_compute. Qed.

End RunManagerExamples.

(* ===================================================================== *)
(** ** The groups and the text of a match *)
(* ===================================================================== *)

Section MatcherFacts.
Import Re ReSpec.

Lemma len_app (a b : string) : Py.len (a +:+ b) = Py.len a + Py.len b.
Proof.
  induction a as [|c a IH]; [reflexivity |].
  rewrite append_cons. simpl. by rewrite IH.
Qed.

Lemma take_app_len (a b : string) : Py.take (Py.len a) (a +:+ b) = a.
Proof.
  induction a as [|c a IH]; [by destruct b |].
  rewrite append_cons. simpl. by rewrite IH.
Qed.

Lemma all_chars_snoc (q : ascii -> bool) (a : string) (c : ascii) :
  Py.all_chars q a = true -> q c = true ->
  Py.all_chars q (a +:+ String c EmptyString) = true.
Proof. intros Ha Hc. rewrite all_chars_app, Ha. simpl. by rewrite Hc. Qed.

Lemma sound_lit (shapes : list (string -> Prop)) (l : string) (k : cont) :
  sound shapes k -> sound shapes (lit l k).
Proof.
  intros Hk. induction l as [|a l IH]; intros s gs rest H; simpl in H.
  - by apply Hk.
  - destruct s as [|b s]; [discriminate |].
    destruct (Ascii.eqb_spec a b) as [->|]; [| discriminate].
    destruct (IH _ _ _ H) as [Hfit [pre ->]].
    split; [exact Hfit |]. by exists (String b pre).
Qed.

Lemma sound_one (shapes : list (string -> Prop)) (cl : cclass) (k : cont) :
  sound shapes k -> sound shapes (one cl k).
Proof.
  intros Hk s gs rest H. unfold one in H.
  destruct s as [|c s]; [discriminate |].
  destruct (in_class cl c); [| discriminate].
  destruct (Hk _ _ _ H) as [Hfit [pre ->]].
  split; [exact Hfit |]. by exists (String c pre).
Qed.

Lemma sound_opt (shapes : list (string -> Prop)) (cl : cclass) (k : cont) :
  sound shapes k -> sound shapes (opt cl k).
Proof.
  intros Hk s gs rest H. unfold opt in H.
  destruct (one cl k s) as [r|] eqn:Hone.
  - injection H as ->. by apply (sound_one shapes cl k Hk).
  - by apply Hk.
Qed.

Lemma sound_star (shapes : list (string -> Prop)) (cl : cclass) (k : cont) :
  sound shapes k -> sound shapes (star cl k).
Proof.
  intros Hk s. induction s as [|c s IH]; intros gs rest H; simpl in H.
  - by apply Hk.
  - destruct (in_class cl c); [| by apply Hk].
    destruct (star cl k s) as [r|] eqn:Hstar; [| by apply Hk].
    injection H as ->.
    destruct (IH _ _ eq_refl) as [Hfit [pre ->]].
    split; [exact Hfit |]. by exists (String c pre).
Qed.

(** The group read by [group_star] extends [acc] by characters of the
    class. *)
Lemma group_star_sound (shapes : list (string -> Prop)) (cl : cclass)
    (k : cont) :
  sound shapes k ->
  forall (s acc : string) (gs : list string) (rest : string),
    all_in cl acc ->
    group_star cl k acc s = Some (gs, rest) ->
    (exists (more : string) (gs' : list string),
        gs = (acc +:+ more) :: gs' /\ all_in cl (acc +:+ more)
        /\ fits shapes gs')
    /\ exists pre : string, s = pre +:+ rest.
Proof.
  intros Hk s. induction s as [|c s IH]; intros acc gs rest Hacc H;
    simpl in H.
  - unfold capture in H.
    destruct (k EmptyString) as [[gs' rest']|] eqn:Hks; [| discriminate].
    injection H as <- <-. destruct (Hk _ _ _ Hks) as [Hfit Hpre].
    split; [| exact Hpre].
    exists EmptyString, gs'. by rewrite append_nil_r.
  - assert (Hstop : capture acc (k (String c s)) = Some (gs, rest) ->
              (exists (more : string) (gs' : list string),
                  gs = (acc +:+ more) :: gs' /\ all_in cl (acc +:+ more)
                  /\ fits shapes gs')
              /\ exists pre : string, String c s = pre +:+ rest).
    { unfold capture.
      destruct (k (String c s)) as [[gs' rest']|] eqn:Hks; [| discriminate].
      intros [= <- <-]. destruct (Hk _ _ _ Hks) as [Hfit Hpre].
      split; [| exact Hpre].
      exists EmptyString, gs'. by rewrite append_nil_r. }
    destruct (in_class cl c) eqn:Hc; [| by apply Hstop].
    destruct (group_star cl k (acc +:+ String c EmptyString) s)
      as [r|] eqn:Hstar; [| by apply Hstop].
    injection H as ->.
    destruct (IH _ _ _ (all_chars_snoc _ _ _ Hacc Hc) Hstar)
      as [(more & gs' & -> & Hall & Hfit) [pre ->]].
    rewrite append_assoc in Hall |- *.
    split; [| by exists (String c pre)].
    by exists (String c more), gs'.
Qed.

Lemma sound_group_star (shapes : list (string -> Prop)) (cl : cclass)
    (k : cont) :
  sound shapes k ->
  sound (all_in cl :: shapes) (group_star cl k EmptyString).
Proof.
  intros Hk s gs rest H.
  destruct (group_star_sound shapes cl k Hk s EmptyString gs rest eq_refl H)
    as [(more & gs' & -> & Hall & Hfit) Hpre].
  split; [| exact Hpre]. by constructor.
Qed.

Lemma sound_group_plus (shapes : list (string -> Prop)) (cl : cclass)
    (k : cont) :
  sound shapes k ->
  sound ((fun g => all_in cl g /\ g <> EmptyString) :: shapes)
        (group_plus cl k).
Proof.
  intros Hk s gs rest H. unfold group_plus in H.
  destruct s as [|c s]; [discriminate |].
  destruct (in_class cl c) eqn:Hc; [| discriminate].
  assert (Hacc : all_in cl (String c EmptyString)).
  { unfold all_in. simpl. by rewrite Hc. }
  destruct (group_star_sound shapes cl k Hk s _ gs rest Hacc H)
    as [(more & gs' & -> & Hall & Hfit) [pre ->]].
  split; [| by exists (String c pre)].
  constructor; [| exact Hfit]. split; [exact Hall | discriminate].
Qed.

Lemma sound_group_alt (shapes : list (string -> Prop)) (alts : list string)
    (k : cont) :
  sound shapes k ->
  sound ((fun g => g ∈ alts) :: shapes) (group_alt alts k).
Proof.
  intros Hk.
  assert (H : forall l : list string,
             (forall a, a ∈ l -> a ∈ alts) ->
             sound ((fun g => g ∈ alts) :: shapes) (group_alt l k)).
  { induction l as [|a l IH]; intros Hl s gs rest H; [discriminate |].
    simpl in H.
    destruct (lit a (fun rest0 => capture a (k rest0)) s) as [r|] eqn:Ha.
    - injection H as ->.
      assert (Hc : sound ((fun g => g ∈ alts) :: shapes)
                         (fun rest0 => capture a (k rest0))).
      { intros s' gs' rest' H'. unfold capture in H'.
        destruct (k s') as [[gs0 rest0]|] eqn:Hks; [| discriminate].
        injection H' as <- <-. destruct (Hk _ _ _ Hks) as [Hfit Hpre].
        split; [| exact Hpre]. constructor; [| exact Hfit].
        apply Hl, list_elem_of_here. }
      by apply (sound_lit _ a _ Hc).
    - apply (IH (fun a' Ha' => Hl a' (list_elem_of_further _ _ _ Ha')) _ _ _ H). }
  by apply H.
Qed.

(** The groups of a match of a pattern have the shapes of its group
    items, one for one and in order, and what the match leaves unread is
    a suffix of the text. *)
Lemma matcher_sound (p : pattern) : sound (group_shapes p) (matcher p).
Proof.
  induction p as [|it p IH].
  - intros s gs rest [= <- <-]. split; [constructor | by exists EmptyString].
  - destruct it as [l|cl|cl|cl|cl|cl|cl|alts]; simpl.
    + by apply sound_lit.
    + by apply sound_one.
    + by apply sound_opt.
    + by apply sound_star.
    + by apply sound_one, sound_star.
    + by apply sound_group_star.
    + by apply sound_group_plus.
    + by apply sound_group_alt.
Qed.

(** A match object holds groups of the shapes, and its text is the part
    of the input that the match read. *)
Lemma match_at_sound (p : pattern) (s : string) (m : Match) :
  match_at p s = Some m ->
  fits (group_shapes p) (groups m)
  /\ exists rest : string, s = whole m +:+ rest.
Proof.
  unfold match_at. destruct (matcher p s) as [[gs rest]|] eqn:Hm;
    [| discriminate].
  intros [= <-]. simpl.
  destruct (matcher_sound p _ _ _ Hm) as [Hfit [pre ->]].
  split; [exact Hfit |]. exists rest.
  rewrite len_app, Nat.add_sub. by rewrite take_app_len.
Qed.

Lemma search_sound (p : pattern) (s : string) (m : Match) :
  search p s = Some m ->
  fits (group_shapes p) (groups m)
  /\ exists before after : string, s = before +:+ whole m +:+ after.
Proof.
  induction s as [|c s IH]; simpl.
  - destruct (match_at p EmptyString) as [m'|] eqn:Hm; [| discriminate].
    intros [= <-]. destruct (match_at_sound _ _ _ Hm) as [Hfit [rest Hrest]].
    split; [exact Hfit |]. by exists EmptyString, rest.
  - destruct (match_at p (String c s)) as [m'|] eqn:Hm.
    + intros [= <-].
      destruct (match_at_sound _ _ _ Hm) as [Hfit [rest Hrest]].
      split; [exact Hfit |]. by exists EmptyString, rest.
    + intros H. destruct (IH H) as [Hfit (before & after & ->)].
      split; [exact Hfit |]. by exists (String c before), after.
Qed.


End MatcherFacts.

(* ===================================================================== *)
(** ** The pattern of quoted URLs *)
(* ===================================================================== *)

Section QuotedUrlPattern.
Import Re ReSpec EnhancedCodeAnalyzer MoreSpec.






End QuotedUrlPattern.

(* ===================================================================== *)
(** ** More on the step parser *)
(* ===================================================================== *)

Section ParserMore.
Import Re ReSpec EnhancedCodeAnalyzer Spec MoreSpec.

(** What holds of the steps of every rule holds of the steps of a text. *)
Lemma first_match_Forall (P : Step -> Prop) (rs : list rule) (n : nat)
    (line : string) :
  Forall (fun r => forall steps, r n line = Some steps -> Forall P steps) rs ->
  Forall P (first_match rs n line).
Proof.
  induction 1 as [|r rs Hr _ IH]; simpl; [constructor |].
  destruct (r n line) as [steps|] eqn:Hsteps; [by apply Hr | exact IH].
Qed.

Lemma parse_lines_Forall (P : Step -> Prop) (l : list (nat * string)) :
  (forall n raw, Forall P (parse_line n raw)) ->
  Forall P (flat_map (fun '(n, raw) => parse_line n raw) l).
Proof.
  intros H. apply Forall_flat_map, Forall_forall. by intros [n raw] _.
Qed.

Lemma not_quote_quote_free (g : string) : all_in not_quote g -> quote_free g.
Proof.
  unfold all_in, quote_free. intros <-. apply all_chars_ext.
  intros c. unfold Py.is_quote. simpl. by rewrite orb_false_r.
Qed.

Lemma nonempty_truthy (g : string) : g <> EmptyString -> Py.truthy g = true.
Proof. by destruct g. Qed.

(** The groups of a match of a pattern of the parser. *)
Ltac groups_of Hsearch :=
  let Hfit := fresh "Hfit" in
  destruct (search_sound _ _ _ Hsearch) as [Hfit _];
  unfold fits in Hfit;
  cbv [group_shapes chain_pattern url_assert_pattern nav_pattern
         click_pattern type_pattern call flat_map group_shape app] in Hfit;
  repeat
    (let g := fresh "g" in
     let Hg := fresh "Hg" in
     let Hgs := fresh "Hgs" in
     apply Forall2_cons_inv_l in Hfit as (g & ? & Hg & Hfit & Hgs));
  apply Forall2_nil_inv_l in Hfit; subst;
  unfold group;
  repeat match goal with H : groups _ = _ |- _ => rewrite H end;
  simpl nth.

Lemma rules_well_formed (n : nat) (line : string) :
  Forall (fun r => forall steps, r n line = Some steps ->
                                 Forall well_formed steps) rules.
Proof.
  unfold rules.
  repeat apply Forall_cons_2; [.. | constructor]; intros steps.
  - unfold chain_rule.
    destruct (search chain_pattern line) as [m|] eqn:Hm; [| discriminate].
    intros [= <-]. groups_of Hm.
    destruct Hg as [Hq1 Hne1].
    repeat constructor; simpl;
      try (by apply not_quote_quote_free); by apply nonempty_truthy.
  - unfold url_assert_rule.
    destruct (search url_assert_pattern line) as [m|] eqn:Hm; [| discriminate].
    intros [= <-]. groups_of Hm.
    destruct Hg as [Hq1 Hne1].
    repeat constructor; simpl;
      try (by apply not_quote_quote_free); by apply nonempty_truthy.
  - unfold navigation_rule.
    destruct (search nav_pattern line) as [m|] eqn:Hm; [| discriminate].
    intros [= <-]. groups_of Hm.
    destruct Hg0 as [Hq1 Hne1].
    repeat constructor; simpl;
      try (by apply not_quote_quote_free); by apply nonempty_truthy.
  - unfold click_rule.
    destruct (search click_pattern line) as [m|] eqn:Hm; [| discriminate].
    intros [= <-]. groups_of Hm.
    destruct Hg as [Hq1 Hne1].
    repeat constructor; simpl;
      try (by apply not_quote_quote_free); by apply nonempty_truthy.
  - unfold type_rule. destruct (Py.contains _ _); [discriminate |].
    destruct (search type_pattern line) as [m|] eqn:Hm; [| discriminate].
    intros [= <-]. groups_of Hm.
    destruct Hg as [Hq1 Hne1].
    repeat constructor; simpl;
      try (by apply not_quote_quote_free); by apply nonempty_truthy.
Qed.

Lemma parse_line_well_formed (n : nat) (raw : string) :
  Forall well_formed (parse_line n raw).
Proof.
  unfold parse_line. destruct (_ || _); [constructor |].
  apply first_match_Forall, rules_well_formed.
Qed.

(** What holds of the steps of every line holds of the steps of a text. *)
Lemma parse_test_steps_Forall (P : Step -> Prop) (code : string) :
  (forall n raw, Forall P (parse_line n raw)) ->
  Forall P (parse_test_steps code).
Proof.
  intros H. rewrite parse_test_steps_parse_lines. unfold parse_lines.
  by apply parse_lines_Forall.
Qed.

(** X2. Every step that the parser emits is well formed: its selector,
    value, url and expected value hold no quote character, and the field
    that its kind needs (the url of a navigation, the expected value of a
    URL assertion, the selector otherwise) is not empty. *)
Theorem parse_test_steps_well_formed (code : string) :
  Forall well_formed (parse_test_steps code).
Proof.
  apply parse_test_steps_Forall, parse_line_well_formed.
Qed.

End ParserMore.

(* ===================================================================== *)
(** ** The generators on the steps of the parser *)
(* ===================================================================== *)

Section GeneratorsMore.
Import ReSpec EnhancedCodeAnalyzer DynamicPlaywrightGenerator Spec MoreSpec.

Lemma lstrip_quote_free (s : string) :
  quote_free s -> Py.lstrip Py.is_quote s = s.
Proof.
  unfold quote_free. destruct s as [|c s]; [reflexivity |]. simpl.
  intros H. apply andb_prop in H as [Hc _].
  apply negb_true_iff in Hc. by rewrite Hc.
Qed.

Lemma rstrip_quote_free (s : string) :
  quote_free s -> Py.rstrip Py.is_quote s = s.
Proof.
  unfold quote_free. induction s as [|c s IH]; [reflexivity |]. simpl.
  intros H. apply andb_prop in H as [Hc Hs].
  apply negb_true_iff in Hc. rewrite (IH Hs), Hc. by destruct s.
Qed.

Lemma clean_selector_quote_free (s : string) :
  quote_free s -> _preserve_clean_selector s = s.
Proof.
  intros H. unfold _preserve_clean_selector, Py.strip_quotes, Py.strip_chars.
  by rewrite lstrip_quote_free, rstrip_quote_free.
Qed.

Lemma parser_step_rendered (step : Step) :
  parser_kind step -> well_formed step -> rendered_in_full step.
Proof.
  intros (Hin & _ & _) (Hsel & _ & _ & _ & Hkey).
  unfold rendered_in_full, step_lines.
  unfold key_field in Hkey. unfold parser_kinds in Hin.
  repeat (apply elem_of_cons in Hin as [Hkind|Hin]);
    [.. | by apply not_elem_of_nil in Hin];
    rewrite Hkind in Hkey |- *; simpl in Hkey;
    eexists; (split; [reflexivity |]); (split; [reflexivity |]);
    (split; [| by apply clean_selector_quote_free]).
  - unfold _generate_navigation_step. by rewrite Hkey.
  - unfold _generate_click_step. by rewrite Hkey.
  - unfold _generate_input_step. rewrite Hkey.
    by destruct (Py.truthy (get (value step) EmptyString)).
  - unfold _generate_url_assertion_step. by rewrite Hkey.
  - unfold _generate_value_assertion_step. rewrite Hkey.
    by destruct (Py.truthy (get (expected_value step) EmptyString)).
Qed.

Lemma parse_line_rendered (n : nat) (raw : string) :
  Forall rendered_in_full (parse_line n raw).
Proof.
  eapply Forall_impl;
    [apply Forall_and; split;
       [apply parse_line_kinds | apply parse_line_well_formed] |].
  intros step [Hkind Hwf]. by apply parser_step_rendered.
Qed.

(** X3. Every step that the analyzer parses is rendered by the Playwright
    generator as a line of its rule that is not a placeholder comment, with
    the selector exactly as parsed; so the test generated for the analysis
    of a text holds one such line for each step, in order. *)
Theorem analyzer_steps_rendered_in_full (code file : string) (w : World) :
  let analysis := fst (analyze_code code file w) in
  Forall rendered_in_full (parsed_steps analysis)
  /\ generate_playwright_test analysis
     = test_prelude analysis +:+ test_body (parse_test_steps code)
       +:+ suite_footer.
Proof.
  intros analysis.
  assert (Hsteps : parsed_steps analysis = parse_test_steps code).
  { subst analysis. unfold analyze_code, datetime_now.
    by destruct (detect_language_and_framework file code). }
  split.
  - rewrite Hsteps. apply parse_test_steps_Forall, parse_line_rendered.
  - by rewrite generate_playwright_test_shape, Hsteps.
Qed.

(* ------------------------------------------------------------------- *)

Lemma gherkin_append_step (feature_content : string) (step : Step) :
  EnhancedGherkinGenerator.append_step feature_content step
  = feature_content +:+ gherkin_line step.
Proof.
  unfold gherkin_line, EnhancedGherkinGenerator.append_step.
  repeat case_bool_decide; try reflexivity.
  destruct (Py.startswith _ _); [reflexivity | by rewrite append_nil_r].
Qed.

Lemma gherkin_append_steps (steps : list Step) (feature_content : string) :
  fold_left EnhancedGherkinGenerator.append_step steps feature_content
  = feature_content +:+ scenario_body steps.
Proof.
  revert feature_content.
  induction steps as [|step steps IH]; intros feature_content; simpl.
  - by rewrite append_nil_r.
  - by rewrite IH, gherkin_append_step, append_assoc.
Qed.

Lemma generate_gherkin_feature_shape (analysis : Analysis) :
  EnhancedGherkinGenerator.generate_gherkin_feature analysis
  = feature_prelude analysis +:+ scenario_body (parsed_steps analysis).
Proof.
  unfold EnhancedGherkinGenerator.generate_gherkin_feature, feature_prelude.
  rewrite gherkin_append_steps.
  destruct (primary_url analysis) as [primary|];
    [destruct (Py.truthy primary) |];
    by rewrite ?append_nil_l, ?append_assoc.
Qed.

Lemma scenario_body_app (l1 l2 : list Step) :
  scenario_body (l1 ++ l2) = scenario_body l1 +:+ scenario_body l2.
Proof.
  induction l1 as [|step l1 IH]; simpl; [reflexivity |].
  by rewrite IH, append_assoc.
Qed.

Lemma parser_step_gherkin_line (step : Step) :
  parser_kind step -> is_scenario_line (gherkin_line step) = true.
Proof.
  intros (Hin & _ & Htype). unfold gherkin_line,
    EnhancedGherkinGenerator.append_step.
  rewrite Htype. simpl. unfold parser_kinds in Hin.
  repeat (apply elem_of_cons in Hin as [->|Hin]);
    [.. | by apply not_elem_of_nil in Hin]; reflexivity.
Qed.

(** X4. The Gherkin feature is its prelude followed by the lines of the
    steps in order, so that the scenario of two lists of steps put
    together is the scenario of the first followed by that of the second;
    every step that the analyzer parses gives a When or a Then line; a
    step of kind wait or assertion, which the Playwright generator renders,
    gives no line. *)
Theorem gherkin_scenario_lines (code file : string) (w : World) :
  let analysis := fst (analyze_code code file w) in
  EnhancedGherkinGenerator.generate_gherkin_feature analysis
  = feature_prelude analysis +:+ scenario_body (parse_test_steps code)
  /\ Forall (fun step => is_scenario_line (gherkin_line step) = true)
            (parse_test_steps code)
  /\ (forall l1 l2 : list Step,
        scenario_body (l1 ++ l2) = scenario_body l1 +:+ scenario_body l2)
  /\ (forall step : Step,
        dispatch_kind step ∈ ["wait"; "assertion"; "unknown"] ->
        gherkin_line step = EmptyString).
Proof.
  intros analysis.
  assert (Hsteps : parsed_steps analysis = parse_test_steps code).
  { subst analysis. unfold analyze_code, datetime_now.
    by destruct (detect_language_and_framework file code). }
  split; [by rewrite generate_gherkin_feature_shape, Hsteps |].
  split.
  { apply parse_test_steps_Forall. intros n raw.
    eapply Forall_impl; [apply parse_line_kinds |].
    apply parser_step_gherkin_line. }
  split; [apply scenario_body_app |].
  intros step Hin. unfold gherkin_line, EnhancedGherkinGenerator.append_step.
  unfold dispatch_kind in Hin.
  destruct (type step) as [k|]; simpl in *.
  - repeat (apply elem_of_cons in Hin as [->|Hin]);
      [.. | by apply not_elem_of_nil in Hin]; reflexivity.
  - reflexivity.
Qed.

End GeneratorsMore.

(* ===================================================================== *)
(** ** The steps and the lines of the text *)
(* ===================================================================== *)

Section ParserLines.
Import Re ReSpec EnhancedCodeAnalyzer Spec MoreSpec.

Lemma rules_from_line (n : nat) (line : string) :
  Forall (fun r : rule => forall steps, r n line = Some steps ->
            Forall (fun step => line_number step = n
                                /\ original_code step = line) steps
            /\ length steps <= 2) rules.
Proof.
  unfold rules.
  repeat apply Forall_cons_2; [.. | constructor]; intros steps.
  - unfold chain_rule. destruct (search _ _); [| discriminate].
    intros [= <-]. split; [by repeat constructor | simpl; lia].
  - unfold url_assert_rule. destruct (search _ _); [| discriminate].
    intros [= <-]. split; [by repeat constructor | simpl; lia].
  - unfold navigation_rule. destruct (search _ _); [| discriminate].
    intros [= <-]. split; [by repeat constructor | simpl; lia].
  - unfold click_rule. destruct (search _ _); [| discriminate].
    intros [= <-]. split; [by repeat constructor | simpl; lia].
  - unfold type_rule. destruct (Py.contains _ _); [discriminate |].
    destruct (search _ _); [| discriminate].
    intros [= <-]. split; [by repeat constructor | simpl; lia].
Qed.

Lemma first_match_from_line (rs : list rule) (n : nat) (line : string) :
  Forall (fun r : rule => forall steps, r n line = Some steps ->
            Forall (fun step => line_number step = n
                                /\ original_code step = line) steps
            /\ length steps <= 2) rs ->
  Forall (fun step => line_number step = n /\ original_code step = line)
         (first_match rs n line)
  /\ length (first_match rs n line) <= 2.
Proof.
  induction 1 as [|r rs Hr _ IH]; simpl; [split; [constructor | lia] |].
  destruct (r n line) as [steps|] eqn:Hsteps; [by apply Hr | exact IH].
Qed.

Lemma parse_line_from_line (n : nat) (raw : string) :
  Forall (fun step => from_line n raw step
                      /\ skipped (original_code step) = false)
         (parse_line n raw)
  /\ length (parse_line n raw) <= 2.
Proof.
  unfold parse_line.
  destruct (is_blank _ || is_comment _) eqn:Hskip;
    [split; [constructor | simpl; lia] |].
  destruct (first_match_from_line rules n (Py.strip raw)
              (rules_from_line n (Py.strip raw))) as [Hall Hlen].
  split; [| exact Hlen].
  eapply Forall_impl; [exact Hall |].
  intros step [Hn Hcode]. unfold from_line.
  by rewrite Hcode, skipped_blank_or_comment.
Qed.

Lemma enumerate_lookup {A} (l : list A) (start n : nat) (x : A) :
  (n, x) ∈ Py.enumerate start l -> start <= n /\ l !! (n - start) = Some x.
Proof.
  revert start. induction l as [|y l IH]; intros start; simpl.
  - by intros ?%not_elem_of_nil.
  - intros [[= -> ->]|Hin]%elem_of_cons.
    + split; [lia |]. by rewrite Nat.sub_diag.
    + apply IH in Hin as [Hle Hl]. split; [lia |].
      replace (n - start) with (S (n - S start)) by lia. exact Hl.
Qed.

Lemma enumerate_app {A} (l1 l2 : list A) (start : nat) :
  Py.enumerate start (l1 ++ l2)
  = Py.enumerate start l1 ++ Py.enumerate (start + length l1) l2.
Proof.
  revert start. induction l1 as [|x l1 IH]; intros start; simpl.
  - by rewrite Nat.add_0_r.
  - rewrite IH. do 3 f_equal. lia.
Qed.

Lemma enumerate_length {A} (l : list A) (start : nat) :
  length (Py.enumerate start l) = length l.
Proof.
  revert start. induction l as [|x l IH]; intros start; simpl;
    [reflexivity | by rewrite IH].
Qed.

Lemma parse_enumerated_from (l : list string) (start : nat) :
  Forall (fun step => exists raw,
            start <= line_number step
            /\ l !! (line_number step - start) = Some raw
            /\ original_code step = Py.strip raw
            /\ skipped (original_code step) = false)
         (flat_map (fun '(n, raw) => parse_line n raw) (Py.enumerate start l)).
Proof.
  apply Forall_flat_map, Forall_forall. intros [n raw] Hin.
  apply enumerate_lookup in Hin as [Hle Hl].
  eapply Forall_impl; [apply (parse_line_from_line n raw) |].
  intros step [[Hn Hcode] Hskip]. exists raw. by rewrite Hn.
Qed.

Lemma parse_enumerated_sorted (l : list string) (start : nat) :
  in_line_order
    (flat_map (fun '(n, raw) => parse_line n raw) (Py.enumerate start l)).
Proof.
  unfold in_line_order. revert start.
  induction l as [|raw l IH]; intros start; simpl; [constructor |].
  apply StronglySorted_app_2; [| | apply IH].
  - intros a b Ha Hb.
    pose proof (proj1 (parse_line_from_line start raw)) as Hfirst.
    rewrite Forall_forall in Hfirst. destruct (Hfirst a Ha) as [[-> _] _].
    pose proof (parse_enumerated_from l (S start)) as Hrest.
    rewrite Forall_forall in Hrest. destruct (Hrest b Hb) as (_ & Hle & _).
    lia.
  - pose proof (proj1 (parse_line_from_line start raw)) as Hfirst.
    induction Hfirst as [|a steps [[Ha _] _] Hsteps IHsteps]; constructor;
      [exact IHsteps |].
    eapply Forall_impl; [exact Hsteps |].
    intros b [[Hb _] _]. lia.
Qed.

Lemma parse_enumerated_length (l : list (nat * string)) :
  length (flat_map (fun '(n, raw) => parse_line n raw) l) <= 2 * length l.
Proof.
  induction l as [|[n raw] l IH]; simpl; [lia |].
  rewrite length_app.
  pose proof (proj2 (parse_line_from_line n raw)). lia.
Qed.

(** X5. Every step that the parser emits comes from a line of the text:
    its line number is the number of that line, counted from 1, its
    original code is that line stripped, and that line is neither blank
    nor a comment.  The steps are in the order of their lines, and there
    are at most two for each line. *)
Theorem parse_test_steps_lines (code : string) :
  Forall (from_text code) (parse_test_steps code)
  /\ in_line_order (parse_test_steps code)
  /\ length (parse_test_steps code) <= 2 * length (Py.split Py.LF code).
Proof.
  rewrite parse_test_steps_parse_lines. unfold parse_lines.
  split; [| split].
  - eapply Forall_impl; [apply parse_enumerated_from |].
    intros step (raw & Hle & Hl & Hcode & Hskip). exists raw.
    by repeat split.
  - apply parse_enumerated_sorted.
  - etrans; [apply parse_enumerated_length |].
    by rewrite enumerate_length.
Qed.

(* ------------------------------------------------------------------- *)

Lemma split_not_nil (sep : ascii) (a : string) : Py.split sep a <> [].
Proof.
  destruct a as [|c a]; simpl; [discriminate |].
  destruct (Ascii.eqb c sep); [discriminate |].
  by destruct (Py.split sep a).
Qed.

Lemma split_then (sep : ascii) (a b : string) :
  Py.split sep (a +:+ String sep b) = Py.split sep a ++ Py.split sep b.
Proof.
  induction a as [|c a IH].
  - rewrite append_nil_l. simpl. by rewrite Ascii.eqb_refl.
  - rewrite append_cons. simpl. rewrite IH.
    destruct (Ascii.eqb c sep); [reflexivity |].
    destruct (Py.split sep a) as [|h t] eqn:Ha; [| reflexivity].
    by destruct (split_not_nil sep a).
Qed.

Lemma rule_shift (k n : nat) (line : string) :
  Forall (fun r : rule =>
            r (k + n) line = option_map (map (shift k)) (r n line)) rules.
Proof.
  unfold rules.
  repeat apply Forall_cons_2; [.. | constructor].
  - unfold chain_rule. by destruct (search _ _).
  - unfold url_assert_rule. by destruct (search _ _).
  - unfold navigation_rule. by destruct (search _ _).
  - unfold click_rule. by destruct (search _ _).
  - unfold type_rule. destruct (Py.contains _ _); [reflexivity |].
    by destruct (search _ _).
Qed.

Lemma first_match_shift (rs : list rule) (k n : nat) (line : string) :
  Forall (fun r : rule =>
            r (k + n) line = option_map (map (shift k)) (r n line)) rs ->
  first_match rs (k + n) line = map (shift k) (first_match rs n line).
Proof.
  induction 1 as [|r rs Hr _ IH]; simpl; [reflexivity |].
  rewrite Hr. by destruct (r n line).
Qed.

Lemma parse_line_shift (k n : nat) (raw : string) :
  parse_line (k + n) raw = map (shift k) (parse_line n raw).
Proof.
  unfold parse_line. destruct (_ || _); [reflexivity |].
  apply first_match_shift, rule_shift.
Qed.

Lemma parse_enumerated_shift (l : list string) (k start : nat) :
  flat_map (fun '(n, raw) => parse_line n raw) (Py.enumerate (k + start) l)
  = map (shift k)
      (flat_map (fun '(n, raw) => parse_line n raw) (Py.enumerate start l)).
Proof.
  revert start. induction l as [|raw l IH]; intros start; simpl;
    [reflexivity |].
  rewrite map_app, parse_line_shift. f_equal.
  rewrite <- IH. by rewrite Nat.add_succ_r.
Qed.

Lemma weighted_sum_shift (k : nat) (steps : list Step) :
  weighted_sum (map (shift k) steps) = weighted_sum steps.
Proof.
  induction steps as [|step steps IH]; simpl; [reflexivity |].
  by rewrite IH.
Qed.

Lemma parse_then_script (a b : string) :
  parse_test_steps (then_script a b)
  = parse_test_steps a
    ++ map (shift (length (Py.split Py.LF a))) (parse_test_steps b).
Proof.
  rewrite !parse_test_steps_parse_lines. unfold parse_lines, then_script.
  rewrite split_then, enumerate_app, flat_map_app. f_equal.
  rewrite Nat.add_comm. apply parse_enumerated_shift.
Qed.

(** X6. The steps of two scripts put one after the other on separate
    lines are the steps of the first followed by the steps of the second
    with their line numbers moved by the number of lines of the first; so
    the number of steps and the complexity score of the whole are the
    sums of those of the parts. *)
Theorem parse_test_steps_then_script (a b : string) :
  let steps := parse_test_steps (then_script a b) in
  steps = parse_test_steps a
          ++ map (shift (length (Py.split Py.LF a))) (parse_test_steps b)
  /\ length steps
     = length (parse_test_steps a) + length (parse_test_steps b)
  /\ calculate_complexity_score steps
     = calculate_complexity_score (parse_test_steps a)
       + calculate_complexity_score (parse_test_steps b).
Proof.
  intros steps. subst steps. rewrite parse_then_script.
  split; [reflexivity |].
  split; [by rewrite length_app, length_map |].
  unfold calculate_complexity_score. rewrite !score_from.
  by rewrite weighted_sum_app, weighted_sum_shift.
Qed.

End ParserLines.

(* ===================================================================== *)
(** ** More on the analyzer: file names, frameworks, metrics *)
(* ===================================================================== *)

Section AnalyzerMore.
Import Re ReSpec EnhancedCodeAnalyzer Spec MoreSpec.

#[local] Abbreviation sanitize := (Re.sub_class unsafe_char "_").

Lemma sanitize_len (s : string) : Py.len (sanitize s) = Py.len s.
Proof.
  induction s as [|c s IH]; [reflexivity |].
  rewrite sanitize_cons. destruct (unsafe_char c);
    rewrite append_cons, append_nil_l; simpl; by rewrite IH.
Qed.

Lemma unsafe_not_kept (c : ascii) : unsafe_char c = negb (kept_char c).
Proof.
  unfold unsafe_char, kept_char, is_word.
  destruct (Py.isalnum c), (Ascii.eqb c "-"), (Ascii.eqb c "_"); reflexivity.
Qed.

Lemma sanitize_fixed (s : string) :
  sanitize s = s <-> Py.all_chars kept_char s = true.
Proof.
  induction s as [|c s IH]; [done |].
  rewrite sanitize_cons. simpl. rewrite unsafe_not_kept.
  destruct (kept_char c) eqn:Hc; simpl;
    rewrite append_cons, append_nil_l.
  - rewrite <- IH. split; [by intros [= ->] | by intros ->].
  - split; [| done]. intros [= <- _].
    vm_compute in Hc. discriminate.
Qed.

(** X7. The normalization of file names keeps the length of the name, is
    idempotent, and leaves unchanged exactly the names made of word
    characters and dashes. *)
Theorem normalize_filename_stable (filename : string) :
  Py.len (normalize_filename filename) = Py.len filename
  /\ normalize_filename (normalize_filename filename)
     = normalize_filename filename
  /\ (normalize_filename filename = filename <-> plain_name filename).
Proof.
  rewrite !normalize_filename_sanitize.
  split; [apply sanitize_len |].
  split; [| apply sanitize_fixed].
  apply sanitize_fixed.
  rewrite all_chars_sanitize by reflexivity.
  rewrite (all_chars_ext _ (fun _ => true)) by apply kept_or_unsafe.
  by induction filename.
Qed.

(* ------------------------------------------------------------------- *)

Lemma fold_score_positive (code : string) (w : nat) (l : list string)
    (score : nat) :
  0 < w ->
  (0 < fold_left
         (fun score k => if Py.contains k code then score + w else score)
         l score
   <-> 0 < score \/ exists k, k ∈ l /\ Py.contains k code = true).
Proof.
  intros Hw. revert score.
  induction l as [|k l IH]; intros score; simpl.
  - split; [by left |]. intros [H|(k & Hk & _)]; [done |].
    by apply not_elem_of_nil in Hk.
  - rewrite IH. split.
    + intros [H|(k' & Hk' & Hc)].
      * destruct (Py.contains k code) eqn:Hc; [| by left].
        right. exists k. split; [left | done].
      * right. exists k'. split; [by right | done].
    + intros [H|(k' & Hk' & Hc)].
      * left. destruct (Py.contains k code); lia.
      * apply elem_of_cons in Hk' as [->|Hk'].
        -- left. rewrite Hc. lia.
        -- right. by exists k'.
Qed.

Lemma framework_score_positive (patterns : FrameworkPattern) (code : string) :
  0 < weight patterns ->
  (0 < framework_score patterns code <-> occurs code patterns).
Proof.
  intros Hw. unfold framework_score, occurs.
  rewrite fold_score_positive by lia.
  rewrite fold_score_positive by done.
  split.
  - intros [[H|(k & Hk & Hc)]|(k & Hk & Hc)]; [lia | |];
      exists k; (split; [| done]); apply elem_of_app; auto.
  - intros (k & [Hk|Hk]%elem_of_app & Hc); [left; right | right];
      by exists k.
Qed.

Lemma weights_positive :
  Forall (fun x => 0 < weight (snd x)) framework_patterns.
Proof. unfold framework_patterns. repeat constructor. Qed.

Lemma listed_frameworks (code : string) (tbl : list (string * FrameworkPattern))
    (acc : list (string * nat)) :
  fold_left
    (fun frameworks '(framework, patterns) =>
       let score := framework_score patterns code in
       if 0 <? score then frameworks ++ [(framework, score)] else frameworks)
    tbl acc
  = acc ++ filter (fun x => 0 < snd x)
             (map (fun '(framework, patterns) =>
                     (framework, framework_score patterns code)) tbl).
Proof.
  revert acc. induction tbl as [|[f p] tbl IH]; intros acc; simpl.
  - by rewrite app_nil_r.
  - rewrite IH, filter_cons. simpl.
    destruct (Nat.ltb_spec 0 (framework_score p code)).
    + rewrite decide_True by done. by rewrite <- app_assoc.
    + by rewrite decide_False by lia.
Qed.

Lemma insert_by_score_perm (x : string * nat) (l : list (string * nat)) :
  insert_by_score x l ≡ₚ x :: l.
Proof.
  induction l as [|y l IH]; simpl; [done |].
  destruct (snd x <? snd y); [| done].
  rewrite IH. apply perm_swap.
Qed.

Lemma sort_by_score_perm (l : list (string * nat)) : sort_by_score l ≡ₚ l.
Proof.
  induction l as [|x l IH]; simpl; [done |].
  by rewrite insert_by_score_perm, IH.
Qed.

Lemma insert_by_score_sorted (x : string * nat) (l : list (string * nat)) :
  StronglySorted (fun a b => snd b <= snd a) l ->
  StronglySorted (fun a b => snd b <= snd a) (insert_by_score x l).
Proof.
  induction 1 as [|y l Hl IH Hy]; simpl; [by repeat constructor |].
  destruct (Nat.ltb_spec (snd x) (snd y)).
  - constructor; [exact IH |].
    rewrite insert_by_score_perm. constructor; [lia | exact Hy].
  - constructor; [by constructor |].
    constructor; [done |].
    eapply Forall_impl; [exact Hy |]. simpl. intros; lia.
Qed.

Lemma sort_by_score_sorted (l : list (string * nat)) :
  StronglySorted (fun a b => snd b <= snd a) (sort_by_score l).
Proof.
  induction l as [|x l IH]; simpl; [constructor |].
  by apply insert_by_score_sorted.
Qed.

Lemma scored_score_of (code : string) :
  Forall (fun x => snd x = score_of code (fst x)) (scored code).
Proof. unfold score_of, scored. by repeat constructor. Qed.

Lemma sorted_names (code : string) (l : list (string * nat)) :
  Forall (fun x => snd x = score_of code (fst x)) l ->
  StronglySorted (fun a b => snd b <= snd a) l ->
  StronglySorted (fun a b => score_of code b <= score_of code a) (map fst l).
Proof.
  intros Hall Hsorted.
  induction Hsorted as [|x l Hl IH Hx]; simpl; [constructor |].
  apply Forall_cons in Hall as [Hs Hall].
  constructor; [by apply IH |].
  apply Forall_fmap.
  eapply Forall_impl; [apply Forall_and; split; [exact Hall | exact Hx] |].
  simpl. intros y [Hy Hle]. by rewrite <- Hs, <- Hy.
Qed.

Lemma dict_get_values (d : list (string * string)) (k default : string) :
  dict_get d k default ∈ default :: map snd d.
Proof.
  induction d as [|[k' v] d IH]; simpl; [left |].
  case_bool_decide; [right; left |].
  apply elem_of_cons in IH as [->|IH]; [left | by do 2 right].
Qed.

(** X8. The frameworks that the analyzer lists are those of its table of
    which a keyword or an import occurs in the text, each once, in the
    order of their scores from the highest down; the language is one of
    the ten of the table of extensions. *)
Theorem detect_language_and_framework_listed (filename code : string) :
  let frameworks := snd (detect_language_and_framework filename code) in
  NoDup frameworks
  /\ (forall f : string,
        f ∈ frameworks
        <-> exists patterns, (f, patterns) ∈ framework_patterns
                             /\ occurs code patterns)
  /\ StronglySorted (fun a b => score_of code b <= score_of code a)
                    frameworks
  /\ fst (detect_language_and_framework filename code) ∈ languages.
Proof.
  intros frameworks. subst frameworks. unfold detect_language_and_framework.
  cbn [fst snd]. rewrite listed_frameworks, app_nil_l.
  fold (scored code).
  set (l := filter (fun x => 0 < snd x) (scored code)).
  assert (Hperm : map fst (sort_by_score l) ≡ₚ map fst l).
  { apply fmap_Permutation, sort_by_score_perm. }
  split; [| split; [| split]].
  - rewrite Hperm.
    assert (Hsub : map fst l `sublist_of` map fst (scored code)).
    { apply fmap_sublist, sublist_filter. }
    eapply sublist_NoDup; [| exact Hsub].
    unfold scored. simpl.
    repeat (apply NoDup_cons; split;
            [rewrite ?elem_of_cons, elem_of_nil; intuition discriminate |]).
    apply NoDup_nil_2.
  - intros f. rewrite Hperm. subst l. rewrite list_elem_of_fmap. split.
    + intros ([f' s] & -> & [Hpos Hin]%list_elem_of_filter).
      unfold scored in Hin. apply list_elem_of_fmap in Hin
        as ([f'' p] & [= -> ->] & Hin).
      exists p. split; [exact Hin |].
      apply framework_score_positive; [| exact Hpos].
      exact (proj1 (Forall_forall _ _) weights_positive _ Hin).
    + intros (p & Hin & Hocc).
      exists (f, framework_score p code). split; [reflexivity |].
      apply list_elem_of_filter. split.
      * simpl. apply framework_score_positive; [| exact Hocc].
        exact (proj1 (Forall_forall _ _) weights_positive _ Hin).
      * unfold scored. apply list_elem_of_fmap. by exists (f, p).
  - apply sorted_names; [| apply sort_by_score_sorted].
    rewrite sort_by_score_perm. subst l.
    apply Forall_forall. intros x [_ Hin]%list_elem_of_filter.
    exact (proj1 (Forall_forall _ _) (scored_score_of code) _ Hin).
  - assert (Hall : forall lang : string,
               lang ∈ "javascript" :: map snd language_map ->
               lang ∈ languages).
    { intros lang Hin. unfold languages. simpl in Hin.
      repeat (apply elem_of_cons in Hin as [->|Hin];
              [rewrite !elem_of_cons; tauto |]).
      by apply not_elem_of_nil in Hin. }
    apply Hall, dict_get_values.
Qed.

(* ------------------------------------------------------------------- *)

Lemma parser_kind_weight (step : Step) :
  parser_kind step -> 1 <= step_weight step <= 3.
Proof.
  intros (Hin & _ & Htype). unfold step_weight. rewrite Htype. simpl.
  unfold parser_kinds in Hin.
  repeat (apply elem_of_cons in Hin as [->|Hin]; [vm_compute; lia |]).
  by apply not_elem_of_nil in Hin.
Qed.

Lemma weighted_sum_bounds (steps : list Step) :
  Forall parser_kind steps ->
  length steps <= weighted_sum steps <= 3 * length steps.
Proof.
  induction 1 as [|step steps Hstep _ IH]; simpl; [lia |].
  apply parser_kind_weight in Hstep. lia.
Qed.

Lemma split_length (sep : ascii) (s : string) :
  1 <= length (Py.split sep s) <= Py.len s + 1.
Proof.
  induction s as [|c s IH]; simpl; [lia |].
  destruct (Ascii.eqb c sep); simpl; [lia |].
  destruct (Py.split sep s); simpl in *; lia.
Qed.

Lemma frameworks_at_most (filename code : string) :
  length (snd (detect_language_and_framework filename code)) <= 4.
Proof.
  unfold detect_language_and_framework. cbn [snd].
  rewrite listed_frameworks, app_nil_l, length_map.
  rewrite sort_by_score_perm.
  etrans; [apply length_filter |]. by rewrite length_map.
Qed.

(** X9. The numbers of an analysis agree with one another: the
    complexity score lies between the number of steps and three times
    that number, so that it is 0 exactly when no step was parsed; there
    are at most two steps for a line; the text has at least one line and
    at most one more than it has characters; at most four frameworks are
    counted; and real URLs are reported exactly when there is a primary
    URL. *)
Theorem analysis_numbers_agree (code file : string) (w : World) :
  let analysis := fst (analyze_code code file w) in
  let metrics := quality_metrics analysis in
  steps_parsed metrics <= complexity_score analysis
  /\ complexity_score analysis <= 3 * steps_parsed metrics
  /\ (complexity_score analysis = 0 <-> parsed_steps analysis = [])
  /\ steps_parsed metrics <= 2 * lines_count analysis
  /\ 1 <= lines_count analysis
  /\ lines_count analysis <= code_length analysis + 1
  /\ frameworks_count metrics <= 4
  /\ (has_real_urls metrics = true <-> is_Some (primary_url analysis)).
Proof.
  intros analysis metrics. subst metrics analysis.
  unfold analyze_code, datetime_now.
  pose proof (frameworks_at_most file code) as Hfw.
  destruct (detect_language_and_framework file code) as [language fws].
  cbn [fst snd quality_metrics steps_parsed complexity_score parsed_steps
         lines_count code_length frameworks_count has_real_urls primary_url]
    in *.
  assert (Hkinds : Forall parser_kind (parse_test_steps code)).
  { apply parse_test_steps_Forall, parse_line_kinds. }
  apply weighted_sum_bounds in Hkinds.
  unfold calculate_complexity_score. rewrite score_from, Nat.add_0_l.
  pose proof (split_length Py.LF code) as Hlines.
  assert (Hlen : length (parse_test_steps code)
                 <= 2 * length (Py.split Py.LF code)).
  { rewrite parse_test_steps_parse_lines. unfold parse_lines.
    etrans; [apply parse_enumerated_length |].
    by rewrite enumerate_length. }
  repeat split; try lia.
  - intros Hzero. destruct (parse_test_steps code); [done | simpl in *; lia].
  - by intros ->.
  - destruct (extract_real_urls code); simpl; [discriminate | by eexists].
  - destruct (extract_real_urls code); simpl; [by intros [? ?] | done].
Qed.

End AnalyzerMore.

(* ===================================================================== *)
(** ** The registry of the sockets *)
(* ===================================================================== *)

Section Connections.
Import ConnectionManager ConnectionSpec.

Lemma remove_first_sublist (x : WebSocket) (l : list WebSocket) :
  remove_first x l `sublist_of` l.
Proof.
  induction l as [|y l IH]; simpl; [constructor |].
  case_bool_decide; [by apply sublist_cons | by apply sublist_skip].
Qed.

Lemma remove_first_perm (x : WebSocket) (l : list WebSocket) :
  x ∈ l -> x :: remove_first x l ≡ₚ l.
Proof.
  induction l as [|y l IH]; simpl; [by intros ?%not_elem_of_nil |].
  case_bool_decide as Hy; [by subst |].
  intros [->|Hin]%elem_of_cons; [done |].
  rewrite perm_swap. by rewrite IH.
Qed.

Lemma remove_first_app (x : WebSocket) (g l : list WebSocket) :
  x ∉ g -> remove_first x (g ++ x :: l) = g ++ l.
Proof.
  induction g as [|y g IH]; simpl; intros Hx.
  - by rewrite bool_decide_eq_true_2.
  - apply not_elem_of_cons in Hx as [Hy Hg].
    rewrite bool_decide_eq_false_2 by done. by rewrite IH.
Qed.

(** Disconnecting the closed sockets of a list one by one leaves the
    sockets that are alive, in their order. *)
Lemma cleaned_alive (send_fails : WebSocket -> bool) (l g : list WebSocket) :
  Forall (fun c => send_fails c = false) g ->
  cleaned (closed send_fails l) (g ++ l) = g ++ alive send_fails l.
Proof.
  unfold cleaned, closed, alive. revert g.
  induction l as [|x l IH]; intros g Hg; simpl; [done |].
  rewrite !filter_cons. destruct (send_fails x) eqn:Hx.
  - rewrite decide_True, decide_False by done. simpl.
    rewrite bool_decide_eq_true_2
      by (apply elem_of_app; right; apply list_elem_of_here).
    rewrite remove_first_app; [by apply IH |].
    intros Hin. rewrite Forall_forall in Hg. apply Hg in Hin. congruence.
  - rewrite decide_False, decide_True by done.
    rewrite (cons_middle x g l), app_assoc, IH.
    + by rewrite <- app_assoc.
    + apply Forall_app. split; [exact Hg | by repeat constructor].
Qed.

Lemma send_all_split (send_fails : WebSocket -> bool) (l : list WebSocket) :
  send_all send_fails l = (alive send_fails l, closed send_fails l).
Proof.
  unfold alive, closed. induction l as [|x l IH]; simpl; [done |].
  rewrite IH, !filter_cons. destruct (send_fails x).
  - by rewrite decide_False, decide_True.
  - by rewrite decide_True, decide_False.
Qed.

Lemma disconnect_run (conn : WebSocket) (run_id : string) (m : Manager)
    (l : list WebSocket) :
  Py.truthy run_id = true ->
  run_connections m !! run_id = Some l ->
  run_connections (disconnect conn (Some run_id) m) !! run_id
  = Some (cleaned [conn] l)
  /\ (forall other, other <> run_id ->
        run_connections (disconnect conn (Some run_id) m) !! other
        = run_connections m !! other)
  /\ active_connections (disconnect conn (Some run_id) m)
       `sublist_of` active_connections m.
Proof.
  intros Hrun Hl. unfold disconnect, given. rewrite Hrun, Hl. simpl.
  split; [| split].
  - case_bool_decide; [by rewrite lookup_insert_eq | done].
  - intros other Hother.
    case_bool_decide; [by rewrite lookup_insert_ne | done].
  - case_bool_decide; [apply remove_first_sublist | done].
Qed.

Lemma disconnect_all (disconnected : list WebSocket) (run_id : string) :
  Py.truthy run_id = true ->
  forall (m : Manager) (l : list WebSocket),
    run_connections m !! run_id = Some l ->
    let m' :=
      fold_left (fun m conn => disconnect conn (Some run_id) m)
                disconnected m in
    run_connections m' !! run_id = Some (cleaned disconnected l)
    /\ (forall other, other <> run_id ->
          run_connections m' !! other = run_connections m !! other)
    /\ active_connections m' `sublist_of` active_connections m.
Proof.
  intros Hrun.
  induction disconnected as [|conn d IH]; intros m l Hl; simpl; [done |].
  destruct (disconnect_run conn run_id m l Hrun Hl) as (Hl' & Hother & Hact).
  destruct (IH _ _ Hl') as (Hfinal & Hothers & Hactive).
  split; [exact Hfinal |].
  split.
  - intros other Hne. by rewrite Hothers, Hother.
  - by etrans.
Qed.

(** X10. A broadcast to a run hands the message to the sockets of the
    run on which sending does not fail, in their order, and afterwards
    the run keeps exactly those sockets; the sockets of the other runs
    stay as they were and no socket is added to the active ones. *)
Theorem broadcast_to_run_cleans (send_fails : WebSocket -> bool)
    (run_id : string) (m : Manager) (connections : list WebSocket) :
  Py.truthy run_id = true ->
  run_connections m !! run_id = Some connections ->
  let after := broadcast_to_run send_fails run_id m in
  fst after = alive send_fails connections
  /\ run_connections (snd after) !! run_id
     = Some (alive send_fails connections)
  /\ (forall other : string, other <> run_id ->
        run_connections (snd after) !! other = run_connections m !! other)
  /\ active_connections (snd after) `sublist_of` active_connections m.
Proof.
  intros Hrun Hl after. subst after. unfold broadcast_to_run.
  rewrite Hl, send_all_split. cbn [fst snd].
  split; [reflexivity |].
  destruct (disconnect_all (closed send_fails connections) run_id Hrun
              m connections Hl) as (Hfinal & Hothers & Hactive).
  split; [| by split].
  rewrite Hfinal. f_equal.
  exact (cleaned_alive send_fails connections [] (Forall_nil_2 _)).
Qed.

Lemma broadcast_to_run_cleans_witness :
  fst (broadcast_to_run first_closed "run-1" two_sockets) = [2]
  /\ run_connections (snd (broadcast_to_run first_closed "run-1" two_sockets))
       !! "run-1" = Some [2].
Proof.
  assert (Hl : run_connections two_sockets !! "run-1" = Some [1; 2]).
  { by vm_compute. }
  destruct (broadcast_to_run_cleans first_closed "run-1" two_sockets [1; 2]
              eq_refl Hl) as (Hsent & Hrun & _).
  split; [exact Hsent | exact Hrun].
Defined.

(* ------------------------------------------------------------------- *)

Lemma connect_sockets (ws : WebSocket) (run_id : option string) (m : Manager)
    (r : string) :
  sockets_of r (connect ws run_id m)
  = if bool_decide (given run_id = Some r) then sockets_of r m ++ [ws]
    else sockets_of r m.
Proof.
  unfold sockets_of, connect. destruct (given run_id) as [r'|]; simpl.
  - case_bool_decide as Hr.
    + injection Hr as ->. rewrite lookup_insert_eq. simpl.
      by destruct (run_connections m !! r).
    + rewrite lookup_insert_ne; [done | congruence].
  - done.
Qed.

Lemma disconnect_sockets (ws : WebSocket) (run_id : option string)
    (m : Manager) (r : string) :
  sockets_of r (disconnect ws run_id m)
  = if bool_decide (given run_id = Some r) then cleaned [ws] (sockets_of r m)
    else sockets_of r m.
Proof.
  unfold sockets_of, disconnect, cleaned.
  destruct (given run_id) as [r'|]; simpl; [| done].
  destruct (decide (r' = r)) as [->|Hne].
  - rewrite (bool_decide_eq_true_2 (Some r = Some r)) by done.
    destruct (run_connections m !! r) as [l|] eqn:Hl; simpl.
    + case_bool_decide; [by rewrite lookup_insert_eq | by rewrite Hl].
    + by rewrite Hl.
  - rewrite (bool_decide_eq_false_2 (Some r' = Some r)) by congruence.
    destruct (run_connections m !! r') as [l|] eqn:Hl; simpl; [| done].
    case_bool_decide; [| done].
    by rewrite lookup_insert_ne.
Qed.

Lemma dom_connect (ws : WebSocket) (run_id : option string) (m : Manager) :
  dom (run_connections m) ⊆ dom (run_connections (connect ws run_id m)).
Proof.
  unfold connect. destruct (given run_id); simpl; [| done].
  apply dom_insert_subseteq.
Qed.

Lemma dom_disconnect (ws : WebSocket) (run_id : option string) (m : Manager) :
  dom (run_connections m) ⊆ dom (run_connections (disconnect ws run_id m)).
Proof.
  unfold disconnect. destruct (given run_id); simpl; [| done].
  destruct (run_connections m !! s); simpl; [| done].
  case_bool_decide; [apply dom_insert_subseteq | done].
Qed.

(** X11. The registry never forgets a run: connecting, disconnecting and
    broadcasting keep every key of the table of the runs, so that a run
    whose last socket left keeps an empty entry.  A socket that is
    connected and then disconnected leaves the sockets of every run and
    the active sockets as they were, up to their order. *)
Theorem run_connections_never_forgotten (send_fails : WebSocket -> bool)
    (ws : WebSocket) (run_id : option string) (r : string) (m : Manager) :
  dom (run_connections m) ⊆ dom (run_connections (connect ws run_id m))
  /\ dom (run_connections m) ⊆ dom (run_connections (disconnect ws run_id m))
  /\ dom (run_connections m)
     ⊆ dom (run_connections (snd (broadcast_to_run send_fails r m)))
  /\ sockets_of r (disconnect ws run_id (connect ws run_id m))
     ≡ₚ sockets_of r m
  /\ active_connections (disconnect ws run_id (connect ws run_id m))
     ≡ₚ active_connections m
  /\ run_connections (disconnect 1 (Some "run-1")
                        (connect 1 (Some "run-1") init)) !! "run-1"
     = Some [].
Proof.
  split; [apply dom_connect |].
  split; [apply dom_disconnect |].
  split.
  { unfold broadcast_to_run.
    destruct (run_connections m !! r) as [l|]; [| done].
    destruct (send_all send_fails l) as [sent disconnected]. cbn [snd].
    clear l sent. revert m.
    induction disconnected as [|conn d IH]; intros m; simpl; [done |].
    etrans; [apply (dom_disconnect conn (Some r)) | apply IH]. }
  split.
  { rewrite disconnect_sockets, connect_sockets.
    case_bool_decide; [| done].
    unfold cleaned. simpl.
    rewrite bool_decide_eq_true_2
      by (apply elem_of_app; right; apply list_elem_of_here).
    apply (Permutation_cons_inv (a := ws)).
    rewrite remove_first_perm
      by (apply elem_of_app; right; apply list_elem_of_here).
    by rewrite Permutation_app_comm. }
  split; [| by vm_compute].
  assert (Hactive :
            active_connections (disconnect ws run_id (connect ws run_id m))
            = remove_first ws (active_connections m ++ [ws])).
  { unfold disconnect, connect.
    destruct (given run_id) as [r'|] eqn:Hgiven; simpl.
    - rewrite lookup_insert_eq. simpl.
      by rewrite bool_decide_eq_true_2
        by (apply elem_of_app; right; apply list_elem_of_here).
    - by rewrite bool_decide_eq_true_2
        by (apply elem_of_app; right; apply list_elem_of_here). }
  rewrite Hactive.
  apply (Permutation_cons_inv (a := ws)).
  rewrite remove_first_perm
    by (apply elem_of_app; right; apply list_elem_of_here).
  by rewrite Permutation_app_comm.
Qed.

End Connections.

(* ===================================================================== *)
(** ** More on the workflows *)
(* ===================================================================== *)

Section SimulatedFacts.
Import SimulatedResults.
Local Open Scope Z_scope.

(** X12. The simulated execution reports as many tests as there are
    parsed steps, three when there is none; whatever number is drawn, at
    least one test passes, at most one fails, and passed and failed add
    up to the tests run; the status is warning exactly when 1 is drawn
    and the analysis does not hold exactly one step.  The base of the
    simulated coverage lies between 70 and 95 for every complexity
    score and is 95 from the score 13 on. *)
Theorem simulated_results_bounds (steps complexity : nat) (draw : Z) :
  0 <= draw <= 1 ->
  tests_passed steps draw + tests_failed steps draw = tests_run steps
  /\ 1 <= tests_passed steps draw
  /\ 0 <= tests_failed steps draw <= 1
  /\ (tests_run steps = 3 <-> steps = 0%nat \/ steps = 3%nat)
  /\ (execution_status steps draw = "warning"
      <-> draw = 1 /\ steps <> 1%nat)
  /\ 70 <= base_coverage (Z.of_nat complexity) <= 95
  /\ (base_coverage (Z.of_nat complexity) = 95 <-> (13 <= complexity)%nat).
Proof.
  intros Hdraw.
  assert (Hrun : 1 <= tests_run steps
                 /\ (tests_run steps = 3 <-> steps = 0%nat \/ steps = 3%nat)
                 /\ (tests_run steps = 1 <-> steps = 1%nat)).
  { unfold tests_run. destruct (Nat.eqb_spec steps 0); lia. }
  destruct Hrun as (Hpos & Hthree & Hone).
  unfold execution_status, tests_failed, tests_passed, base_coverage.
  split; [lia |]. split; [lia |]. split; [lia |].
  split; [exact Hthree |].
  split; [| lia].
  destruct (Z.eqb_spec (tests_run steps - Z.max 1 (tests_run steps - draw)) 0)
    as [Hz|Hz].
  - split; [discriminate |]. intros [-> Hne]. lia.
  - split; [| done]. intros _. lia.
Qed.

Lemma simulated_results_bounds_witness :
  tests_passed 0 1 + tests_failed 0 1 = tests_run 0
  /\ 1 <= tests_passed 0 1.
Proof.
  destruct (simulated_results_bounds 0 0 1 ltac:(lia))
    as (Hsum & Hpassed & _).
  split; [exact Hsum | exact Hpassed].
Defined.

End SimulatedFacts.

Section WorkflowAccounting.
Import AgentService WorkflowSpec WorkflowMore.
Context {Payload Data : Type}.
Variable try_block :
  string -> @TestAutomationState Payload -> Payload * @ending Data.
Variable artifacts_generated : Payload -> nat.

Lemma agent_state_run_id (row : AgentRow) (state : TestAutomationState) :
  run_id (agent_state try_block row state) = run_id state.
Proof.
  unfold agent_state, agent.
  by destruct (try_block (agent_name row) state) as [p [message data|e]].
Qed.

Lemma count_status_app (status : string) (l1 l2 : list (@Message Data)) :
  count_status status (l1 ++ l2)
  = count_status status l1 + count_status status l2.
Proof.
  unfold count_status, statuses.
  by rewrite omap_app, filter_app, length_app.
Qed.

Lemma count_status_cons (status : string) (m : @Message Data)
    (l : list (@Message Data)) :
  count_status status (m :: l)
  = match m with
    | agent_update _ s _ _ => if bool_decide (s = status) then 1 else 0
    | _ => 0
    end + count_status status l.
Proof.
  unfold count_status, statuses. destruct m; simpl; try done.
  rewrite filter_cons. case_bool_decide.
  - by rewrite decide_True.
  - by rewrite decide_False.
Qed.

Lemma stage_accounts (total : nat) (rows : list AgentRow) :
  forall (index : nat) (state : TestAutomationState),
    let sent := stage_messages try_block total index rows state in
    let final := after_stages try_block rows state in
    length sent = 3 * length rows
    /\ count_status "running" sent = length rows
    /\ count_status "success" sent + count_status "error" sent
       = length rows
    /\ length (errors final)
       = length (errors state) + count_status "error" sent
    /\ run_id final = run_id state.
Proof.
  induction rows as [|row rows IH]; intros index state; [by simpl |].
  cbn [stage_messages after_stages fold_left length].
  destruct (IH (S index) (agent_state try_block row state))
    as (Hlen & Hrun & Hdone & Herr & Hid).
  fold (after_stages try_block rows (agent_state try_block row state)).
  rewrite Herr, Hid, agent_state_errors, agent_state_run_id.
  rewrite agent_messages_cases.
  destruct (try_block (agent_name row) state) as [p [message data|e]];
    cbn [app]; rewrite !count_status_cons;
    repeat (case_bool_decide; try done);
    rewrite ?length_app; cbn [length]; repeat split; lia.
Qed.

(** X13. Whatever the stages do, a workflow sends twenty-five messages:
    for each of the eight stages its announcement, one update in status
    running and one update in status success or error, and the message
    of completion, which says completed also when stages failed.  The
    errors of the run grow by one entry for each update in status error,
    and the run keeps its id; a run that is not registered gets no
    message and changes nothing. *)
Theorem process_workflow_accounting (run : string)
    (state : TestAutomationState)
    (runs : gmap string TestAutomationState) (log : list Message) :
  let final := after_stages try_block agents state in
  let after :=
    process_workflow try_block artifacts_generated run
      (<[run := state]> runs) [] in
  length (snd after) = 25
  /\ count_status "running" (snd after) = 8
  /\ count_status "success" (snd after) + count_status "error" (snd after)
     = 8
  /\ length (errors final)
     = length (errors state) + count_status "error" (snd after)
  /\ last (snd after)
     = Some (workflow_complete run "completed" (errors final)
               (artifacts_generated (payload final)))
  /\ fst after !! run = Some final
  /\ run_id final = run_id state
  /\ process_workflow try_block artifacts_generated run (delete run runs) log
     = (delete run runs, log).
Proof.
  intros final after. subst final after.
  rewrite process_workflow_runs_all. cbn [fst snd].
  destruct (stage_accounts (length agents) agents 0 state)
    as (Hlen & Hrun & Hdone & Herr & Hid).
  rewrite !count_status_app, length_app, Hlen, Hrun, Herr.
  change (count_status "running" [workflow_complete _ _ _ _]) with 0.
  change (count_status "success" [workflow_complete _ _ _ _]) with 0.
  change (count_status "error" [workflow_complete _ _ _ _]) with 0.
  rewrite last_snoc, lookup_insert_eq.
  split; [simpl; lia |]. split; [simpl; lia |]. split; [simpl in *; lia |].
  split; [lia |]. split; [done |]. split; [done |]. split; [done |].
  unfold process_workflow, process_workflow_with.
  by rewrite lookup_delete_eq.
Qed.

End WorkflowAccounting.

Section AdapterResults.
Import Notebook24Adapter WorkflowSpec WorkflowMore.
Context {Dict Coverage FileStatus : Type}.
Variable analysis_func : string -> @stage_call Dict Coverage.
Variable final_coverage : Coverage.
Variable file_statuses : list FileStatus.

#[local] Abbreviation turn :=
  (@stage_turn Dict Coverage FileStatus analysis_func).

Lemma turns_account (todo : list (string * string)) :
  let updates := flat_map (fun '(k, l) => fst (turn k l)) todo in
  length updates = 2 * length todo
  /\ flat_map (fun '(k, l) => snd (turn k l)) todo
     = returned analysis_func todo
  /\ flat_map upd_errors updates = raised analysis_func todo
  /\ flat_map upd_artifacts updates = shown (returned analysis_func todo)
  /\ Forall (fun u => upd_status u = None /\ upd_coverage u = None
                      /\ upd_files u = []) updates.
Proof.
  induction todo as [|[k l] todo IH]; [by repeat split |].
  destruct IH as (Hlen & Hres & Herr & Hart & Hall).
  cbn [flat_map length returned raised omap].
  rewrite !flat_map_app, length_app, Hlen, Hres, Herr, Hart.
  unfold shown, returned, raised, stage_turn. cbn [omap list_omap].
  destruct (analysis_func k) as [r|e]; cbn.
  - repeat split; try lia; try done.
    + by destruct (is_str_or_dict r).
    + by repeat constructor.
  - repeat split; try lia; try done. by repeat constructor.
Qed.

(** X14. The adapter always yields seventeen updates.  The last one
    holds the results of the stages that returned, under their keys and
    in the order of the stages, whatever their type, with the status
    completed, the coverage and the files; the updates before it show
    only the results that are texts or dicts, carry between them one
    error for each stage that raised, and hold no status, coverage or
    files. *)
Theorem analyze_code_results :
  let updates := analyze_code analysis_func final_coverage file_statuses in
  length updates = 17
  /\ last updates
     = Some {| upd_agents := [];
               upd_artifacts := returned analysis_func agents;
               upd_errors := [];
               upd_status := Some "completed";
               upd_coverage := Some final_coverage;
               upd_files := file_statuses |}
  /\ flat_map upd_errors updates = raised analysis_func agents
  /\ flat_map upd_artifacts (removelast updates)
     = shown (returned analysis_func agents)
  /\ Forall (fun u => upd_status u = None /\ upd_coverage u = None
                      /\ upd_files u = []) (removelast updates).
Proof.
  intros updates. subst updates. rewrite analyze_code_turns.
  destruct (turns_account agents) as (Hlen & Hres & Herr & Hart & Hall).
  rewrite length_app, Hlen, last_snoc, flat_map_app, Herr, Hres.
  rewrite removelast_last, Hart.
  repeat split; try done. simpl. by rewrite app_nil_r.
Qed.

End AdapterResults.

(* ===================================================================== *)
(** ** The thread of a run and its subscribers *)
(* ===================================================================== *)

Section RunThreadFacts.
Import RunManager RunThread RunSpec RunnerMore.
Context {CoverageDict Coverage Other : Type}.
Variable Coverage_of : CoverageDict -> option Coverage.
Variable validation_text : @Event CoverageDict Other -> string.
Variable _load_run_state : string -> option (@Run Coverage).

#[local] Abbreviation Manager :=
  (@RunManager.Manager CoverageDict Coverage Other).

Lemma set_run_placed (run_id : string) (run run' : @Run Coverage)
    (q : list QueueItem) (m : Manager) :
  set_run run_id run' (placed run_id run q m) = placed run_id run' q m.
Proof. unfold set_run, placed. simpl. by rewrite insert_insert_eq. Qed.

Lemma add_event_placed (run_id : string) (run : @Run Coverage)
    (q : list QueueItem) (item : QueueItem) (m : Manager) :
  _add_event_to_queue run_id item (placed run_id run q m)
  = placed run_id run (q ++ [item]) m.
Proof.
  unfold _add_event_to_queue, placed. simpl.
  by rewrite lookup_insert_eq, insert_insert_eq.
Qed.

Lemma placed_id (run_id : string) (run : @Run Coverage)
    (q : list QueueItem) (m : Manager) :
  active_runs m !! run_id = Some run ->
  event_queues m !! run_id = Some q ->
  placed run_id run q m = m.
Proof.
  intros Hrun Hq. unfold placed. rewrite !insert_id by done. by destruct m.
Qed.

Lemma event_loop_placed (run_id : string) (events : list Event) (m : Manager) :
  forall (run : @Run Coverage) (q : list QueueItem),
    event_loop Coverage_of validation_text run_id events
      (placed run_id run q m)
    = let '(final, items, failure) :=
        after_events Coverage_of validation_text events run in
      (placed run_id final (q ++ items) m, failure).
Proof.
  induction events as [|event events IH]; intros run q; simpl.
  - by rewrite app_nil_r.
  - unfold _process_agent_event at 1.
    cbn [placed active_runs]. rewrite lookup_insert_eq.
    fold (placed run_id run q m).
    destruct (process_event_on Coverage_of run event) as [run' [|]].
    + by rewrite set_run_placed, app_nil_r.
    + rewrite set_run_placed, add_event_placed, IH.
      destruct (after_events _ _ events run') as [[final items] failure].
      by rewrite <- app_assoc.
Qed.

Lemma finish_placed (run_id : string) (run : @Run Coverage)
    (q : list QueueItem) (failure : option string) (m : Manager) :
  retire run_id
    (match failure with
     | Some e => _handle_run_failure_sync run_id e (placed run_id run q m)
     | None => mark_completed run_id (placed run_id run q m)
     end)
  = {| active_runs := delete run_id (active_runs m);
       completed_runs :=
         <[run_id := closing_run run failure]> (completed_runs m);
       run_tasks := run_tasks m;
       event_queues :=
         <[run_id := q ++ [closing_item run_id failure; stream_end]]>
           (event_queues m) |}.
Proof.
  destruct failure as [e|];
    unfold _handle_run_failure_sync, mark_completed;
    cbn [placed active_runs]; rewrite lookup_insert_eq;
    fold (placed run_id run q m);
    rewrite set_run_placed, add_event_placed;
    unfold retire; cbn [placed active_runs]; rewrite lookup_insert_eq;
    unfold _add_event_to_queue; cbn;
    rewrite lookup_insert_eq, insert_insert_eq, delete_insert_eq;
    by rewrite <- app_assoc.
Qed.

(** The manager after the thread of a run that is active and has a
    queue. *)
Lemma execute_run_sync_active (run_id : string) (events : list Event)
    (ending : generator_end) (m : Manager) (run : @Run Coverage)
    (q : list QueueItem) :
  active_runs m !! run_id = Some run ->
  event_queues m !! run_id = Some q ->
  _execute_run_sync Coverage_of validation_text run_id events ending m
  = {| active_runs := delete run_id (active_runs m);
       completed_runs :=
         <[run_id := thread_run Coverage_of validation_text events ending run]>
           (completed_runs m);
       run_tasks := run_tasks m;
       event_queues :=
         <[run_id := q ++ thread_items Coverage_of validation_text run_id
                            events ending run]>
           (event_queues m) |}.
Proof.
  intros Hrun Hq. unfold _execute_run_sync, thread_run, thread_items.
  assert (Hstart : mark_running run_id m
                   = placed run_id (started_run run)
                       (q ++ [status_update "running"
                                "Starting QA analysis..."]) m).
  { unfold mark_running. rewrite Hrun.
    rewrite <- (placed_id run_id run q m Hrun Hq) at 1.
    by rewrite set_run_placed, add_event_placed. }
  rewrite Hstart, event_loop_placed.
  destruct (after_events _ _ events (started_run run))
    as [[final items] failure].
  set (q' := (q ++ [status_update "running" "Starting QA analysis..."])
               ++ items).
  assert (Hq' : q' ++ [closing_item run_id (failure_of failure ending);
                       stream_end]
                = q ++ status_update "running" "Starting QA analysis..."
                    :: items
                    ++ [closing_item run_id (failure_of failure ending);
                        stream_end]).
  { subst q'. by rewrite <- !app_assoc. }
  rewrite <- Hq'.
  etrans; [| exact (finish_placed run_id final q'
                      (failure_of failure ending) m)].
  destruct failure as [e|]; [reflexivity |].
  by destruct ending.
Qed.

Lemma after_events_frame (events : list Event) :
  forall run : @Run Coverage,
    let '(final, items, failure) :=
      after_events Coverage_of validation_text events run in
    runId final = runId run /\ status final = status run
    /\ errors final = errors run /\ files final = files run
    /\ map key (agents final) = map key (agents run)
    /\ Forall (fun item => item <> stream_end) items
    /\ length items <= length events.
Proof.
  induction events as [|event events IH]; intros run; simpl.
  - repeat split; first [done | (simpl; lia) | constructor].
  - pose proof (process_event_on_frame Coverage_of run event) as Hframe.
    destruct (process_event_on Coverage_of run event) as [run' raised].
    destruct Hframe as (Hid & Hstatus & Herrors & Hfiles & Hagents & _).
    cbn [fst] in *.
    assert (Hkeys : map key (agents run') = map key (agents run)).
    { destruct Hagents
        as [->|(before & after & a & st & _ & _ & _ & -> & ->)];
        [done |].
      by rewrite !map_app. }
    destruct raised.
    + repeat split; first [done | (simpl; lia) | constructor].
    + specialize (IH run').
      destruct (after_events _ _ events run') as [[final items] failure].
      destruct IH as (Hid' & Hstatus' & Herrors' & Hfiles' & Hkeys' & Hitems
                      & Hlen).
      repeat split;
        first [congruence | (simpl; lia) | by constructor].
Qed.

(** X15. The thread of a run that is active and has a queue always
    retires it: the run leaves the active runs for the completed ones,
    with the status completed when every event was accepted and the
    generator ended, and otherwise with the status failed and one more
    error; its id, its files and the keys of its agents are unchanged.
    The queue receives the start of the run, one item for each event
    accepted, the item that tells how the run ended and the end of the
    stream.  The other runs and the tasks are untouched, and the run is
    not reported as active. *)
Theorem execute_run_sync_retires (run_id : string) (events : list Event)
    (ending : generator_end) (m : Manager) (run : @Run Coverage)
    (q : list QueueItem) :
  active_runs m !! run_id = Some run ->
  event_queues m !! run_id = Some q ->
  let after :=
    _execute_run_sync Coverage_of validation_text run_id events ending m in
  let final := thread_run Coverage_of validation_text events ending run in
  let failure :=
    thread_failure Coverage_of validation_text events ending run in
  active_runs after = delete run_id (active_runs m)
  /\ completed_runs after = <[run_id := final]> (completed_runs m)
  /\ run_tasks after = run_tasks m
  /\ event_queues after
     = <[run_id := q ++ thread_items Coverage_of validation_text run_id
                          events ending run]> (event_queues m)
  /\ get_run_status run_id after = Some (closing_status failure)
  /\ is_run_active run_id after = false
  /\ status final = closing_status failure
  /\ errors final
     = errors run
       ++ match failure with
          | Some e => ["Run failed: " +:+ e]
          | None => []
          end
  /\ runId final = runId run
  /\ files final = files run
  /\ map key (agents final) = map key (agents run).
Proof.
  intros Hrun Hq after final failure. subst after final failure.
  rewrite (execute_run_sync_active run_id events ending m run q Hrun Hq).
  unfold thread_run, thread_failure, get_run_status, is_run_active.
  cbn [active_runs completed_runs run_tasks event_queues].
  rewrite lookup_delete_eq, lookup_insert_eq.
  pose proof (after_events_frame events (started_run run)) as Hframe.
  destruct (after_events _ _ events (started_run run))
    as [[final items] failure].
  destruct Hframe as (Hid & _ & Herrors & Hfiles & Hkeys & _).
  repeat split; try done.
  - by destruct (failure_of failure ending).
  - by destruct (failure_of failure ending).
  - destruct (failure_of failure ending); simpl; rewrite Herrors;
      [done | by rewrite app_nil_r].
  - by destruct (failure_of failure ending).
  - by destruct (failure_of failure ending).
  - by destruct (failure_of failure ending).
Qed.

Lemma drain_to_end (items : list (@QueueItem CoverageDict Other)) :
  Forall (fun item => item <> stream_end) items ->
  drain (items ++ [stream_end])
  = (map yield_of (items ++ [stream_end]), true).
Proof.
  induction 1 as [|item items Hitem _ IH]; [reflexivity |].
  cbn [app drain map]. rewrite IH. by destruct item.
Qed.

Lemma thread_items_end (run_id : string) (events : list Event)
    (ending : generator_end) (run : @Run Coverage) :
  exists items : list QueueItem,
    thread_items Coverage_of validation_text run_id events ending run
    = items ++ [stream_end]
    /\ Forall (fun item => item <> stream_end) items.
Proof.
  unfold thread_items.
  pose proof (after_events_frame events (started_run run)) as Hframe.
  destruct (after_events _ _ events (started_run run))
    as [[final items] failure].
  destruct Hframe as (_ & _ & _ & _ & _ & Hitems & _).
  exists (status_update "running" "Starting QA analysis..."
            :: items
            ++ [closing_item run_id (failure_of failure ending)]).
  split; [simpl; by rewrite <- app_assoc |].
  constructor; [done |]. apply Forall_app. split; [exact Hitems |].
  constructor; [| constructor]. by destruct (failure_of failure ending).
Qed.

(** X16. A run that was started and whose thread has ended can be
    streamed once: the subscriber is sent the connection, then every
    item that the thread put on the queue, in order, up to the end of
    the stream, and the queue is deleted; a later subscriber is only
    sent the error that the run was not found, while the status of the
    run can still be read.  A subscriber that comes before the thread
    has put anything on the queue is sent the connection and a
    heartbeat, and waits. *)
Theorem run_is_streamed_once (run_id : string) (paths : list string)
    (use_notebook : nat) (events : list Event) (ending : generator_end)
    (m : Manager) :
  let started := fst (start_run run_id paths use_notebook m) in
  let ended :=
    _execute_run_sync Coverage_of validation_text run_id events ending
      started in
  let items :=
    thread_items Coverage_of validation_text run_id events ending
      (queued_run run_id) in
  event_stream run_id started
  = Waiting [sse_connected run_id; sse_heartbeat]
  /\ event_stream run_id ended
     = Closed (sse_connected run_id :: map yield_of items)
              (drop_queue run_id ended)
  /\ last (map yield_of items) = Some sse_stream_end
  /\ event_stream run_id (drop_queue run_id ended)
     = Closed [sse_error "Run not found"] (drop_queue run_id ended)
  /\ get_run_status run_id (drop_queue run_id ended)
     = Some (closing_status
               (thread_failure Coverage_of validation_text events ending
                  (queued_run run_id))).
Proof.
  intros started ended items.
  assert (Hrun : active_runs started !! run_id = Some (queued_run run_id)).
  { subst started. simpl. by rewrite lookup_insert_eq. }
  assert (Hq : event_queues started !! run_id = Some []).
  { subst started. simpl. by rewrite lookup_insert_eq. }
  clearbody started.
  assert (Hended : event_queues ended !! run_id = Some items).
  { subst ended.
    rewrite (execute_run_sync_active run_id events ending started
               (queued_run run_id) [] Hrun Hq).
    simpl. by rewrite lookup_insert_eq. }
  destruct (thread_items_end run_id events ending (queued_run run_id))
    as (before & Hitems & Hbefore).
  fold items in Hitems.
  split.
  { unfold event_stream. rewrite Hq. simpl. by rewrite Hrun. }
  split.
  { unfold event_stream. rewrite Hended, Hitems.
    by rewrite (drain_to_end before Hbefore). }
  split.
  { rewrite Hitems, map_app. apply last_snoc. }
  split.
  { unfold event_stream, drop_queue. simpl. by rewrite lookup_delete_eq. }
  subst ended.
  rewrite (execute_run_sync_active run_id events ending started
             (queued_run run_id) [] Hrun Hq).
  unfold get_run_status, drop_queue, thread_run, thread_failure. simpl.
  rewrite lookup_delete_eq, lookup_insert_eq.
  destruct (after_events _ _ events (started_run (queued_run run_id)))
    as [[final its] failure].
  by destruct (failure_of failure ending).
Qed.

(** X17. Looking a run up twice gives the same answer as looking it up
    once, and leaves the same registry: a run found on disk only is
    cached among the completed runs, so that after the lookup its
    status can be read, which a run that is only on disk does not allow
    before.  A run is found exactly when it is active, completed or on
    disk; the lookup changes neither the active runs, nor the queues,
    nor the completed runs of other ids. *)
Theorem get_run_caches (run_id : string) (m : Manager) :
  let after := get_run _load_run_state run_id m in
  get_run _load_run_state run_id (fst after) = after
  /\ get_run_status run_id (fst after) = status <$> snd after
  /\ (is_Some (snd after)
      <-> is_Some (get_run_status run_id m)
          \/ is_Some (_load_run_state run_id))
  /\ active_runs (fst after) = active_runs m
  /\ event_queues (fst after) = event_queues m
  /\ run_tasks (fst after) = run_tasks m
  /\ (forall other : string, other <> run_id ->
        completed_runs (fst after) !! other = completed_runs m !! other).
Proof.
  intros after. subst after. unfold get_run, get_run_status.
  destruct (active_runs m !! run_id) as [run|] eqn:Hactive.
  { cbn [fst snd]. rewrite Hactive. repeat split; eauto. }
  destruct (completed_runs m !! run_id) as [run|] eqn:Hdone.
  { cbn [fst snd]. rewrite Hactive, Hdone. repeat split; eauto. }
  destruct (_load_run_state run_id) as [run|] eqn:Hdisk.
  - cbn [fst snd active_runs completed_runs].
    rewrite Hactive, lookup_insert_eq.
    repeat split; eauto.
    intros other Hother. by rewrite lookup_insert_ne.
  - cbn [fst snd]. rewrite Hactive, Hdone, ?Hdisk.
    repeat split; try done;
      first [by intros [? ?] | by intros [[? ?]|[? ?]]].
Qed.

End RunThreadFacts.

Section RunThreadWitness.
Import RunManager RunThread RunSpec RunnerMore.

Lemma execute_run_sync_retires_witness :
  get_run_status "run-1"
    (_execute_run_sync any_coverage no_text "run-1" [gherkin_success]
       Exhausted started)
  = Some "completed".
Proof.
  assert (Hrun : active_runs started !! "run-1" = Some (queued_run "run-1")).
  { by vm_compute. }
  assert (Hq : event_queues started !! "run-1" = Some []).
  { by vm_compute. }
  destruct (execute_run_sync_retires any_coverage no_text "run-1"
              [gherkin_success] Exhausted started (queued_run "run-1") []
              Hrun Hq) as (_ & _ & _ & _ & Hstatus & _).
  exact Hstatus.
Defined.

End RunThreadWitness.

Section RunAgentsFacts.
Import RunManager RunThread RunSpec RunnerMore RunAgents.
Context {CoverageDict Coverage Other : Type}.
Variable Coverage_of : CoverageDict -> option Coverage.
Variable validation_text : @Event CoverageDict Other -> string.
Variable notebook : notebook_outcome.
Variable mock_artifact : string -> string -> string.
Variable fake_coverage : CoverageDict.

#[local] Abbreviation events_of :=
  (@run_agents CoverageDict Other notebook mock_artifact fake_coverage).

Ltac run_the_events :=
  unfold thread_run, thread_failure; vm_compute after_events;
  destruct (Coverage_of fake_coverage) as [c|];
  (split; [by repeat split |]);
  (split; [reflexivity |]);
  (split;
   [intros k l Hin; unfold AGENTS in Hin;
    repeat (apply elem_of_cons in Hin as [[= -> ->]|Hin];
            [vm_compute; reflexivity |]);
    by apply not_elem_of_nil in Hin |]);
  (split; [by vm_compute |]); reflexivity.

(** X18. The events of the mock generator carry a run to its end: each
    of the eight agents ends in the state success with its message and
    its artifact stored under its key, nothing is stored for the closing
    event, whose agent is none of the eight, and the run is completed
    with the coverage of the closing event when that coverage fits the
    model; when it does not, the run fails with that one error, the
    agents staying as they were.  This holds with and without the
    events of the notebook, of which there are two. *)
Theorem run_agents_completes_run (run_id : string) (use_notebook : nat) :
  let events := events_of use_notebook in
  let final :=
    thread_run Coverage_of validation_text events Exhausted
      (queued_run run_id) in
  match Coverage_of fake_coverage with
  | Some c => status final = "completed" /\ errors final = []
              /\ coverage final = Some c
  | None =>
      status final = "failed"
      /\ errors final
         = ["Run failed: "
            +:+ validation_text (final_event fake_coverage)]
      /\ coverage final = None
  end
  /\ agents final = finished_agents
  /\ (forall k l : string,
        (k, l) ∈ AGENTS -> artifacts final !! k = Some (mock_artifact k l))
  /\ artifacts final !! "final" = None
  /\ length events = (if Nat.eqb use_notebook 24 then 2 else 0) + 17.
Proof.
  intros events final. subst events final. unfold run_agents.
  destruct (Nat.eqb use_notebook 24).
  - unfold notebook_events. destruct notebook as [executed_path|msg].
    + run_the_events.
    + run_the_events.
  - run_the_events.
Qed.

End RunAgentsFacts.
